(** * BitBangI2C: a bit-banged I2C master driven by a half-bit tick

    Shallow embedding of [src/freertos_drivers/common/BitBangI2C.hxx].

    The driver object, the two GPIO lines, the tick source and the
    semaphore are one record; the member functions are computations in a
    small state-and-fault monad.  What the driver reads from the bus
    ([Gpio::read]) is an input of each tick; what it does to its
    collaborators (GPIO calls, tick callbacks, semaphore posts) is pushed on
    a log. *)

From Stdlib Require Import ZArith Lia Bool.
From stdpp Require Import base list.

Open Scope Z_scope.

(** ** Collaborators that are declared outside the driver *)

(** Modelled from the spec: [os/Gpio.hxx] is not among the sources. The
    GPIO contract of the spec gives the calls the driver makes on a line:
    set its direction, drive it low ([clr]) and read its level; a line that
    is an input is released and the pull-up makes it high. *)
Module Gpio.
Inductive Value := CLR | SET.
Inductive Direction := DINPUT | DOUTPUT.

(** What the driver has done to one line: direction and output latch. *)
Record t := mk { direction : Direction; latch : Value }.

Definition set_direction (dir : Direction) (g : t) : t :=
  mk dir (latch g).
Definition clr (g : t) : t := mk (direction g) CLR.

(** Level the master puts on the wire: an input is released and the
    pull-up makes it high, an output drives its latch. *)
Definition level (g : t) : Value :=
  match direction g with
  | DINPUT => SET
  | DOUTPUT => latch g
  end.

Definition Value_eqb (a b : Value) : bool :=
  match a, b with
  | CLR, CLR | SET, SET => true
  | _, _ => false
  end.
End Gpio.

(** The two lines of the bus. *)
Inductive Pin := SDA | SCL.

(** Modelled from the spec: [struct i2c_msg] is declared by the I2C device
    header, which is not among the sources. A message has an address, the
    flags with the direction, a length and the caller's buffer (here the
    bytes the [buf] pointer refers to). *)
Record i2c_msg := mk_msg {
  addr : Z;
  flags : Z;
  len : Z;
  buf : list Z
}.

(** Modelled from the spec: the flag of [i2c_msg.flags] that marks a read
    message; the header with its value is not among the sources, bit 0 is
    taken. *)
Definition I2C_M_RD : Z := 1.

(** Modelled from the spec: the two error codes, which the driver returns
    negated. [errno.h] is not among the sources; the usual values are
    taken, and the proofs use only that they are positive. *)
Definition EIO : Z := 5.
Definition EINVAL : Z := 22.

(** Levels that [Gpio::read] returns on the two lines during one tick. *)
Record Bus := mk_bus { scl_line : Gpio.Value; sda_line : Gpio.Value }.

(** Calls the driver makes on its collaborators. *)
Inductive Event :=
| GpioSetDirection (p : Pin) (dir : Gpio.Direction)
| GpioClr (p : Pin)
| EnableTick
| DisableTick
| SemPost.

(** ** The state enumerations of the driver *)

Inductive State := START | ADDRESS | DATA_TX | DATA_RX | STOP.

Module StateStart.
Inductive t := SDA_SET | SCL_SET | SDA_CLR.
Definition FIRST := SDA_SET.
Definition LAST := SDA_CLR.
Definition to_Z (x : t) : Z :=
  match x with SDA_SET => 0 | SCL_SET => 1 | SDA_CLR => 2 end.
Definition of_Z (z : Z) : t :=
  match z with 0 => SDA_SET | 1 => SCL_SET | _ => SDA_CLR end.
(** [operator++]: steps to the next enumerator, clamped at [LAST]. *)
Definition incr (x : t) : t :=
  if (to_Z FIRST <=? to_Z x) && (to_Z x <? to_Z LAST)
  then of_Z (to_Z x + 1) else x.
End StateStart.

Module StateStop.
Inductive t := SDA_CLR | SCL_SET | SDA_SET.
Definition FIRST := SDA_CLR.
Definition LAST := SDA_SET.
Definition to_Z (x : t) : Z :=
  match x with SDA_CLR => 0 | SCL_SET => 1 | SDA_SET => 2 end.
Definition of_Z (z : Z) : t :=
  match z with 0 => SDA_CLR | 1 => SCL_SET | _ => SDA_SET end.
Definition incr (x : t) : t :=
  if (to_Z FIRST <=? to_Z x) && (to_Z x <? to_Z LAST)
  then of_Z (to_Z x + 1) else x.
End StateStop.

Module StateTx.
Inductive t :=
| DATA_7_SCL_CLR | DATA_7_SCL_SET
| DATA_6_SCL_CLR | DATA_6_SCL_SET
| DATA_5_SCL_CLR | DATA_5_SCL_SET
| DATA_4_SCL_CLR | DATA_4_SCL_SET
| DATA_3_SCL_CLR | DATA_3_SCL_SET
| DATA_2_SCL_CLR | DATA_2_SCL_SET
| DATA_1_SCL_CLR | DATA_1_SCL_SET
| DATA_0_SCL_CLR | DATA_0_SCL_SET
| ACK_SDA_SET_SCL_CLR
| ACK_SCL_SET
| ACK_SCL_CLR.
Definition FIRST := DATA_7_SCL_CLR.
Definition LAST := ACK_SCL_CLR.
Definition to_Z (x : t) : Z :=
  match x with
  | DATA_7_SCL_CLR => 0 | DATA_7_SCL_SET => 1
  | DATA_6_SCL_CLR => 2 | DATA_6_SCL_SET => 3
  | DATA_5_SCL_CLR => 4 | DATA_5_SCL_SET => 5
  | DATA_4_SCL_CLR => 6 | DATA_4_SCL_SET => 7
  | DATA_3_SCL_CLR => 8 | DATA_3_SCL_SET => 9
  | DATA_2_SCL_CLR => 10 | DATA_2_SCL_SET => 11
  | DATA_1_SCL_CLR => 12 | DATA_1_SCL_SET => 13
  | DATA_0_SCL_CLR => 14 | DATA_0_SCL_SET => 15
  | ACK_SDA_SET_SCL_CLR => 16
  | ACK_SCL_SET => 17
  | ACK_SCL_CLR => 18
  end.
Definition of_Z (z : Z) : t :=
  match z with
  | 0 => DATA_7_SCL_CLR | 1 => DATA_7_SCL_SET
  | 2 => DATA_6_SCL_CLR | 3 => DATA_6_SCL_SET
  | 4 => DATA_5_SCL_CLR | 5 => DATA_5_SCL_SET
  | 6 => DATA_4_SCL_CLR | 7 => DATA_4_SCL_SET
  | 8 => DATA_3_SCL_CLR | 9 => DATA_3_SCL_SET
  | 10 => DATA_2_SCL_CLR | 11 => DATA_2_SCL_SET
  | 12 => DATA_1_SCL_CLR | 13 => DATA_1_SCL_SET
  | 14 => DATA_0_SCL_CLR | 15 => DATA_0_SCL_SET
  | 16 => ACK_SDA_SET_SCL_CLR
  | 17 => ACK_SCL_SET
  | _ => ACK_SCL_CLR
  end.
Definition incr (x : t) : t :=
  if (to_Z FIRST <=? to_Z x) && (to_Z x <? to_Z LAST)
  then of_Z (to_Z x + 1) else x.
End StateTx.

Module StateRx.
Inductive t :=
| DATA_7_SCL_SET | DATA_7_SCL_CLR
| DATA_6_SCL_SET | DATA_6_SCL_CLR
| DATA_5_SCL_SET | DATA_5_SCL_CLR
| DATA_4_SCL_SET | DATA_4_SCL_CLR
| DATA_3_SCL_SET | DATA_3_SCL_CLR
| DATA_2_SCL_SET | DATA_2_SCL_CLR
| DATA_1_SCL_SET | DATA_1_SCL_CLR
| DATA_0_SCL_SET | DATA_0_SCL_CLR
| ACK_SDA_SCL_SET
| ACK_SCL_CLR.
Definition FIRST := DATA_7_SCL_SET.
Definition LAST := ACK_SCL_CLR.
Definition to_Z (x : t) : Z :=
  match x with
  | DATA_7_SCL_SET => 0 | DATA_7_SCL_CLR => 1
  | DATA_6_SCL_SET => 2 | DATA_6_SCL_CLR => 3
  | DATA_5_SCL_SET => 4 | DATA_5_SCL_CLR => 5
  | DATA_4_SCL_SET => 6 | DATA_4_SCL_CLR => 7
  | DATA_3_SCL_SET => 8 | DATA_3_SCL_CLR => 9
  | DATA_2_SCL_SET => 10 | DATA_2_SCL_CLR => 11
  | DATA_1_SCL_SET => 12 | DATA_1_SCL_CLR => 13
  | DATA_0_SCL_SET => 14 | DATA_0_SCL_CLR => 15
  | ACK_SDA_SCL_SET => 16
  | ACK_SCL_CLR => 17
  end.
Definition of_Z (z : Z) : t :=
  match z with
  | 0 => DATA_7_SCL_SET | 1 => DATA_7_SCL_CLR
  | 2 => DATA_6_SCL_SET | 3 => DATA_6_SCL_CLR
  | 4 => DATA_5_SCL_SET | 5 => DATA_5_SCL_CLR
  | 6 => DATA_4_SCL_SET | 7 => DATA_4_SCL_CLR
  | 8 => DATA_3_SCL_SET | 9 => DATA_3_SCL_CLR
  | 10 => DATA_2_SCL_SET | 11 => DATA_2_SCL_CLR
  | 12 => DATA_1_SCL_SET | 13 => DATA_1_SCL_CLR
  | 14 => DATA_0_SCL_SET | 15 => DATA_0_SCL_CLR
  | 16 => ACK_SDA_SCL_SET
  | _ => ACK_SCL_CLR
  end.
Definition incr (x : t) : t :=
  if (to_Z FIRST <=? to_Z x) && (to_Z x <? to_Z LAST)
  then of_Z (to_Z x + 1) else x.
End StateRx.

(** The anonymous union of the four sub-state members: the constructor
    records which member was written last (the active member). *)
Inductive SubState :=
| stateStart_ (s : StateStart.t)
| stateStop_ (s : StateStop.t)
| stateTx_ (s : StateTx.t)
| stateRx_ (s : StateRx.t).

(** ** The driver object *)

Record BitBangI2C := mk {
  sda_ : Gpio.t;                 (* GPIO for the SDA line *)
  scl_ : Gpio.t;                 (* GPIO for the SCL line *)
  tickEnabled : bool;            (* tick source, switched by the callbacks *)
  msg_ : option i2c_msg;         (* message presently acted upon, None = nullptr *)
  sem_ : nat;                    (* count of the semaphore *)
  count_ : Z;                    (* data bytes transferred, error if < 0; an
                                    int that stays between -EIO and the
                                    message length, see inv_count_le *)
  state_ : State;
  union_ : SubState;
  stop_ : bool;
  clockStretchActive_ : bool;
  log : list Event               (* calls made so far, newest first *)
}.

Definition set_sda_ v d := mk v (scl_ d) (tickEnabled d) (msg_ d) (sem_ d)
  (count_ d) (state_ d) (union_ d) (stop_ d) (clockStretchActive_ d) (log d).
Definition set_scl_ v d := mk (sda_ d) v (tickEnabled d) (msg_ d) (sem_ d)
  (count_ d) (state_ d) (union_ d) (stop_ d) (clockStretchActive_ d) (log d).
Definition set_tickEnabled v d := mk (sda_ d) (scl_ d) v (msg_ d) (sem_ d)
  (count_ d) (state_ d) (union_ d) (stop_ d) (clockStretchActive_ d) (log d).
Definition set_msg_ v d := mk (sda_ d) (scl_ d) (tickEnabled d) v (sem_ d)
  (count_ d) (state_ d) (union_ d) (stop_ d) (clockStretchActive_ d) (log d).
Definition set_sem_ v d := mk (sda_ d) (scl_ d) (tickEnabled d) (msg_ d) v
  (count_ d) (state_ d) (union_ d) (stop_ d) (clockStretchActive_ d) (log d).
Definition set_count_ v d := mk (sda_ d) (scl_ d) (tickEnabled d) (msg_ d)
  (sem_ d) v (state_ d) (union_ d) (stop_ d) (clockStretchActive_ d) (log d).
Definition set_state_ v d := mk (sda_ d) (scl_ d) (tickEnabled d) (msg_ d)
  (sem_ d) (count_ d) v (union_ d) (stop_ d) (clockStretchActive_ d) (log d).
Definition set_union_ v d := mk (sda_ d) (scl_ d) (tickEnabled d) (msg_ d)
  (sem_ d) (count_ d) (state_ d) v (stop_ d) (clockStretchActive_ d) (log d).
Definition set_stop_ v d := mk (sda_ d) (scl_ d) (tickEnabled d) (msg_ d)
  (sem_ d) (count_ d) (state_ d) (union_ d) v (clockStretchActive_ d) (log d).
Definition set_clockStretchActive_ v d := mk (sda_ d) (scl_ d) (tickEnabled d)
  (msg_ d) (sem_ d) (count_ d) (state_ d) (union_ d) (stop_ d) v (log d).
Definition set_log v d := mk (sda_ d) (scl_ d) (tickEnabled d) (msg_ d)
  (sem_ d) (count_ d) (state_ d) (union_ d) (stop_ d) (clockStretchActive_ d) v.

(** ** State-and-fault monad

    A member function either finishes with a value and the new object, or
    faults: a null [msg_] is dereferenced, a byte outside the buffer is
    touched, or a union member other than the active one is read. *)

Inductive Res (A : Type) :=
| Ok (a : A) (d : BitBangI2C)
| Fault.
Arguments Ok {A} a d.
Arguments Fault {A}.

Definition M (A : Type) := BitBangI2C -> Res A.

Definition ret {A} (a : A) : M A := fun d => Ok a d.
Definition bind {A B} (c : M A) (k : A -> M B) : M B :=
  fun d => match c d with
           | Ok a d' => k a d'
           | Fault => Fault
           end.
Definition fault {A} : M A := fun _ => Fault.
Definition gets {A} (f : BitBangI2C -> A) : M A := fun d => Ok (f d) d.
Definition modify (f : BitBangI2C -> BitBangI2C) : M unit :=
  fun d => Ok tt (f d).

Declare Scope m_scope.
Delimit Scope m_scope with m.
Notation "x <- c ;; k" := (bind c (fun x => k))
  (at level 100, c at next level, k at level 200, right associativity)
  : m_scope.
Notation "c ;; k" := (bind c (fun _ => k))
  (at level 100, k at level 200, right associativity) : m_scope.
Open Scope m_scope.

Definition emit (e : Event) : M unit :=
  modify (fun d => set_log (e :: log d) d).

(** Calls on a [Gpio] object. *)
Definition Gpio_set_direction (p : Pin) (dir : Gpio.Direction) : M unit :=
  modify (fun d => match p with
                   | SDA => set_sda_ (Gpio.set_direction dir (sda_ d)) d
                   | SCL => set_scl_ (Gpio.set_direction dir (scl_ d)) d
                   end) ;;
  emit (GpioSetDirection p dir).

Definition Gpio_clr (p : Pin) : M unit :=
  modify (fun d => match p with
                   | SDA => set_sda_ (Gpio.clr (sda_ d)) d
                   | SCL => set_scl_ (Gpio.clr (scl_ d)) d
                   end) ;;
  emit (GpioClr p).

Definition Gpio_read (p : Pin) (bus : Bus) : Gpio.Value :=
  match p with
  | SDA => sda_line bus
  | SCL => scl_line bus
  end.

(** The tick callbacks and the semaphore post. *)
Definition enableTick_ : M unit :=
  modify (set_tickEnabled true) ;; emit EnableTick.
Definition disableTick_ : M unit :=
  modify (set_tickEnabled false) ;; emit DisableTick.
Definition post_from_isr : M unit :=
  modify (fun d => set_sem_ (S (sem_ d)) d) ;; emit SemPost.

(** Access to the union members and to the message. *)
Definition get_stateStart_ : M StateStart.t :=
  fun d => match union_ d with stateStart_ s => Ok s d | _ => Fault end.
Definition get_stateStop_ : M StateStop.t :=
  fun d => match union_ d with stateStop_ s => Ok s d | _ => Fault end.
Definition get_stateTx_ : M StateTx.t :=
  fun d => match union_ d with stateTx_ s => Ok s d | _ => Fault end.
Definition get_stateRx_ : M StateRx.t :=
  fun d => match union_ d with stateRx_ s => Ok s d | _ => Fault end.

Definition deref_msg_ : M i2c_msg :=
  fun d => match msg_ d with Some m => Ok m d | None => Fault end.

(** [msg_->buf[i]] as an rvalue and as an lvalue. *)
Definition load_buf (i : Z) : M Z :=
  m <- deref_msg_ ;;
  if i <? 0 then fault
  else match buf m !! Z.to_nat i with
       | Some v => ret v
       | None => fault
       end.

Definition store_buf (i : Z) (v : Z) : M unit :=
  m <- deref_msg_ ;;
  if (i <? 0) || (Z.of_nat (length (buf m)) <=? i) then fault
  else modify (set_msg_
         (Some (mk_msg (addr m) (flags m) (len m)
                       (<[Z.to_nat i := v]> (buf m))))).

(** ** Member functions *)

(** [gpio_set]: release the line (input, pulled high). *)
Definition gpio_set (gpio : Pin) : M unit :=
  Gpio_set_direction gpio Gpio.DINPUT.

(** [gpio_clr]: drive the line low. *)
Definition gpio_clr (gpio : Pin) : M unit :=
  Gpio_clr gpio ;;
  Gpio_set_direction gpio Gpio.DOUTPUT ;;
  Gpio_clr gpio.

(** The pre-increments [++stateStart_], [++stateStop_], [++stateTx_],
    [++stateRx_]. *)
Definition incr_stateStart_ : M unit :=
  s <- get_stateStart_ ;; modify (set_union_ (stateStart_ (StateStart.incr s))).
Definition incr_stateStop_ : M unit :=
  s <- get_stateStop_ ;; modify (set_union_ (stateStop_ (StateStop.incr s))).
Definition incr_stateTx_ : M unit :=
  s <- get_stateTx_ ;; modify (set_union_ (stateTx_ (StateTx.incr s))).
Definition incr_stateRx_ : M unit :=
  s <- get_stateRx_ ;; modify (set_union_ (stateRx_ (StateRx.incr s))).

(** [state_start]: true once the start condition has been sent. *)
Definition state_start : M bool :=
  s <- get_stateStart_ ;;
  match s with
  | StateStart.SDA_SET => gpio_set SDA ;; incr_stateStart_ ;; ret false
  | StateStart.SCL_SET => gpio_set SCL ;; incr_stateStart_ ;; ret false
  | StateStart.SDA_CLR => gpio_clr SDA ;; incr_stateStart_ ;; ret true
  end.

(** [state_stop]: true once the stop condition has been sent. *)
Definition state_stop : M bool :=
  s <- get_stateStop_ ;;
  match s with
  | StateStop.SDA_CLR => gpio_clr SDA ;; incr_stateStop_ ;; ret false
  | StateStop.SCL_SET => gpio_set SCL ;; incr_stateStop_ ;; ret false
  | StateStop.SDA_SET => gpio_set SDA ;; modify (set_stop_ false) ;; ret true
  end.

(** [state_tx]: one tick of sending [data]; true once the byte and its
    acknowledge slot are done. [count_] is negative afterwards if the slave
    did not acknowledge. *)
Definition state_tx (bus : Bus) (data : Z) : M bool :=
  s <- get_stateTx_ ;;
  match s with
  | StateTx.DATA_7_SCL_CLR | StateTx.DATA_6_SCL_CLR
  | StateTx.DATA_5_SCL_CLR | StateTx.DATA_4_SCL_CLR
  | StateTx.DATA_3_SCL_CLR | StateTx.DATA_2_SCL_CLR
  | StateTx.DATA_1_SCL_CLR | StateTx.DATA_0_SCL_CLR =>
      gpio_clr SCL ;;
      let mask :=
        Z.shiftr 0x80
          (Z.shiftr (StateTx.to_Z s - StateTx.to_Z StateTx.DATA_7_SCL_CLR) 1) in
      (if negb (Z.land data mask =? 0) then gpio_set SDA else gpio_clr SDA) ;;
      incr_stateTx_ ;;
      ret false
  | StateTx.DATA_7_SCL_SET | StateTx.DATA_6_SCL_SET
  | StateTx.DATA_5_SCL_SET | StateTx.DATA_4_SCL_SET
  | StateTx.DATA_3_SCL_SET | StateTx.DATA_2_SCL_SET
  | StateTx.DATA_1_SCL_SET | StateTx.DATA_0_SCL_SET =>
      gpio_set SCL ;; incr_stateTx_ ;; ret false
  | StateTx.ACK_SDA_SET_SCL_CLR =>
      gpio_clr SCL ;; gpio_set SDA ;; incr_stateTx_ ;; ret false
  | StateTx.ACK_SCL_SET =>
      gpio_set SCL ;; incr_stateTx_ ;; ret false
  | StateTx.ACK_SCL_CLR =>
      if Gpio.Value_eqb (Gpio_read SCL bus) Gpio.CLR then
        (* clock stretching, do the same state again *)
        modify (set_clockStretchActive_ true) ;; ret false
      else
        stretch <- gets clockStretchActive_ ;;
        if stretch then
          (* one more round of the same state after the stretch *)
          modify (set_clockStretchActive_ false) ;; ret false
        else
          let ack := Gpio.Value_eqb (Gpio_read SDA bus) Gpio.CLR in
          gpio_clr SCL ;;
          (if negb ack then modify (set_count_ (- EIO)) else ret tt) ;;
          ret true
  end.

(** [state_rx]: one tick of receiving into [msg_->buf[data]]; [nack] asks
    for a NACK in the acknowledge slot. True once the byte is done. *)
Definition state_rx (bus : Bus) (data : Z) (nack : bool) : M bool :=
  s <- get_stateRx_ ;;
  match s with
  | StateRx.DATA_7_SCL_SET =>
      gpio_set SDA ;;                   (* always start with SDA high *)
      gpio_set SCL ;; incr_stateRx_ ;; ret false
  | StateRx.DATA_6_SCL_SET | StateRx.DATA_5_SCL_SET
  | StateRx.DATA_4_SCL_SET | StateRx.DATA_3_SCL_SET
  | StateRx.DATA_2_SCL_SET | StateRx.DATA_1_SCL_SET
  | StateRx.DATA_0_SCL_SET =>
      gpio_set SCL ;; incr_stateRx_ ;; ret false
  | StateRx.DATA_7_SCL_CLR | StateRx.DATA_6_SCL_CLR
  | StateRx.DATA_5_SCL_CLR | StateRx.DATA_4_SCL_CLR
  | StateRx.DATA_3_SCL_CLR | StateRx.DATA_2_SCL_CLR
  | StateRx.DATA_1_SCL_CLR | StateRx.DATA_0_SCL_CLR =>
      if Gpio.Value_eqb (Gpio_read SCL bus) Gpio.CLR then
        modify (set_clockStretchActive_ true) ;; ret false
      else
        stretch <- gets clockStretchActive_ ;;
        if stretch then
          modify (set_clockStretchActive_ false) ;; ret false
        else
          v <- load_buf data ;;
          store_buf data (Z.shiftl v 1 mod 256) ;;
          (if Gpio.Value_eqb (Gpio_read SDA bus) Gpio.SET then
             v' <- load_buf data ;; store_buf data (Z.lor v' 0x01)
           else ret tt) ;;
          gpio_clr SCL ;;
          (match s with
           | StateRx.DATA_0_SCL_CLR =>
               if negb nack then gpio_clr SDA (* send the ACK *) else ret tt
           | _ => ret tt
           end) ;;
          incr_stateRx_ ;;
          ret false
  | StateRx.ACK_SDA_SCL_SET =>
      gpio_set SCL ;; incr_stateRx_ ;; ret false
  | StateRx.ACK_SCL_CLR =>
      if Gpio.Value_eqb (Gpio_read SCL bus) Gpio.CLR then
        modify (set_clockStretchActive_ true) ;; ret false
      else
        stretch <- gets clockStretchActive_ ;;
        if stretch then
          modify (set_clockStretchActive_ false) ;; ret false
        else
          gpio_clr SCL ;; gpio_set SDA ;; ret true
  end.

(** Whether [msg_->flags & I2C_M_RD] is set. *)
Definition is_read (m : i2c_msg) : bool :=
  negb (Z.land (flags m) I2C_M_RD =? 0).

(** The byte of the address phase: [uint8_t address = msg_->addr << 1],
    with bit 0 set for a read. *)
Definition address_byte (m : i2c_msg) : Z :=
  let address := Z.shiftl (addr m) 1 mod 256 in
  if is_read m then Z.lor address 0x1 else address.

Definition goto_stop : M unit :=
  modify (set_state_ STOP) ;; modify (set_union_ (stateStop_ StateStop.FIRST)).

(** The switch of [tick_interrupt]; the value is the local [exit]. *)
Definition tick_switch (bus : Bus) : M bool :=
  st <- gets state_ ;;
  match st with
  | START =>
      done <- state_start ;;
      if done then
        modify (set_state_ ADDRESS) ;;
        modify (set_union_ (stateTx_ StateTx.FIRST)) ;;
        ret false
      else ret false
  | ADDRESS =>
      m <- deref_msg_ ;;
      done <- state_tx bus (address_byte m) ;;
      if done then
        c <- gets count_ ;;
        if c <? 0 then goto_stop ;; ret false
        else if is_read m then
          modify (set_state_ DATA_RX) ;;
          modify (set_union_ (stateRx_ StateRx.FIRST)) ;;
          ret false
        else
          modify (set_state_ DATA_TX) ;;
          modify (set_union_ (stateTx_ StateTx.FIRST)) ;;
          ret false
      else ret false
  | DATA_TX =>
      c0 <- gets count_ ;;
      data <- load_buf c0 ;;
      done <- state_tx bus data ;;
      if done then
        c <- gets count_ ;;
        if c <? 0 then goto_stop ;; ret false
        else
          modify (set_count_ (c + 1)) ;;
          m <- deref_msg_ ;;
          if len m <=? c + 1 then
            stop <- gets stop_ ;;
            if stop then goto_stop ;; ret false
            else ret true
          else
            modify (set_union_ (stateTx_ StateTx.FIRST)) ;; ret false
      else ret false
  | DATA_RX =>
      c0 <- gets count_ ;;
      m0 <- deref_msg_ ;;
      done <- state_rx bus c0 (len m0 <=? c0 + 1) ;;
      if done then
        c <- gets count_ ;;
        if c <? 0 then ret true
        else
          modify (set_count_ (c + 1)) ;;
          m <- deref_msg_ ;;
          if len m <=? c + 1 then
            stop <- gets stop_ ;;
            if stop then goto_stop ;; ret false
            else ret true
          else
            modify (set_union_ (stateRx_ StateRx.FIRST)) ;; ret false
      else ret false
  | STOP => state_stop
  end.

(** [tick_interrupt]: called at a periodic tick, when enabled. *)
Definition tick_interrupt (bus : Bus) : M unit :=
  exit <- tick_switch bus ;;
  if exit then disableTick_ ;; post_from_isr else ret tt.

(** The constructor. It does not touch the tick source: [ticking] is the
    state the application left it in (the class comment asks for the tick
    to be enabled to start). *)
Definition BitBangI2C_new (sda0 scl0 : Gpio.t) (ticking : bool) : Res unit :=
  (gpio_set SDA ;; gpio_clr SCL)
    (mk sda0 scl0 ticking None 0%nat 0 STOP
        (stateStop_ StateStop.SDA_CLR) true false []).

(** ** The tick source and the blocking call *)

(** The tick source: one call of [tick_interrupt] per input while ticks are
    enabled; once they are disabled the handler is not called any more. *)
Fixpoint ticks (env : list Bus) (d : BitBangI2C) : Res unit :=
  match env with
  | [] => Ok tt d
  | bus :: env' =>
      if tickEnabled d then
        match tick_interrupt bus d with
        | Ok _ d' => ticks env' d'
        | Fault => Fault
        end
      else Ok tt d
  end.

(** Result of a call that may block: it returns with the inputs that are
    left, stays blocked (the inputs ran out, or nothing can wake it), or
    faults. *)
Inductive Outcome (A : Type) :=
| Done (a : A) (d : BitBangI2C) (rest : list Bus)
| Blocked (d : BitBangI2C)
| Faulted.
Arguments Done {A} a d rest.
Arguments Blocked {A} d.
Arguments Faulted {A}.

(** [sem_.wait()]. Modelled from the spec: [OSSem] is not among the
    sources; the spec calls it a counting wait primitive that the interrupt
    posts. The wait takes a count if there is one; otherwise the task
    sleeps and the tick handler runs until it posts. *)
Fixpoint sem_wait (env : list Bus) (d : BitBangI2C) : Outcome unit :=
  match sem_ d with
  | S n => Done tt (set_sem_ n d) env
  | O =>
      if tickEnabled d then
        match env with
        | [] => Blocked d
        | bus :: env' =>
            match tick_interrupt bus d with
            | Ok _ d' => sem_wait env' d'
            | Fault => Faulted
            end
        end
      else Blocked d
  end.

(** [while (stop_) sem_.wait();] Every round takes a count that was there
    or consumes at least one input, so [fuel] rounds are enough when [fuel]
    exceeds their sum. *)
Fixpoint wait_while_stop_ (fuel : nat) (env : list Bus) (d : BitBangI2C)
  : Outcome unit :=
  if stop_ d then
    match fuel with
    | O => Blocked d
    | S fuel' =>
        match sem_wait env d with
        | Done _ d' env' => wait_while_stop_ fuel' env' d'
        | Blocked d' => Blocked d'
        | Faulted => Faulted
        end
    end
  else Done tt d env.

(** The assignments of [transfer] that install the message and start the
    ticks. *)
Definition arm (msg : i2c_msg) (stop : bool) : M unit :=
  modify (set_msg_ (Some msg)) ;;
  modify (set_count_ 0) ;;
  modify (set_stop_ stop) ;;
  modify (set_state_ START) ;;
  modify (set_union_ (stateStart_ StateStart.FIRST)) ;;
  enableTick_.

(** [transfer]: bytes transferred, or a negative errno value. *)
Definition transfer (msg : i2c_msg) (stop : bool) (env : list Bus)
    (d : BitBangI2C) : Outcome Z :=
  match wait_while_stop_ (S (sem_ d + length env)) env d with
  | Done _ d1 env1 =>
      match msg_ d1 with
      | None => Faulted                     (* msg_->len through nullptr *)
      | Some installed =>
          if len installed =? 0 then Done (- EINVAL) d1 env1
          else
            match arm msg stop d1 with
            | Ok _ d2 =>
                match sem_wait env1 d2 with
                | Done _ d3 env2 => Done (count_ d3) d3 env2
                | Blocked d3 => Blocked d3
                | Faulted => Faulted
                end
            | Fault => Faulted
            end
      end
  | Blocked d1 => Blocked d1
  | Faulted => Faulted
  end.

(** ** Notions used by the statements *)

(** The message contract: at least one byte, and the buffer holds [len]
    bytes. *)
Definition wf_msg (msg : i2c_msg) : Prop :=
  1 <= len msg /\ len msg <= Z.of_nat (length (buf msg)).

(** The driver object right after [transfer] has installed [msg] and
    enabled the ticks. *)
Definition armed (msg : i2c_msg) (stop : bool) (d : BitBangI2C) : BitBangI2C :=
  mk (sda_ d) (scl_ d) true (Some msg) (sem_ d) 0 START
     (stateStart_ StateStart.FIRST) stop (clockStretchActive_ d)
     (EnableTick :: log d).

(** A driver object between two transfers on which the length check of
    [transfer] passes: no stop pending, ticks off, nothing posted, and an
    installed message of non-zero length. *)
Definition ready (d : BitBangI2C) : Prop :=
  stop_ d = false /\ tickEnabled d = false /\ sem_ d = 0%nat /\
  clockStretchActive_ d = false /\
  exists installed, msg_ d = Some installed /\ len installed <> 0.

(** States the tick handler passes through while [msg] is transferred. *)
Definition in_transfer (msg : i2c_msg) (stop : bool) (d : BitBangI2C) : Prop :=
  exists d0 env,
    sem_ d0 = 0%nat /\ clockStretchActive_ d0 = false /\
    ticks env (armed msg stop d0) = Ok tt d.

(** The bus as a function of time, and its first [k] ticks. *)
Definition prefix (k : nat) (env : nat -> Bus) : list Bus :=
  map env (seq 0 k).

Definition shift (n : nat) (env : nat -> Bus) : nat -> Bus :=
  fun t => env (n + t)%nat.

(** The slave never holds the clock for good: again and again SCL reads
    high on two ticks in a row. *)
Definition fair (env : nat -> Bus) : Prop :=
  forall t, exists u, (t <= u)%nat /\
    scl_line (env u) = Gpio.SET /\ scl_line (env (S u)) = Gpio.SET.

(** Steps that look at SCL before they act. *)
Definition rx_checks_scl (s : StateRx.t) : bool :=
  match s with
  | StateRx.DATA_7_SCL_CLR | StateRx.DATA_6_SCL_CLR
  | StateRx.DATA_5_SCL_CLR | StateRx.DATA_4_SCL_CLR
  | StateRx.DATA_3_SCL_CLR | StateRx.DATA_2_SCL_CLR
  | StateRx.DATA_1_SCL_CLR | StateRx.DATA_0_SCL_CLR
  | StateRx.ACK_SCL_CLR => true
  | _ => false
  end.

Definition stretch_step (d : BitBangI2C) : bool :=
  match state_ d, union_ d with
  | (ADDRESS | DATA_TX), stateTx_ StateTx.ACK_SCL_CLR => true
  | DATA_RX, stateRx_ s => rx_checks_scl s
  | _, _ => false
  end.

(** The tick repeats its step: SCL reads low, or it read low on the tick
    before. *)
Definition stalls (bus : Bus) (d : BitBangI2C) : bool :=
  stretch_step d &&
  (Gpio.Value_eqb (scl_line bus) Gpio.CLR || clockStretchActive_ d).

(** The tick samples the acknowledge bit of a transmitted byte (address or
    data) and reads a NACK. *)
Definition nack_event (bus : Bus) (d : BitBangI2C) : bool :=
  match state_ d, union_ d with
  | (ADDRESS | DATA_TX), stateTx_ StateTx.ACK_SCL_CLR =>
      tickEnabled d && negb (stalls bus d) &&
      Gpio.Value_eqb (sda_line bus) Gpio.SET
  | _, _ => false
  end.

(** The driver object after [t] ticks of the transfer of [msg], and whether
    tick number [t] detects a NACK. *)
Definition state_at (msg : i2c_msg) (stop : bool) (d0 : BitBangI2C)
    (env : nat -> Bus) (t : nat) : Res unit :=
  ticks (prefix t env) (armed msg stop d0).

Definition nack_at (msg : i2c_msg) (stop : bool) (d0 : BitBangI2C)
    (env : nat -> Bus) (t : nat) : bool :=
  match state_at msg stop d0 env t with
  | Ok _ d => nack_event (env t) d
  | Fault => false
  end.

Definition nack_before (msg : i2c_msg) (stop : bool) (d0 : BitBangI2C)
    (env : nat -> Bus) (t : nat) : bool :=
  existsb (nack_at msg stop d0 env) (seq 0 t).

(** Value read back from an outcome. *)
Definition returned {A} (o : Outcome A) : option A :=
  match o with
  | Done a _ _ => Some a
  | _ => None
  end.

(** Calls of [gpio_clr] as they appear on the log (newest first). *)
Definition gpio_clr_log (p : Pin) : list Event :=
  [GpioClr p; GpioSetDirection p Gpio.DOUTPUT; GpioClr p].

(** The stop sequence on the log: SDA low, SCL high, SDA high. *)
Definition stop_log : list Event :=
  GpioSetDirection SDA Gpio.DINPUT :: GpioSetDirection SCL Gpio.DINPUT ::
  gpio_clr_log SDA.

(** Log entries that are GPIO calls. *)
Definition is_gpio (e : Event) : bool :=
  match e with
  | GpioSetDirection _ _ | GpioClr _ => true
  | _ => false
  end.

Definition gpio_only (l : list Event) : bool := forallb is_gpio l.

(** Order of the high-level states within one transfer. *)
Definition phase (st : State) : nat :=
  match st with
  | START => 0 | ADDRESS => 1 | DATA_TX | DATA_RX => 2 | STOP => 3
  end%nat.

(** Bound on the number of acting ticks that are left. *)
Definition rank (msg : i2c_msg) (d : BitBangI2C) : Z :=
  if tickEnabled d then
    match state_ d, union_ d with
    | START, stateStart_ s => (3 - StateStart.to_Z s) + 19 + 19 * len msg + 3
    | ADDRESS, stateTx_ s => (19 - StateTx.to_Z s) + 19 * len msg + 3
    | DATA_TX, stateTx_ s =>
        (19 - StateTx.to_Z s) + 19 * (len msg - count_ d - 1) + 3
    | DATA_RX, stateRx_ s =>
        (18 - StateRx.to_Z s) + 19 * (len msg - count_ d - 1) + 3
    | STOP, stateStop_ s => 3 - StateStop.to_Z s
    | _, _ => 0
    end
  else 0.

(** *** The invariant of a transfer *)

Definition same_shape (msg m : i2c_msg) : Prop :=
  addr m = addr msg /\ flags m = flags msg /\ len m = len msg /\
  length (buf m) = length (buf msg).

(** What the master drives on SDA while a byte is received: released
    during the data bits, and in the acknowledge slot low for an ACK or
    released for the NACK of the last byte. *)
Definition rx_sda_ok (msg : i2c_msg) (s : StateRx.t) (d : BitBangI2C) : Prop :=
  match s with
  | StateRx.DATA_7_SCL_SET => True
  | StateRx.ACK_SDA_SCL_SET | StateRx.ACK_SCL_CLR =>
      Gpio.level (sda_ d) =
      if len msg <=? count_ d + 1 then Gpio.SET else Gpio.CLR
  | _ => Gpio.level (sda_ d) = Gpio.SET
  end.

(** How far the stop sequence has come. *)
Definition stop_progress (s : StateStop.t) (d : BitBangI2C) : Prop :=
  match s with
  | StateStop.SDA_CLR => True
  | StateStop.SCL_SET =>
      (exists lg, log d = gpio_clr_log SDA ++ lg) /\
      Gpio.level (sda_ d) = Gpio.CLR
  | StateStop.SDA_SET =>
      (exists lg, log d = GpioSetDirection SCL Gpio.DINPUT ::
                          gpio_clr_log SDA ++ lg) /\
      Gpio.level (sda_ d) = Gpio.CLR /\ Gpio.level (scl_ d) = Gpio.SET
  end.

Definition stop_done (d : BitBangI2C) : Prop :=
  (exists lg, log d = SemPost :: DisableTick :: stop_log ++ lg) /\
  Gpio.level (sda_ d) = Gpio.SET /\ Gpio.level (scl_ d) = Gpio.SET.

Definition Inv (msg : i2c_msg) (stop : bool) (d : BitBangI2C) : Prop :=
  (exists m, msg_ d = Some m /\ same_shape msg m /\
             (is_read msg = false -> m = msg)) /\
  match state_ d, union_ d with
  | START, stateStart_ s =>
      tickEnabled d = true /\ sem_ d = 0%nat /\ stop_ d = stop /\
      count_ d = 0 /\ clockStretchActive_ d = false
  | ADDRESS, stateTx_ s =>
      tickEnabled d = true /\ sem_ d = 0%nat /\ stop_ d = stop /\
      count_ d = 0 /\
      (clockStretchActive_ d = true -> s = StateTx.ACK_SCL_CLR)
  | DATA_TX, stateTx_ s =>
      is_read msg = false /\ stop_ d = stop /\
      ((tickEnabled d = true /\ sem_ d = 0%nat /\
        0 <= count_ d < len msg /\
        (clockStretchActive_ d = true -> s = StateTx.ACK_SCL_CLR))
       \/
       (tickEnabled d = false /\ sem_ d = 1%nat /\ count_ d = len msg /\
        stop = false /\ s = StateTx.ACK_SCL_CLR /\
        clockStretchActive_ d = false))
  | DATA_RX, stateRx_ s =>
      is_read msg = true /\ stop_ d = stop /\
      ((tickEnabled d = true /\ sem_ d = 0%nat /\
        0 <= count_ d < len msg /\
        (clockStretchActive_ d = true -> rx_checks_scl s = true) /\
        rx_sda_ok msg s d)
       \/
       (tickEnabled d = false /\ sem_ d = 1%nat /\ count_ d = len msg /\
        stop = false /\ s = StateRx.ACK_SCL_CLR /\
        clockStretchActive_ d = false))
  | STOP, stateStop_ s =>
      clockStretchActive_ d = false /\
      ((count_ d = len msg /\ stop = true) \/ count_ d = - EIO) /\
      ((tickEnabled d = true /\ sem_ d = 0%nat /\ stop_ d = stop /\
        stop_progress s d)
       \/
       (tickEnabled d = false /\ sem_ d = 1%nat /\ stop_ d = false /\
        s = StateStop.SDA_SET /\ stop_done d))
  | _, _ => False
  end.

(** *** One tick of a transfer *)

(** What one handled tick establishes, for a driver object in the transfer
    of [msg]. *)
Definition tick_post (msg : i2c_msg) (stop : bool) (bus : Bus)
    (d d' : BitBangI2C) : Prop :=
  Inv msg stop d' /\
  (stalls bus d = true ->
   d' = set_clockStretchActive_ (Gpio.Value_eqb (scl_line bus) Gpio.CLR) d) /\
  (stalls bus d = false -> rank msg d' < rank msg d) /\
  (count_ d' < 0 <-> count_ d < 0 \/ nack_event bus d = true) /\
  (phase (state_ d) <= phase (state_ d'))%nat /\
  (exists gp, gpio_only gp = true /\
     ((tickEnabled d' = true /\ log d' = gp ++ log d) \/
      (tickEnabled d' = false /\
       log d' = SemPost :: DisableTick :: gp ++ log d))).

(** ** Waveforms, transmitted and received bits *)

(** Levels the master puts on (SDA, SCL) after each handled tick. *)
Fixpoint waveform (env : list Bus) (d : BitBangI2C)
  : list (Gpio.Value * Gpio.Value) :=
  match env with
  | [] => []
  | bus :: env' =>
      if tickEnabled d then
        match tick_interrupt bus d with
        | Ok _ d' =>
            (Gpio.level (sda_ d'), Gpio.level (scl_ d')) :: waveform env' d'
        | Fault => []
        end
      else []
  end.

(** Level of a bit on the wire. *)
Definition bit_level (b : bool) : Gpio.Value :=
  if b then Gpio.SET else Gpio.CLR.

(** Levels on (SDA, SCL) after each call of [state_tx] for one byte. *)
Fixpoint tx_waveform (env : list Bus) (data : Z) (d : BitBangI2C)
  : list (Gpio.Value * Gpio.Value) :=
  match env with
  | [] => []
  | bus :: env' =>
      match state_tx bus data d with
      | Ok done d' =>
          (Gpio.level (sda_ d'), Gpio.level (scl_ d')) ::
          (if done then [] else tx_waveform env' data d')
      | Fault => []
      end
  end.

(** The SDA levels of the entries with SCL low. *)
Fixpoint at_clock_low (w : list (Gpio.Value * Gpio.Value)) : list Gpio.Value :=
  match w with
  | [] => []
  | (sda, Gpio.CLR) :: w' => sda :: at_clock_low w'
  | (_, Gpio.SET) :: w' => at_clock_low w'
  end.

(** The eight bits of a byte as levels, bit 7 first. *)
Definition bits_msb_first (data : Z) : list Gpio.Value :=
  map (fun k => bit_level (Z.testbit data k)) [7; 6; 5; 4; 3; 2; 1; 0].

(** Bit that a clock-low data step of the transmit sub-machine puts on
    SDA. *)
Definition tx_bit (s : StateTx.t) : option Z :=
  match s with
  | StateTx.DATA_7_SCL_CLR => Some 7 | StateTx.DATA_6_SCL_CLR => Some 6
  | StateTx.DATA_5_SCL_CLR => Some 5 | StateTx.DATA_4_SCL_CLR => Some 4
  | StateTx.DATA_3_SCL_CLR => Some 3 | StateTx.DATA_2_SCL_CLR => Some 2
  | StateTx.DATA_1_SCL_CLR => Some 1 | StateTx.DATA_0_SCL_CLR => Some 0
  | _ => None
  end.

(** Clock-high data steps of the transmit sub-machine. *)
Definition tx_clock_high (s : StateTx.t) : bool :=
  match s with
  | StateTx.DATA_7_SCL_SET | StateTx.DATA_6_SCL_SET
  | StateTx.DATA_5_SCL_SET | StateTx.DATA_4_SCL_SET
  | StateTx.DATA_3_SCL_SET | StateTx.DATA_2_SCL_SET
  | StateTx.DATA_1_SCL_SET | StateTx.DATA_0_SCL_SET => true
  | _ => false
  end.

(** Fields that a step inside a sub-machine leaves alone. *)
Definition frame (d d' : BitBangI2C) : Prop :=
  msg_ d' = msg_ d /\ count_ d' = count_ d /\ state_ d' = state_ d /\
  tickEnabled d' = tickEnabled d /\ sem_ d' = sem_ d /\
  stop_ d' = stop_ d /\ clockStretchActive_ d' = clockStretchActive_ d.

(** The byte that a tick in a transmitting state hands to [state_tx]. *)
Definition tx_source (d : BitBangI2C) (data : Z) : Prop :=
  exists m, msg_ d = Some m /\
    ((state_ d = ADDRESS /\ data = address_byte m) \/
     (state_ d = DATA_TX /\ 0 <= count_ d /\
      buf m !! Z.to_nat (count_ d) = Some data)).

(** One received bit: the bus during the clock-high step, the ticks on
    which the slave stretches the clock, and the level of SDA when the
    bit is sampled. *)
Record RxBit := mk_rxbit { pre : Bus; stall : list Bus; bit : Gpio.Value }.

Definition rx_bit_ticks (r : RxBit) : list Bus :=
  pre r :: stall r ++ [mk_bus Gpio.SET (bit r)].

(** Inputs on which a step that checks SCL keeps repeating, and after
    which the stretch flag is clear again. *)
Fixpoint stalled (flag : bool) (l : list Bus) : bool :=
  match l with
  | [] => negb flag
  | bus :: l' =>
      match scl_line bus with
      | Gpio.CLR => stalled true l'
      | Gpio.SET => flag && stalled false l'
      end
  end.

(** A sampled level as a bit. *)
Definition bit_val (b : Gpio.Value) : Z :=
  match b with Gpio.SET => 1 | Gpio.CLR => 0 end.

(** The two statements [*data <<= 1] and [*data |= 0x01] on a byte. *)
Definition shift_in (v : Z) (b : Gpio.Value) : Z :=
  let v' := Z.shiftl v 1 mod 256 in
  match b with
  | Gpio.SET => Z.lor v' 0x01
  | Gpio.CLR => v'
  end.

(** Value of a list of bits, first bit most significant. *)
Definition byte_of_bits (bits : list Gpio.Value) : Z :=
  fold_left (fun acc b => 2 * acc + bit_val b) bits 0.

(** Clock-high data steps and sampling data steps of the receive
    sub-machine. *)
Definition rx_clock_high (s : StateRx.t) : bool :=
  match s with
  | StateRx.DATA_7_SCL_SET | StateRx.DATA_6_SCL_SET
  | StateRx.DATA_5_SCL_SET | StateRx.DATA_4_SCL_SET
  | StateRx.DATA_3_SCL_SET | StateRx.DATA_2_SCL_SET
  | StateRx.DATA_1_SCL_SET | StateRx.DATA_0_SCL_SET => true
  | _ => false
  end.

Definition rx_data_clr (s : StateRx.t) : bool :=
  match s with
  | StateRx.DATA_7_SCL_CLR | StateRx.DATA_6_SCL_CLR
  | StateRx.DATA_5_SCL_CLR | StateRx.DATA_4_SCL_CLR
  | StateRx.DATA_3_SCL_CLR | StateRx.DATA_2_SCL_CLR
  | StateRx.DATA_1_SCL_CLR | StateRx.DATA_0_SCL_CLR => true
  | _ => false
  end.

(** ** Concrete inputs *)

(** A line that the master has released. *)
Definition released : Gpio.t := Gpio.mk Gpio.DINPUT Gpio.SET.

(** A driver between two transfers, after a one-byte write has completed
    with a stop. *)
Definition idle_driver : BitBangI2C :=
  mk released released false (Some (mk_msg 0x50 0 1 [0x00])) 0%nat 1 STOP
     (stateStop_ StateStop.SDA_SET) false false [].

Definition write2 : i2c_msg := mk_msg 0x50 0 2 [0xA5; 0x3C].
Definition read3 : i2c_msg := mk_msg 0x50 I2C_M_RD 3 [0x00; 0x00; 0x00].

(** A message whose length field is zero. *)
Definition zero_length : i2c_msg := mk_msg 0x50 0 0 [0xA5].

(** SCL high and the slave holding SDA low (an ACK, or a zero data bit);
    SCL high and SDA high (nobody answers). *)
Definition ack_bus : Bus := mk_bus Gpio.SET Gpio.CLR.
Definition nack_bus : Bus := mk_bus Gpio.SET Gpio.SET.

Definition always (bus : Bus) : nat -> Bus := fun _ => bus.

(** The driver at the acknowledge step of the address byte of [write2]. *)
Definition at_address_ack : BitBangI2C :=
  Eval cbv in
    match ticks (replicate 21 ack_bus) (armed write2 true idle_driver) with
    | Ok _ d => d
    | Fault => idle_driver
    end.

(** ** Timing, the data-validity rule and the buffer *)

(** Ticks that are left in a transfer when no step is repeated and every
    transmitted byte is acknowledged: 19 ticks for a transmitted byte, 18
    for a received one, three each for the start and the stop sequence. *)
Definition ticks_left (msg : i2c_msg) (stop : bool) (d : BitBangI2C) : Z :=
  let per_byte := if is_read msg then 18 else 19 in
  let tail := if stop then 3 else 0 in
  if tickEnabled d then
    match state_ d, union_ d with
    | START, stateStart_ s =>
        (3 - StateStart.to_Z s) + 19 + per_byte * len msg + tail
    | ADDRESS, stateTx_ s => (19 - StateTx.to_Z s) + per_byte * len msg + tail
    | DATA_TX, stateTx_ s =>
        (19 - StateTx.to_Z s) + 19 * (len msg - count_ d - 1) + tail
    | DATA_RX, stateRx_ s =>
        (18 - StateRx.to_Z s) + 18 * (len msg - count_ d - 1) + tail
    | STOP, stateStop_ s => 3 - StateStop.to_Z s
    | _, _ => 0
    end
  else 0.

(** Length in ticks of a transfer that is neither stretched nor refused. *)
Definition transfer_ticks (msg : i2c_msg) (stop : bool) : Z :=
  3 + 19 + (if is_read msg then 18 else 19) * len msg + (if stop then 3 else 0).

(** The data-validity rule of the bus on a sequence of calls, oldest
    first: every call on the SDA line is made while the master drives SCL
    low. [scl] is the SCL line before the first call. *)
Fixpoint sda_while_scl_low (scl : Gpio.t) (evs : list Event) : bool :=
  match evs with
  | [] => true
  | GpioSetDirection SCL dir :: evs' =>
      sda_while_scl_low (Gpio.set_direction dir scl) evs'
  | GpioClr SCL :: evs' => sda_while_scl_low (Gpio.clr scl) evs'
  | GpioSetDirection SDA _ :: evs' | GpioClr SDA :: evs' =>
      Gpio.Value_eqb (Gpio.level scl) Gpio.CLR && sda_while_scl_low scl evs'
  | _ :: evs' => sda_while_scl_low scl evs'
  end.

(** Where the master is known to hold SCL low between two ticks: before
    the first step of a received byte, and after a transfer that ended
    without a stop sequence. *)
Definition scl_held_low (d : BitBangI2C) : Prop :=
  match state_ d, union_ d with
  | DATA_RX, stateRx_ StateRx.DATA_7_SCL_SET =>
      Gpio.level (scl_ d) = Gpio.CLR
  | DATA_TX, stateTx_ StateTx.ACK_SCL_CLR
  | DATA_RX, stateRx_ StateRx.ACK_SCL_CLR =>
      tickEnabled d = false -> Gpio.level (scl_ d) = Gpio.CLR
  | _, _ => True
  end.

(** A line is never driven high: it is released, or an output with a low
    latch. *)
Definition open_drain (g : Gpio.t) : bool :=
  match Gpio.direction g with
  | Gpio.DINPUT => true
  | Gpio.DOUTPUT => Gpio.Value_eqb (Gpio.latch g) Gpio.CLR
  end.

(** A line after one call of the log. *)
Definition line_after (p : Pin) (e : Event) (g : Gpio.t) : Gpio.t :=
  match e, p with
  | GpioSetDirection SDA dir, SDA | GpioSetDirection SCL dir, SCL =>
      Gpio.set_direction dir g
  | GpioClr SDA, SDA | GpioClr SCL, SCL => Gpio.clr g
  | _, _ => g
  end.

(** After every call of a sequence, oldest first, both lines are released
    or driven low. *)
Fixpoint never_high (sda scl : Gpio.t) (evs : list Event) : bool :=
  match evs with
  | [] => true
  | e :: evs' =>
      open_drain (line_after SDA e sda) && open_drain (line_after SCL e scl) &&
      never_high (line_after SDA e sda) (line_after SCL e scl) evs'
  end.

(** Steps that sample SDA into the buffer. *)
Definition samples (d : BitBangI2C) : bool :=
  match state_ d, union_ d with
  | DATA_RX, stateRx_ s => rx_data_clr s
  | _, _ => false
  end.

(** What one handled tick establishes beyond [tick_post]. *)
Definition tick_detail (msg : i2c_msg) (stop : bool) (bus : Bus)
    (d d' : BitBangI2C) : Prop :=
  scl_held_low d' /\
  (exists evs, log d' = rev evs ++ log d /\
     (state_ d <> START -> state_ d <> STOP ->
      sda_while_scl_low (scl_ d) evs = true) /\
     (open_drain (sda_ d) = true -> open_drain (scl_ d) = true ->
      never_high (sda_ d) (scl_ d) evs = true /\
      open_drain (sda_ d') = true /\ open_drain (scl_ d') = true)) /\
  (samples d = false -> msg_ d' = msg_ d) /\
  (exists m m', msg_ d = Some m /\ msg_ d' = Some m' /\
     forall i, i <> Z.to_nat (count_ d) -> buf m' !! i = buf m !! i) /\
  (scl_line bus = Gpio.SET -> clockStretchActive_ d = false ->
   clockStretchActive_ d' = false) /\
  (stalls bus d = false -> nack_event bus d = false ->
   ticks_left msg stop d' = ticks_left msg stop d - 1).

(** The slave acknowledges every transmitted byte of an unstretched
    transfer: SDA reads low on the tick that samples the acknowledge bit of
    the address byte and, in a write, of each data byte. *)
Definition acked (msg : i2c_msg) (env : nat -> Bus) : Prop :=
  forall j, (j <= if is_read msg then 0 else Z.to_nat (len msg))%nat ->
    sda_line (env (21 + 19 * j)%nat) = Gpio.CLR.

(** Ticks of one data byte: 19 for a transmitted byte, 18 for a received
    one. *)
Definition per_byte (msg : i2c_msg) : Z := if is_read msg then 18 else 19.

(** SDA as it reads on the eight sampling ticks of a received byte that
    starts at tick 0 of [env], when the clock is not stretched. *)
Definition sampled_bits (env : nat -> Bus) : list Gpio.Value :=
  map (fun k => sda_line (env (2 * k + 1)%nat)) (seq 0 8).

(** The same ticks as the eight bits of a received byte without stretch. *)
Definition rx_bits_of (env : nat -> Bus) : list RxBit :=
  map (fun k => mk_rxbit (env (2 * k)%nat) [] (sda_line (env (2 * k + 1)%nat)))
      (seq 0 8).

(** ** Further concrete inputs *)

(** The driver as the constructor leaves it, on two released lines. *)
Definition constructed (ticking : bool) : BitBangI2C :=
  Eval cbv in
    match BitBangI2C_new released released ticking with
    | Ok _ d => d
    | Fault => idle_driver
    end.

(** A bus that acknowledges until tick [t0] and holds SCL low from then
    on. *)
Definition held_low_after (t0 : nat) : nat -> Bus :=
  fun t => if (t <? t0)%nat then ack_bus else mk_bus Gpio.CLR Gpio.SET.

(** A slave that answers the address and then alternates SDA from tick to
    tick in a pattern of period four. *)
Definition pattern_bus : nat -> Bus :=
  fun t => mk_bus Gpio.SET
             (if (t mod 4 =? 1)%nat then Gpio.CLR else Gpio.SET).

(** * Proofs *)

(** ** Symbolic execution of one tick *)

(** Unfolds the monadic code on a driver object given by its fields. *)
Ltac exec :=
  cbv beta iota zeta delta
    [tick_interrupt tick_switch state_start state_stop state_tx state_rx
     bind ret gets modify fault emit gpio_set gpio_clr Gpio_set_direction
     Gpio_clr Gpio_read enableTick_ disableTick_ post_from_isr
     get_stateStart_ get_stateStop_ get_stateTx_ get_stateRx_
     incr_stateStart_ incr_stateStop_ incr_stateTx_ incr_stateRx_
     deref_msg_ load_buf store_buf goto_stop
     set_sda_ set_scl_ set_tickEnabled set_msg_ set_sem_ set_count_
     set_state_ set_union_ set_stop_ set_clockStretchActive_ set_log
     sda_ scl_ tickEnabled msg_ sem_ count_ state_ union_ stop_
     clockStretchActive_ log
     Gpio.Value_eqb Gpio.set_direction Gpio.clr Gpio.direction Gpio.latch
     scl_line sda_line
     StateStart.FIRST StateStop.FIRST StateTx.FIRST StateRx.FIRST];
  cbn [addr flags len buf negb orb andb].

Ltac incr_compute :=
  repeat match goal with
  | |- context [StateStart.incr ?s] =>
      let v := eval vm_compute in (StateStart.incr s) in
      change (StateStart.incr s) with v
  | |- context [StateStop.incr ?s] =>
      let v := eval vm_compute in (StateStop.incr s) in
      change (StateStop.incr s) with v
  | |- context [StateTx.incr ?s] =>
      let v := eval vm_compute in (StateTx.incr s) in
      change (StateTx.incr s) with v
  | |- context [StateRx.incr ?s] =>
      let v := eval vm_compute in (StateRx.incr s) in
      change (StateRx.incr s) with v
  end.

Ltac absurd_branch :=
  try (exfalso;
       repeat match goal with
       | H : _ !! _ = None |- _ => apply lookup_ge_None in H
       | H : context [length (<[_:=_]> _)] |- _ => rewrite length_insert in H
       end;
       unfold EIO in *; cbn [length] in *;
       first [ lia | congruence ]).

Ltac split_bool b :=
  match b with
  | negb ?b' => split_bool b'
  | ?x || _ => split_bool x
  | ?x && _ => split_bool x
  | (?x <? ?y) => destruct (Z.ltb_spec x y)
  | (?x <=? ?y) => destruct (Z.leb_spec x y)
  | (Z.land _ _ =? 0) => destruct b
  | is_read _ => destruct b eqn:?
  | _ => is_var b; destruct b
  end.

Ltac stuck :=
  match goal with
  | |- context [match ?x with Gpio.CLR => _ | Gpio.SET => _ end] =>
      is_var x; destruct x
  | |- context [if ?b then _ else _] => split_bool b
  | |- context [match ?l !! ?i with _ => _ end] => destruct (l !! i) eqn:?
  | |- context [match ?x with Some _ => _ | None => _ end] =>
      is_var x; destruct x
  end.

Ltac run_tick := exec; incr_compute; repeat (stuck; absurd_branch; exec; incr_compute).

Ltac prefix_of l lg :=
  match l with
  | lg => constr:(@nil Event)
  | ?x :: ?l' => let p := prefix_of l' lg in constr:(x :: p)
  end.

Ltac tail_var l :=
  match l with
  | _ :: ?l' => tail_var l'
  | _ => l
  end.

Ltac strip_post p :=
  match p with
  | SemPost :: DisableTick :: ?g => g
  | _ => p
  end.

Ltac leaf :=
  cbn in *;
  repeat match goal with
  | H : _ !! _ = Some _ |- _ => apply lookup_lt_Some in H
  | |- context [length (<[_:=_]> _)] => rewrite length_insert
  | H : context [length (<[_:=_]> _)] |- _ => rewrite length_insert in H
  | |- context [?x <=? ?y] => destruct (Z.leb_spec x y)
  | H : context [?x <=? ?y] |- _ => destruct (Z.leb_spec x y)
  end;
  unfold EIO in *;
  first [ reflexivity | assumption | lia | congruence | discriminate
        | tauto
        | intuition (first [ discriminate | lia | congruence ]) ].

Ltac fin :=
  repeat match goal with
  | |- _ /\ _ => split
  | |- _ <-> _ => split
  | |- exists m, Some _ = Some m /\ _ => eexists; split; [reflexivity|]
  | |- exists gp : list Event, _ /\ (_ /\ ?l = @?r gp \/ _) =>
      let lg := tail_var l in
      let p := prefix_of l lg in
      let g := strip_post p in
      exists g; split; [reflexivity|]
  | |- exists _ : list Event, _ = _ => solve [eexists; reflexivity]
  | H : ?x = _ |- _ => is_var x; subst x
  | |- _ -> _ => intro
  | |- ~ _ => intro
  | H : _ /\ _ |- _ => destruct H
  | H : exists _, _ |- _ => destruct H
  end;
  try solve [ leaf | left; fin | right; fin ].

(** The same for a run of ticks on a driver object given by its fields. *)
Ltac exec_run :=
  cbv beta iota zeta delta [ticks waveform]; exec; incr_compute;
  cbv beta iota zeta delta [Gpio.level Gpio.direction Gpio.latch].

Ltac open_post :=
  unfold tick_post, Inv, stalls, stretch_step, nack_event, rank, same_shape,
    rx_sda_ok, stop_progress, stop_done, stop_log, gpio_clr_log in *;
  cbn in *.

Ltac setup Hst :=
  intros [Hl1 Hl2] [(m & Hm & (Ha & Hf & Hl & Hb) & Hw) HI] Hrun Hst;
  match goal with d : BitBangI2C |- _ =>
    destruct d as [sda scl te mo sem c st u stp cs lg] end;
  match goal with b : Bus |- _ => destruct b as [bscl bsda] end;
  destruct m as [ma mf ml mb];
  cbn in Hm, Ha, Hf, Hl, Hb, Hrun, HI, Hst, Hw; subst;
  match goal with u : SubState |- _ => destruct u as [s|s|s|s] end;
  try contradiction.

Ltac finish_tick :=
  eexists; (split; [reflexivity|]); open_post; unfold is_read in *;
  cbn in *; fin.

Lemma tick_START msg stop bus d :
  wf_msg msg -> Inv msg stop d -> tickEnabled d = true -> state_ d = START ->
  exists d', tick_interrupt bus d = Ok tt d' /\ tick_post msg stop bus d d'.
Proof.
  setup Hst.
  destruct HI as (_ & -> & -> & -> & ->).
  destruct s; run_tick; finish_tick.
Qed.

Lemma tick_STOP msg stop bus d :
  wf_msg msg -> Inv msg stop d -> tickEnabled d = true -> state_ d = STOP ->
  exists d', tick_interrupt bus d = Ok tt d' /\ tick_post msg stop bus d d'.
Proof.
  setup Hst.
  destruct HI as (-> & Hc & [(_ & -> & -> & Hp)|(? & _)]); [|discriminate].
  destruct s; run_tick; finish_tick.
Qed.

Lemma tick_ADDRESS msg stop bus d :
  wf_msg msg -> Inv msg stop d -> tickEnabled d = true -> state_ d = ADDRESS ->
  exists d', tick_interrupt bus d = Ok tt d' /\ tick_post msg stop bus d d'.
Proof.
  setup Hst.
  destruct HI as (_ & -> & -> & -> & Hcs).
  destruct s; destruct cs; try (specialize (Hcs eq_refl); discriminate);
    clear Hcs; run_tick; finish_tick.
Qed.

Lemma tick_DATA_TX msg stop bus d :
  wf_msg msg -> Inv msg stop d -> tickEnabled d = true -> state_ d = DATA_TX ->
  exists d', tick_interrupt bus d = Ok tt d' /\ tick_post msg stop bus d d'.
Proof.
  setup Hst.
  destruct HI as (Hrd & -> & [(_ & -> & Hc & Hcs)|(? & _)]); [|discriminate].
  destruct s; destruct cs; try (specialize (Hcs eq_refl); discriminate);
    clear Hcs; run_tick; finish_tick.
Qed.

Lemma tick_DATA_RX msg stop bus d :
  wf_msg msg -> Inv msg stop d -> tickEnabled d = true -> state_ d = DATA_RX ->
  exists d', tick_interrupt bus d = Ok tt d' /\ tick_post msg stop bus d d'.
Proof.
  setup Hst.
  destruct HI as (Hrd & -> & [(_ & -> & Hc & Hcs & Hsda)|(? & _)]);
    [|discriminate].
  destruct s; destruct cs; try (specialize (Hcs eq_refl); discriminate);
    clear Hcs; run_tick; finish_tick.
Qed.

(** Every tick of a transfer is handled without a fault and keeps the
    invariant. *)
Lemma tick_step msg stop bus d :
  wf_msg msg -> Inv msg stop d -> tickEnabled d = true ->
  exists d', tick_interrupt bus d = Ok tt d' /\ tick_post msg stop bus d d'.
Proof.
  intros Hwf HI Hrun. destruct (state_ d) eqn:Hst.
  - now apply tick_START.
  - now apply tick_ADDRESS.
  - now apply tick_DATA_TX.
  - now apply tick_DATA_RX.
  - now apply tick_STOP.
Qed.

(** ** Runs of the tick source *)

Lemma ticks_disabled env d : tickEnabled d = false -> ticks env d = Ok tt d.
Proof. intros E. destruct env; cbn; [|rewrite E]; reflexivity. Qed.

Lemma ticks_app l1 l2 d :
  ticks (l1 ++ l2) d =
  match ticks l1 d with
  | Ok _ d' => ticks l2 d'
  | Fault => Fault
  end.
Proof.
  revert d. induction l1 as [|b l1 IH]; intros d; cbn; [reflexivity|].
  destruct (tickEnabled d) eqn:E.
  - destruct (tick_interrupt b d); [apply IH | reflexivity].
  - symmetry. now apply ticks_disabled.
Qed.

Lemma map_seq_shift (env : nat -> Bus) a s b :
  map env (seq (a + s) b) = map (fun t => env (a + t)%nat) (seq s b).
Proof.
  revert s. induction b as [|b IH]; intros s; cbn; [reflexivity|].
  f_equal. rewrite <- IH. f_equal. f_equal. lia.
Qed.

Lemma prefix_add a b env :
  prefix (a + b) env = prefix a env ++ prefix b (shift a env).
Proof.
  unfold prefix, shift. rewrite seq_app, map_app. f_equal.
  rewrite <- map_seq_shift. f_equal. f_equal. lia.
Qed.

Lemma prefix_S t env : prefix (S t) env = prefix t env ++ [env t].
Proof.
  replace (S t) with (t + 1)%nat by lia. rewrite prefix_add.
  unfold prefix, shift. cbn. now rewrite Nat.add_0_r.
Qed.

Lemma fair_shift n env : fair env -> fair (shift n env).
Proof.
  intros H t. destruct (H (n + t)%nat) as (u & Hu & H1 & H2).
  exists (u - n)%nat. unfold shift. repeat split; [lia| |].
  - now replace (n + (u - n))%nat with u by lia.
  - now replace (n + S (u - n))%nat with (S u) by lia.
Qed.

(** ** The invariant along a transfer *)

Lemma arm_armed msg stop d : arm msg stop d = Ok tt (armed msg stop d).
Proof. destruct d; reflexivity. Qed.

Lemma inv_armed msg stop d0 :
  sem_ d0 = 0%nat -> clockStretchActive_ d0 = false ->
  Inv msg stop (armed msg stop d0).
Proof.
  intros Hs Hc. split.
  - exists msg. repeat split; auto.
  - cbn. auto.
Qed.

Lemma inv_ticks msg stop env d :
  wf_msg msg -> Inv msg stop d ->
  exists d', ticks env d = Ok tt d' /\ Inv msg stop d' /\
             (phase (state_ d) <= phase (state_ d'))%nat.
Proof.
  intros Hwf. revert d. induction env as [|b env IH]; intros d HI; cbn.
  - eauto.
  - destruct (tickEnabled d) eqn:E; [|eauto].
    destruct (tick_step msg stop b d Hwf HI E) as (d1 & -> & HI1 & _ & _ & _ & Hp & _).
    destruct (IH d1 HI1) as (d' & ? & ? & ?). exists d'.
    split; [assumption|]. split; [assumption|lia].
Qed.

Lemma in_transfer_inv msg stop d :
  wf_msg msg -> in_transfer msg stop d -> Inv msg stop d.
Proof.
  intros Hwf (d0 & env & Hs & Hc & Hr).
  destruct (inv_ticks msg stop env _ Hwf (inv_armed msg stop d0 Hs Hc))
    as (d' & Hr' & HI & _).
  congruence.
Qed.

(** Consequences of the invariant. *)
Lemma inv_sem msg stop d :
  Inv msg stop d -> sem_ d = if tickEnabled d then 0%nat else 1%nat.
Proof.
  intros [_ HI]. destruct (state_ d), (union_ d); try contradiction;
    destruct (tickEnabled d); intuition congruence.
Qed.

Lemma inv_count_le msg stop d :
  wf_msg msg -> Inv msg stop d -> count_ d <= len msg.
Proof.
  intros [H1 _] [_ HI]. unfold EIO in *.
  destruct (state_ d), (union_ d); try contradiction; intuition lia.
Qed.

Lemma inv_finished_count msg stop d :
  Inv msg stop d -> tickEnabled d = false ->
  count_ d = len msg \/ count_ d = - EIO.
Proof.
  intros [_ HI] E.
  destruct (state_ d), (union_ d); try contradiction; intuition congruence.
Qed.

Lemma inv_negative_stop msg stop d :
  wf_msg msg -> Inv msg stop d -> count_ d < 0 ->
  state_ d = STOP /\ count_ d = - EIO.
Proof.
  intros [H1 _] [_ HI] Hc. unfold EIO in *.
  destruct (state_ d), (union_ d); try contradiction; intuition lia.
Qed.

Lemma inv_rank_nonneg msg stop d :
  wf_msg msg -> Inv msg stop d -> 0 <= rank msg d.
Proof.
  intros [H1 _] [_ HI]. unfold rank.
  destruct (tickEnabled d) eqn:E; [|lia].
  destruct (state_ d), (union_ d) as [s|s|s|s]; try contradiction;
    destruct s; cbn; intuition (try discriminate; lia).
Qed.

Lemma rank_set_clockStretchActive_ msg b d :
  rank msg (set_clockStretchActive_ b d) = rank msg d.
Proof. reflexivity. Qed.

(** ** Termination when the clock is not held for good *)

Lemma progress msg stop u : forall env d,
  wf_msg msg -> Inv msg stop d -> tickEnabled d = true ->
  scl_line (env u) = Gpio.SET -> scl_line (env (S u)) = Gpio.SET ->
  exists n d', ticks (prefix (S n) env) d = Ok tt d' /\
               Inv msg stop d' /\ rank msg d' < rank msg d.
Proof.
  induction u as [|u IH]; intros env d Hwf HI Hrun H0 H1.
  - destruct (tick_step msg stop (env 0%nat) d Hwf HI Hrun)
      as (d1 & Ht & HI1 & Hstall & Hrank & _).
    destruct (stalls (env 0%nat) d) eqn:Es.
    + specialize (Hstall eq_refl). rewrite H0 in Hstall. cbn in Hstall.
      assert (Hrun1 : tickEnabled d1 = true) by (subst d1; exact Hrun).
      destruct (tick_step msg stop (env 1%nat) d1 Hwf HI1 Hrun1)
        as (d2 & Ht2 & HI2 & _ & Hrank2 & _).
      assert (Es2 : stalls (env 1%nat) d1 = false).
      { subst d1. unfold stalls. rewrite H1. cbn.
        now destruct (stretch_step _). }
      exists 1%nat, d2. split; [|split; [assumption|]].
      * cbn. rewrite Hrun, Ht, Hrun1, Ht2. reflexivity.
      * specialize (Hrank2 Es2). subst d1.
        now rewrite rank_set_clockStretchActive_ in Hrank2.
    + exists 0%nat, d1. split; [|split; [assumption|auto]].
      cbn. now rewrite Hrun, Ht.
  - destruct (tick_step msg stop (env 0%nat) d Hwf HI Hrun)
      as (d1 & Ht & HI1 & Hstall & Hrank & _).
    destruct (stalls (env 0%nat) d) eqn:Es.
    + specialize (Hstall eq_refl).
      assert (Hrun1 : tickEnabled d1 = true) by (subst d1; exact Hrun).
      destruct (IH (shift 1 env) d1 Hwf HI1 Hrun1 H0 H1)
        as (n & d' & Hn & HI' & Hr').
      exists (S n), d'. split; [|split; [assumption|]].
      * change (S (S n)) with (1 + S n)%nat. rewrite prefix_add, ticks_app.
        cbn [prefix seq map ticks]. now rewrite Hrun, Ht.
      * subst d1. now rewrite rank_set_clockStretchActive_ in Hr'.
    + exists 0%nat, d1. split; [|split; [assumption|auto]].
      cbn. now rewrite Hrun, Ht.
Qed.

Lemma terminates msg stop (r : nat) : forall env d,
  wf_msg msg -> Inv msg stop d -> fair env -> rank msg d <= Z.of_nat r ->
  exists T d', ticks (prefix T env) d = Ok tt d' /\
               Inv msg stop d' /\ tickEnabled d' = false.
Proof.
  induction r as [|r IH]; intros env d Hwf HI Hfair Hr.
  - destruct (tickEnabled d) eqn:Hrun.
    + destruct (Hfair 0%nat) as (u & _ & H0 & H1).
      destruct (progress msg stop u env d Hwf HI Hrun H0 H1)
        as (n & d1 & _ & HI1 & Hlt).
      pose proof (inv_rank_nonneg msg stop d1 Hwf HI1). lia.
    + exists 0%nat, d. auto.
  - destruct (tickEnabled d) eqn:Hrun.
    + destruct (Hfair 0%nat) as (u & _ & H0 & H1).
      destruct (progress msg stop u env d Hwf HI Hrun H0 H1)
        as (n & d1 & Hn & HI1 & Hlt).
      destruct (IH (shift (S n) env) d1 Hwf HI1 (fair_shift _ _ Hfair))
        as (T & d' & HT & HI' & Hoff); [lia|].
      exists (S n + T)%nat, d'. split; [|auto].
      now rewrite prefix_add, ticks_app, Hn.
    + exists 0%nat, d. auto.
Qed.

(** Once the ticks are off, more inputs change nothing. *)
Lemma ticks_stable T k env d d' :
  ticks (prefix T env) d = Ok tt d' -> tickEnabled d' = false ->
  (T <= k)%nat -> ticks (prefix k env) d = Ok tt d'.
Proof.
  intros HT Hoff Hk. replace k with (T + (k - T))%nat by lia.
  rewrite prefix_add, ticks_app, HT. now apply ticks_disabled.
Qed.

(** ** The blocking wait, in terms of the ticks *)

Lemma sem_wait_ticks msg stop env : forall d,
  wf_msg msg -> Inv msg stop d ->
  exists d', ticks env d = Ok tt d' /\ Inv msg stop d' /\
    if tickEnabled d' then sem_wait env d = Blocked d'
    else exists rest, sem_wait env d = Done tt (set_sem_ 0%nat d') rest.
Proof.
  induction env as [|b env IH]; intros d Hwf HI.
  - exists d. split; [reflexivity|]. split; [assumption|].
    pose proof (inv_sem msg stop d HI) as Hs.
    destruct d as [? ? te ? sem ? ? ? ? ? ?]; cbn in *.
    destruct te; subst sem; cbn; eauto.
  - pose proof (inv_sem msg stop d HI) as Hs.
    destruct (tickEnabled d) eqn:Hrun.
    + destruct (tick_step msg stop b d Hwf HI Hrun) as (d1 & Ht & HI1 & _).
      destruct (IH d1 Hwf HI1) as (d' & Hr & HI' & Hw).
      exists d'. split; [|split; [assumption|]].
      * cbn. now rewrite Hrun, Ht.
      * cbn. rewrite Hs, Hrun, Ht. exact Hw.
    + exists d. split; [|split; [assumption|]].
      * cbn. now rewrite Hrun.
      * rewrite Hrun. exists (b :: env).
        destruct d as [? ? te ? sem ? ? ? ? ? ?]; cbn in *. now subst.
Qed.

Lemma transfer_ready msg stop env d :
  ready d ->
  transfer msg stop env d =
  match sem_wait env (armed msg stop d) with
  | Done _ d3 env2 => Done (count_ d3) d3 env2
  | Blocked d3 => Blocked d3
  | Faulted => Faulted
  end.
Proof.
  intros (Hstop & _ & _ & _ & m0 & Hm & Hlen).
  unfold transfer. cbn [wait_while_stop_]. rewrite Hstop, Hm.
  destruct (Z.eqb_spec (len m0) 0); [contradiction|].
  now rewrite arm_armed.
Qed.

(** ** The invariant as a function of time *)

Lemma state_at_S msg stop d0 env t :
  state_at msg stop d0 env (S t) =
  match state_at msg stop d0 env t with
  | Ok _ d => if tickEnabled d then tick_interrupt (env t) d else Ok tt d
  | Fault => Fault
  end.
Proof.
  unfold state_at. rewrite prefix_S, ticks_app.
  destruct (ticks (prefix t env) (armed msg stop d0)) as [[] d|]; [|reflexivity].
  cbn. destruct (tickEnabled d); [|reflexivity].
  destruct (tick_interrupt (env t) d) as [[] ?|]; reflexivity.
Qed.

Lemma nack_before_S msg stop d0 env t :
  nack_before msg stop d0 env (S t) =
  nack_before msg stop d0 env t || nack_at msg stop d0 env t.
Proof.
  unfold nack_before. rewrite seq_S, existsb_app. cbn.
  now rewrite orb_false_r.
Qed.

Lemma run_inv msg stop d0 env :
  wf_msg msg -> sem_ d0 = 0%nat -> clockStretchActive_ d0 = false ->
  forall t, exists d,
    state_at msg stop d0 env t = Ok tt d /\ Inv msg stop d /\
    (count_ d < 0 <-> nack_before msg stop d0 env t = true).
Proof.
  intros Hwf Hs Hc. induction t as [|t (d & Hd & HI & Hn)].
  - exists (armed msg stop d0). split; [reflexivity|].
    split; [now apply inv_armed|]. cbn. split; [lia|discriminate].
  - rewrite state_at_S, Hd, nack_before_S. unfold nack_at at 1. rewrite Hd.
    destruct (tickEnabled d) eqn:Hrun.
    + destruct (tick_step msg stop (env t) d Hwf HI Hrun)
        as (d1 & Ht & HI1 & _ & _ & Hcnt & _).
      exists d1. split; [assumption|]. split; [assumption|].
      rewrite Hcnt, Hn, orb_true_iff. reflexivity.
    + exists d. split; [reflexivity|]. split; [assumption|].
      assert (nack_event (env t) d = false) as ->.
      { unfold nack_event. rewrite Hrun.
        destruct (state_ d), (union_ d) as [| |[]|]; reflexivity. }
      now rewrite orb_false_r.
Qed.

Lemma nack_before_false msg stop d0 env t :
  (forall u, nack_at msg stop d0 env u = false) ->
  nack_before msg stop d0 env t = false.
Proof.
  intros H. unfold nack_before. induction (seq 0 t); cbn; [reflexivity|].
  now rewrite H.
Qed.

(** Under fairness every transfer comes to its end. *)
Lemma transfer_completes msg stop d0 env :
  wf_msg msg -> sem_ d0 = 0%nat -> clockStretchActive_ d0 = false ->
  fair env ->
  exists T d, state_at msg stop d0 env T = Ok tt d /\ Inv msg stop d /\
              tickEnabled d = false /\
              (count_ d < 0 <-> nack_before msg stop d0 env T = true) /\
              forall k, (T <= k)%nat ->
                exists rest,
                  sem_wait (prefix k env) (armed msg stop d0) =
                  Done tt (set_sem_ 0%nat d) rest.
Proof.
  intros Hwf Hs Hc Hfair.
  pose proof (inv_armed msg stop d0 Hs Hc) as HI0.
  destruct (terminates msg stop
              (Z.to_nat (rank msg (armed msg stop d0))) env _ Hwf HI0 Hfair)
    as (T & d & HT & HI & Hoff).
  { pose proof (inv_rank_nonneg msg stop _ Hwf HI0). lia. }
  exists T, d. split; [exact HT|]. split; [assumption|]. split; [assumption|].
  split.
  - destruct (run_inv msg stop d0 env Hwf Hs Hc T) as (d' & Hd' & _ & Hn).
    unfold state_at in Hd'. rewrite HT in Hd'. now inversion Hd'; subst.
  - intros k Hk.
    destruct (sem_wait_ticks msg stop (prefix k env) _ Hwf HI0)
      as (d' & Hr & _ & Hw).
    rewrite (ticks_stable T k env _ d HT Hoff Hk) in Hr.
    inversion Hr; subst d'. now rewrite Hoff in Hw.
Qed.

(** ** What [transfer] returns, and the byte counter *)

(** X18. On a driver that is ready for the call (a message of non-zero
    length is installed, so that the length check passes, no stop is
    pending, the ticks are off and no semaphore count is pending), a
    transfer of a message with at least one byte and a buffer of that
    many bytes that meets no NACK returns the length of the message, for
    a read as for a write: when the slave does not hold the clock for
    good, every long enough run of ticks makes [transfer] return
    [len msg]. *)
Theorem transfer_returns_length msg stop d env :
  ready d -> wf_msg msg -> fair env ->
  (forall t, nack_at msg stop d env t = false) ->
  exists n, forall k, (n <= k)%nat ->
    returned (transfer msg stop (prefix k env) d) = Some (len msg).
Proof.
  intros Hready Hwf Hfair Hnack.
  destruct Hready as (Hstop & Hoff & Hsem & Hcs & Hinst).
  destruct (transfer_completes msg stop d env Hwf Hsem Hcs Hfair)
    as (T & dT & _ & HI & HoffT & Hcnt & Hwait).
  exists T. intros k Hk.
  rewrite transfer_ready by (repeat split; assumption).
  destruct (Hwait k Hk) as (rest & ->). cbn.
  rewrite (nack_before_false msg stop d env T Hnack) in Hcnt.
  destruct (inv_finished_count msg stop dT HI HoffT) as [->| E]; [reflexivity|].
  exfalso. assert (count_ dT < 0) by (rewrite E; unfold EIO; lia).
  apply Hcnt in H. discriminate.
Qed.

(** X19. For a message with at least one byte and a buffer of that many
    bytes, armed on a driver with no semaphore count pending and the
    stretch flag clear: in every state of the transfer the byte counter is
    negative exactly when a NACK has been detected on an earlier tick, and
    it never exceeds the length of the message. *)
Theorem count_invariant msg stop d0 env t :
  wf_msg msg -> sem_ d0 = 0%nat -> clockStretchActive_ d0 = false ->
  exists d, state_at msg stop d0 env t = Ok tt d /\
    (count_ d < 0 <-> nack_before msg stop d0 env t = true) /\
    count_ d <= len msg.
Proof.
  intros Hwf Hs Hc.
  destruct (run_inv msg stop d0 env Hwf Hs Hc t) as (d & Hd & HI & Hn).
  exists d. split; [assumption|]. split; [assumption|].
  now apply (inv_count_le msg stop).
Qed.

(** ** The log of a transfer *)

Lemma gpio_only_app l1 l2 :
  gpio_only (l1 ++ l2) = gpio_only l1 && gpio_only l2.
Proof. apply forallb_app. Qed.

Lemma log_run msg stop d0 env :
  wf_msg msg -> sem_ d0 = 0%nat -> clockStretchActive_ d0 = false ->
  forall t, exists d gp,
    state_at msg stop d0 env t = Ok tt d /\ Inv msg stop d /\
    gpio_only gp = true /\
    log d = (if tickEnabled d then gp else SemPost :: DisableTick :: gp)
            ++ EnableTick :: log d0.
Proof.
  intros Hwf Hs Hc. induction t as [|t (d & gp & Hd & HI & Hgp & Hlog)].
  - exists (armed msg stop d0), []. split; [reflexivity|].
    split; [now apply inv_armed|]. split; reflexivity.
  - rewrite state_at_S, Hd. destruct (tickEnabled d) eqn:Hrun.
    + destruct (tick_step msg stop (env t) d Hwf HI Hrun)
        as (d1 & Ht & HI1 & _ & _ & _ & _ & gp1 & Hgp1 & Hl1).
      exists d1, (gp1 ++ gp). split; [assumption|]. split; [assumption|].
      split; [now rewrite gpio_only_app, Hgp1, Hgp|].
      destruct Hl1 as [[-> ->]|[-> ->]]; rewrite Hlog;
        cbn; now rewrite <- app_assoc.
    + exists d, gp. rewrite Hrun. auto.
Qed.

Lemma inv_finished_ready msg stop d :
  wf_msg msg -> Inv msg stop d -> tickEnabled d = false ->
  ready (set_sem_ 0%nat d).
Proof.
  intros [H1 _] [(m & Hm & (_ & _ & Hl & _) & _) HI] Hoff.
  unfold ready. cbn.
  assert (stop_ d = false /\ clockStretchActive_ d = false) as [-> ->].
  { destruct (state_ d), (union_ d); try contradiction;
      intuition congruence. }
  repeat split; auto. exists m. split; [assumption|lia].
Qed.

(** C9 (as amended). Ticks are on from construction, as the class comment
    asks, while the start-up stop sequence runs with no transfer armed, and
    the tick that completes that sequence switches them off. For a message
    with at least one byte and a buffer of that many bytes that [transfer]
    arms on a driver with no semaphore count pending, ticks are on exactly
    from the arming to the tick of terminal completion: the enable callback
    is called once, by the arming; the disable callback is called once, by
    the tick of terminal completion together with the semaphore post, and
    no tick is handled after it; and a call of [transfer] whose length
    check passed returns with the ticks off and the driver ready for the
    next call. *)
Theorem tick_discipline msg stop d env :
  wf_msg msg -> sem_ d = 0%nat -> clockStretchActive_ d = false ->
  (forall sda0 scl0 b1 b2 b3, exists d0 d2 d3,
     BitBangI2C_new sda0 scl0 true = Ok tt d0 /\
     tickEnabled d0 = true /\ msg_ d0 = None /\
     ticks [b1; b2] d0 = Ok tt d2 /\ tickEnabled d2 = true /\
     ticks [b1; b2; b3] d0 = Ok tt d3 /\ tickEnabled d3 = false /\
     log d3 = SemPost :: DisableTick :: stop_log ++ log d0) /\
  (forall t, exists d_t gp,
     state_at msg stop d env t = Ok tt d_t /\ gpio_only gp = true /\
     log d_t = (if tickEnabled d_t then gp else SemPost :: DisableTick :: gp)
               ++ EnableTick :: log d /\
     sem_ d_t = (if tickEnabled d_t then 0%nat else 1%nat) /\
     (tickEnabled d_t = false ->
      forall u, (t <= u)%nat -> state_at msg stop d env u = Ok tt d_t)) /\
  (ready d ->
   forall k r d' rest,
     transfer msg stop (prefix k env) d = Done r d' rest ->
     tickEnabled d' = false /\ ready d').
Proof.
  intros Hwf Hsem Hcs.
  split; [|split].
  - intros sda0 scl0 b1 b2 b3. unfold BitBangI2C_new. do 3 eexists.
    split; [exec; reflexivity|].
    split; [reflexivity|]. split; [reflexivity|].
    split; [exec_run; reflexivity|]. split; [reflexivity|].
    split; [exec_run; reflexivity|]. split; reflexivity.
  - intros t.
    destruct (log_run msg stop d env Hwf Hsem Hcs t)
      as (d_t & gp & Hd & HI & Hgp & Hlog).
    exists d_t, gp. split; [assumption|]. split; [assumption|].
    split; [assumption|]. split; [now apply (inv_sem msg stop)|].
    intros Hoff u Hu. unfold state_at in *.
    now apply (ticks_stable t u).
  - intros Hready k r d' rest Ht. rewrite transfer_ready in Ht by assumption.
    destruct (sem_wait_ticks msg stop (prefix k env) _ Hwf
                (inv_armed msg stop d Hsem Hcs)) as (dT & _ & HI & Hw).
    destruct (tickEnabled dT) eqn:E.
    + rewrite Hw in Ht. discriminate.
    + destruct Hw as (rest' & Hw). rewrite Hw in Ht.
      inversion Ht; subst. split; [exact E|].
      now apply (inv_finished_ready msg stop).
Qed.

(** C9 (as stated) fails on the freshly constructed driver: ticks are on,
    the handler runs the start-up stop sequence and calls the disable
    callback, and no message was ever armed. *)
Lemma ticking_without_transfer :
  exists d0 d3,
    BitBangI2C_new (Gpio.mk Gpio.DINPUT Gpio.SET) (Gpio.mk Gpio.DINPUT Gpio.SET)
      true = Ok tt d0 /\
    tickEnabled d0 = true /\ msg_ d0 = None /\ ~ In EnableTick (log d0) /\
    ticks (replicate 3 (mk_bus Gpio.SET Gpio.SET)) d0 = Ok tt d3 /\
    tickEnabled d3 = false /\ msg_ d3 = None /\
    In DisableTick (log d3) /\ ~ In EnableTick (log d3).
Proof.
  unfold BitBangI2C_new. do 2 eexists.
  split; [exec; reflexivity|].
  split; [reflexivity|]. split; [reflexivity|].
  split; [cbn; intuition discriminate|].
  split; [cbn [replicate]; exec_run; reflexivity|].
  split; [reflexivity|]. split; [reflexivity|].
  split; cbn; intuition discriminate.
Qed.

(** ** The receive sub-machine and the byte counter *)

Lemma state_rx_count bus data nack d b d' :
  state_rx bus data nack d = Ok b d' -> count_ d' = count_ d.
Proof.
  assert (H : match state_rx bus data nack d with
              | Ok _ d' => count_ d' = count_ d
              | Fault => True
              end).
  { destruct d as [sda scl te mo sem c st u stp cs lg].
    destruct bus as [bscl bsda].
    unfold state_rx.
    destruct u as [s|s|s|s]; try exact I; destruct s;
      run_tick; try exact I; reflexivity. }
  intros E. now rewrite E in H.
Qed.

Lemma existsb_seq_true f n :
  existsb f (seq 0 n) = true -> exists t, (t < n)%nat /\ f t = true.
Proof.
  rewrite existsb_exists. intros (t & Hin & Hf). exists t. split; [|assumption].
  apply in_seq in Hin. lia.
Qed.

Lemma nack_event_inv bus d :
  nack_event bus d = true ->
  (state_ d = ADDRESS \/ state_ d = DATA_TX) /\
  union_ d = stateTx_ StateTx.ACK_SCL_CLR /\
  tickEnabled d = true /\ clockStretchActive_ d = false /\
  scl_line bus = Gpio.SET /\ sda_line bus = Gpio.SET.
Proof.
  unfold nack_event, stalls, stretch_step.
  destruct d as [sda scl te mo sem c st u stp cs lg], bus as [bscl bsda].
  cbn.
  destruct st; try discriminate; destruct u as [| |s|]; try discriminate;
    destruct s; try discriminate;
    destruct te, cs, bscl, bsda; cbn; try discriminate;
    intros _; repeat split; auto.
Qed.

(** C10. The receive sub-machine never writes the byte counter, so the
    counter is not negative while data is received and the error exit of
    the receive path is never taken; a negative return value of [transfer]
    is [-EIO] and comes from a tick that sampled the acknowledge bit of a
    transmitted byte (address or data) as high. *)
Theorem receive_never_fails msg stop d env :
  ready d -> wf_msg msg ->
  (forall bus data nack d1 b d2,
     state_rx bus data nack d1 = Ok b d2 -> count_ d2 = count_ d1) /\
  (forall t d_t,
     state_at msg stop d env t = Ok tt d_t -> state_ d_t = DATA_RX ->
     0 <= count_ d_t) /\
  (forall k r,
     returned (transfer msg stop (prefix k env) d) = Some r -> r < 0 ->
     r = - EIO /\
     exists t d_t, (t < k)%nat /\
       state_at msg stop d env t = Ok tt d_t /\
       (state_ d_t = ADDRESS \/ state_ d_t = DATA_TX) /\
       union_ d_t = stateTx_ StateTx.ACK_SCL_CLR /\
       sda_line (env t) = Gpio.SET).
Proof.
  intros Hready Hwf.
  pose proof Hready as (Hstop & Hoff & Hsem & Hcs & Hinst).
  split; [|split].
  - intros. eapply state_rx_count; eassumption.
  - intros t d_t Hd Hst.
    destruct (run_inv msg stop d env Hwf Hsem Hcs t) as (d' & Hd' & HI & _).
    rewrite Hd in Hd'. inversion Hd'; subst d'.
    destruct (Z.lt_ge_cases (count_ d_t) 0) as [Hneg|]; [|assumption].
    destruct (inv_negative_stop msg stop d_t Hwf HI Hneg). congruence.
  - intros k r Hret Hneg. rewrite transfer_ready in Hret by assumption.
    destruct (sem_wait_ticks msg stop (prefix k env) _ Hwf
                (inv_armed msg stop d Hsem Hcs)) as (dT & HT & HI & Hw).
    destruct (tickEnabled dT) eqn:E.
    { rewrite Hw in Hret. discriminate. }
    destruct Hw as (rest & Hw). rewrite Hw in Hret. cbn in Hret.
    inversion Hret; subst r.
    destruct (run_inv msg stop d env Hwf Hsem Hcs k) as (d' & Hd' & _ & Hn).
    unfold state_at in Hd'. rewrite HT in Hd'. inversion Hd'; subst d'.
    split. { now destruct (inv_negative_stop msg stop dT Hwf HI Hneg). }
    apply Hn in Hneg. apply existsb_seq_true in Hneg as (t & Hlt & Hnack).
    destruct (run_inv msg stop d env Hwf Hsem Hcs t) as (d_t & Hd_t & _ & _).
    unfold nack_at in Hnack. rewrite Hd_t in Hnack.
    apply nack_event_inv in Hnack as (? & ? & _ & _ & _ & ?).
    exists t, d_t. auto.
Qed.

(** ** Clock stretching *)

Lemma stretch_step_set_clockStretchActive_ b d :
  stretch_step (set_clockStretchActive_ b d) = stretch_step d.
Proof. reflexivity. Qed.

Lemma tick_scl_low msg stop bus d :
  wf_msg msg -> Inv msg stop d -> tickEnabled d = true ->
  stretch_step d = true -> scl_line bus = Gpio.CLR ->
  tick_interrupt bus d = Ok tt (set_clockStretchActive_ true d) /\
  Inv msg stop (set_clockStretchActive_ true d).
Proof.
  intros Hwf HI Hrun Hstep Hlow.
  destruct (tick_step msg stop bus d Hwf HI Hrun) as (d1 & Ht & HI1 & Hs & _).
  assert (E : stalls bus d = true) by (unfold stalls; now rewrite Hstep, Hlow).
  specialize (Hs E). rewrite Hlow in Hs. cbn in Hs. subst d1. auto.
Qed.

Lemma tick_scl_high_again msg stop bus d :
  wf_msg msg -> Inv msg stop d -> tickEnabled d = true ->
  stretch_step d = true -> clockStretchActive_ d = true ->
  scl_line bus = Gpio.SET ->
  tick_interrupt bus d = Ok tt (set_clockStretchActive_ false d).
Proof.
  intros Hwf HI Hrun Hstep Hcs Hhigh.
  destruct (tick_step msg stop bus d Hwf HI Hrun) as (d1 & Ht & HI1 & Hs & _).
  assert (E : stalls bus d = true).
  { unfold stalls. rewrite Hstep, Hcs. now rewrite orb_true_r. }
  specialize (Hs E). rewrite Hhigh in Hs. cbn in Hs. now subst d1.
Qed.

Lemma ticks_scl_low msg stop lows : forall d,
  wf_msg msg -> Inv msg stop d -> tickEnabled d = true ->
  stretch_step d = true -> lows <> [] ->
  Forall (fun bus => scl_line bus = Gpio.CLR) lows ->
  ticks lows d = Ok tt (set_clockStretchActive_ true d).
Proof.
  induction lows as [|b lows IH]; intros d Hwf HI Hrun Hstep Hne Hall;
    [contradiction|].
  inversion Hall as [|? ? Hb Hrest]; subst.
  destruct (tick_scl_low msg stop b d Hwf HI Hrun Hstep Hb) as [Ht HI1].
  cbn. rewrite Hrun, Ht. destruct lows as [|b' lows'].
  - reflexivity.
  - rewrite (IH (set_clockStretchActive_ true d) Hwf HI1 Hrun Hstep);
      [now destruct d | discriminate | assumption].
Qed.

(** C7. On a step that expects SCL to be high already, a tick that reads
    SCL low changes nothing but the stretch flag, and so does the first
    tick that reads SCL high again; after any number of low reads and that
    high read the driver is exactly where it was, so the next tick does
    the same step once more as if nothing had happened. Nothing is sampled
    or driven on the way and the byte counter, which carries the errors,
    is untouched. *)
Theorem clock_stretch_repeats msg stop d :
  wf_msg msg -> in_transfer msg stop d -> tickEnabled d = true ->
  stretch_step d = true ->
  (forall bus, scl_line bus = Gpio.CLR ->
     tick_interrupt bus d = Ok tt (set_clockStretchActive_ true d)) /\
  (forall bus, scl_line bus = Gpio.SET -> clockStretchActive_ d = true ->
     tick_interrupt bus d = Ok tt (set_clockStretchActive_ false d)) /\
  (forall lows high next,
     clockStretchActive_ d = false -> lows <> [] ->
     Forall (fun bus => scl_line bus = Gpio.CLR) lows ->
     scl_line high = Gpio.SET ->
     ticks lows d = Ok tt (set_clockStretchActive_ true d) /\
     ticks (lows ++ [high]) d = Ok tt d /\
     ticks (lows ++ [high; next]) d = ticks [next] d).
Proof.
  intros Hwf Hin Hrun Hstep.
  pose proof (in_transfer_inv msg stop d Hwf Hin) as HI.
  split; [|split].
  - intros bus Hlow. now apply (tick_scl_low msg stop).
  - intros bus Hhigh Hcs. now apply (tick_scl_high_again msg stop).
  - intros lows high next Hcs Hne Hall Hhigh.
    pose proof (ticks_scl_low msg stop lows d Hwf HI Hrun Hstep Hne Hall) as Hl.
    assert (Hback : ticks [high] (set_clockStretchActive_ true d) = Ok tt d).
    { destruct (tick_scl_low msg stop (mk_bus Gpio.CLR Gpio.CLR) d Hwf HI Hrun
                  Hstep eq_refl) as [_ HI1].
      cbn [ticks]. change (tickEnabled (set_clockStretchActive_ true d))
        with (tickEnabled d). rewrite Hrun.
      rewrite (tick_scl_high_again msg stop high _ Hwf HI1 Hrun Hstep eq_refl
                 Hhigh).
      destruct d; cbn in *; now subst. }
    split; [assumption|]. split.
    + now rewrite ticks_app, Hl.
    + change [high; next] with ([high] ++ [next]).
      now rewrite app_assoc, ticks_app, ticks_app, Hl, Hback.
Qed.

(** ** A NACK on a transmitted byte *)

Lemma nack_tick msg stop bus d :
  wf_msg msg -> Inv msg stop d -> nack_event bus d = true ->
  exists d1, tick_interrupt bus d = Ok tt d1 /\
    state_ d1 = STOP /\ union_ d1 = stateStop_ StateStop.SDA_CLR /\
    tickEnabled d1 = true /\ count_ d1 = - EIO /\
    log d1 = gpio_clr_log SCL ++ log d /\
    Gpio.level (scl_ d1) = Gpio.CLR /\ msg_ d1 = msg_ d.
Proof.
  intros [Hl1 Hl2] [(m & Hm & (Ha & Hf & Hl & Hb) & Hw) HI] Hn.
  apply nack_event_inv in Hn as (Hst & Hu & Hrun & Hcs & Hscl & Hsda).
  destruct d as [sda scl te mo sem c st u stp cs lg].
  destruct bus as [bscl bsda]. destruct m as [ma mf ml mb].
  cbn in *. subst.
  destruct Hst as [-> | ->].
  - destruct HI as (_ & -> & -> & -> & _).
    run_tick. eexists. split; [reflexivity|]. cbn. auto 10.
  - destruct HI as (Hrd & -> & [(_ & -> & Hc & _)|(? & _)]); [|discriminate].
    run_tick. eexists. split; [reflexivity|]. cbn. auto 10.
Qed.

Lemma stop_run b1 b2 b3 d :
  state_ d = STOP -> union_ d = stateStop_ StateStop.SDA_CLR ->
  tickEnabled d = true ->
  exists d3, ticks [b1; b2; b3] d = Ok tt d3 /\
    tickEnabled d3 = false /\ count_ d3 = count_ d /\
    log d3 = SemPost :: DisableTick :: stop_log ++ log d /\
    waveform [b1; b2; b3] d =
      [(Gpio.CLR, Gpio.level (scl_ d)); (Gpio.CLR, Gpio.SET);
       (Gpio.SET, Gpio.SET)].
Proof.
  intros Hst Hu Hrun.
  destruct d as [sda scl te mo sem c st u stp cs lg]. cbn in *. subst.
  eexists. split; [exec_run; reflexivity|].
  split; [reflexivity|]. split; [reflexivity|]. split; [reflexivity|].
  exec_run. destruct scl as [[] ?]; reflexivity.
Qed.

Lemma state_at_add msg stop d0 env a b d :
  state_at msg stop d0 env a = Ok tt d ->
  state_at msg stop d0 env (a + b) = ticks (prefix b (shift a env)) d.
Proof.
  unfold state_at. intros H. now rewrite prefix_add, ticks_app, H.
Qed.

Lemma nack_before_later msg stop d0 env t0 t :
  nack_at msg stop d0 env t0 = true -> (t0 < t)%nat ->
  nack_before msg stop d0 env t = true.
Proof.
  intros H Hlt. unfold nack_before. apply existsb_exists. exists t0.
  split; [|assumption]. apply in_seq. lia.
Qed.

(** X20. On a driver that is ready for the call (a message of non-zero
    length is installed, no stop is pending, the ticks are off and no
    semaphore count is pending) and for a message with at least one byte
    and a buffer of that many bytes: when a tick samples a NACK in the
    acknowledge slot of the address byte or of a transmitted data byte,
    it closes the slot (SCL low), the next three ticks are the stop
    sequence (SDA low, SCL high, SDA high), the ticks stop and [transfer]
    returns [-EIO]. If the NACK was on the address byte, the transfer is
    never in a data state: no data byte is clocked. *)
Theorem nack_stops_transfer msg stop d env t0 :
  ready d -> wf_msg msg -> nack_at msg stop d env t0 = true ->
  exists d_n d1 d_f,
    state_at msg stop d env t0 = Ok tt d_n /\
    (state_ d_n = ADDRESS \/ state_ d_n = DATA_TX) /\
    state_at msg stop d env (t0 + 1) = Ok tt d1 /\
    log d1 = gpio_clr_log SCL ++ log d_n /\
    waveform (prefix 3 (shift (t0 + 1) env)) d1 =
      [(Gpio.CLR, Gpio.CLR); (Gpio.CLR, Gpio.SET); (Gpio.SET, Gpio.SET)] /\
    state_at msg stop d env (t0 + 4) = Ok tt d_f /\
    tickEnabled d_f = false /\
    log d_f = SemPost :: DisableTick :: stop_log ++ log d1 /\
    (forall k, (t0 + 4 <= k)%nat ->
       returned (transfer msg stop (prefix k env) d) = Some (- EIO)) /\
    (state_ d_n = ADDRESS ->
     forall t d_t, state_at msg stop d env t = Ok tt d_t ->
       state_ d_t <> DATA_TX /\ state_ d_t <> DATA_RX).
Proof.
  intros Hready Hwf Hnack.
  pose proof Hready as (Hstop & Hoff & Hsem & Hcs & Hinst).
  destruct (run_inv msg stop d env Hwf Hsem Hcs t0) as (d_n & Hdn & HIn & _).
  pose proof Hnack as Hev. unfold nack_at in Hev. rewrite Hdn in Hev.
  destruct (nack_tick msg stop (env t0) d_n Hwf HIn Hev)
    as (d1 & Ht & Hst1 & Hu1 & Hrun1 & Hc1 & Hlog1 & Hscl1 & _).
  pose proof (nack_event_inv _ _ Hev) as (Hphase & _ & Hrun_n & _).
  assert (Hd1 : state_at msg stop d env (t0 + 1) = Ok tt d1).
  { replace (t0 + 1)%nat with (S t0) by lia.
    now rewrite state_at_S, Hdn, Hrun_n. }
  destruct (stop_run (env (t0 + 1 + 0)%nat) (env (t0 + 1 + 1)%nat)
              (env (t0 + 1 + 2)%nat) d1 Hst1 Hu1 Hrun1)
    as (d_f & Hf & Hoff_f & Hc_f & Hlog_f & Hwave).
  assert (Hdf : state_at msg stop d env (t0 + 4) = Ok tt d_f).
  { replace (t0 + 4)%nat with ((t0 + 1) + 3)%nat by lia.
    rewrite (state_at_add _ _ _ _ _ _ _ Hd1). exact Hf. }
  exists d_n, d1, d_f.
  split; [assumption|]. split; [assumption|]. split; [assumption|].
  split; [assumption|]. split; [rewrite Hscl1 in Hwave; exact Hwave|].
  split; [assumption|]. split; [assumption|]. split; [assumption|].
  split.
  - intros k Hk. rewrite transfer_ready by assumption.
    destruct (sem_wait_ticks msg stop (prefix k env) _ Hwf
                (inv_armed msg stop d Hsem Hcs)) as (dT & HT & _ & Hw).
    rewrite (ticks_stable (t0 + 4) k env _ d_f Hdf Hoff_f Hk) in HT.
    inversion HT; subst dT. rewrite Hoff_f in Hw.
    destruct Hw as (rest & ->). cbn. now rewrite Hc_f, Hc1.
  - intros Haddr t d_t Hdt.
    destruct (run_inv msg stop d env Hwf Hsem Hcs t) as (d' & Hd' & HI' & Hn').
    rewrite Hdt in Hd'. inversion Hd'; subst d'.
    destruct (le_lt_dec t t0) as [Hle|Hlt].
    + assert (Hmono : (phase (state_ d_t) <= phase (state_ d_n))%nat).
      { replace t0 with (t + (t0 - t))%nat in Hdn by lia.
        rewrite (state_at_add _ _ _ _ _ _ _ Hdt) in Hdn.
        destruct (inv_ticks msg stop (prefix (t0 - t) (shift t env)) d_t
                    Hwf HI') as (d'' & Hr & _ & Hp).
        rewrite Hdn in Hr. now inversion Hr; subst. }
      rewrite Haddr in Hmono. destruct (state_ d_t); cbn in Hmono;
        split; (discriminate || lia).
    + assert (Hneg : count_ d_t < 0).
      { apply Hn'. now apply (nack_before_later _ _ _ _ t0). }
      destruct (inv_negative_stop msg stop d_t Hwf HI' Hneg) as [-> _].
      split; discriminate.
Qed.

(** ** Transmitting a byte *)

Lemma testbit_mask data k :
  0 <= k -> Z.testbit data k = negb (Z.land data (2 ^ k) =? 0).
Proof.
  intros Hk. destruct (Z.testbit data k) eqn:E.
  - destruct (Z.eqb_spec (Z.land data (2 ^ k)) 0) as [H0|]; [|reflexivity].
    assert (Z.testbit (Z.land data (2 ^ k)) k = true).
    { rewrite Z.land_spec, E, Z.pow2_bits_true; auto. }
    rewrite H0, Z.bits_0 in H. discriminate.
  - assert (Z.land data (2 ^ k) = 0) as ->; [|reflexivity].
    apply Z.bits_inj'. intros n Hn. rewrite Z.land_spec, Z.bits_0.
    destruct (Z.eq_dec n k) as [->|].
    + now rewrite E.
    + rewrite Z.pow2_bits_false by auto. apply andb_false_r.
Qed.

Ltac mask_compute :=
  repeat match goal with
  | |- context [Z.land ?data (Z.shiftr ?a ?b)] =>
      let v := eval vm_compute in (Z.shiftr a b) in
      change (Z.shiftr a b) with v
  end.

Lemma state_tx_data_clr bus data d s k :
  union_ d = stateTx_ s -> tx_bit s = Some k ->
  exists d', state_tx bus data d = Ok false d' /\
    union_ d' = stateTx_ (StateTx.incr s) /\
    Gpio.level (sda_ d') = bit_level (Z.testbit data k) /\
    Gpio.level (scl_ d') = Gpio.CLR /\ frame d d'.
Proof.
  intros Hu Hk. destruct d as [sda scl te mo sem c st u stp cs lg].
  cbn in Hu. subst u.
  destruct s; try discriminate; inversion Hk; subst k;
    rewrite testbit_mask by lia;
    exec; mask_compute;
    match goal with |- context [Z.land data ?m =? 0] =>
      change (2 ^ _) with m; destruct (Z.land data m =? 0) end;
    exec; incr_compute; eexists; (split; [reflexivity|]);
    repeat split; reflexivity.
Qed.

Lemma state_tx_data_set bus data d s :
  union_ d = stateTx_ s -> tx_clock_high s = true ->
  exists d', state_tx bus data d = Ok false d' /\
    union_ d' = stateTx_ (StateTx.incr s) /\
    sda_ d' = sda_ d /\ Gpio.level (scl_ d') = Gpio.SET /\ frame d d'.
Proof.
  intros Hu Hk. destruct d as [sda scl te mo sem c st u stp cs lg].
  cbn in Hu. subst u.
  destruct s; try discriminate; exec; incr_compute;
    eexists; (split; [reflexivity|]); repeat split; reflexivity.
Qed.

Ltac tx_pair Hu :=
  let d1 := fresh "d" in let d2 := fresh "d" in
  let E1 := fresh "E" in let E2 := fresh "E" in
  let Hu1 := fresh "Hu" in let Hu2 := fresh "Hu" in
  let Hsda := fresh "Hsda" in let Hscl := fresh "Hscl" in
  let Hsda' := fresh "Hsda" in let Hscl' := fresh "Hscl" in
  match goal with
  | |- context [state_tx ?b ?data ?d] =>
      destruct (state_tx_data_clr b data d _ _ Hu eq_refl)
        as (d1 & E1 & Hu1 & Hsda & Hscl & _);
      rewrite E1, Hsda, Hscl; cbn [tx_waveform at_clock_low];
      match goal with
      | |- context [state_tx ?b' data d1] =>
          destruct (state_tx_data_set b' data d1 _ Hu1 eq_refl)
            as (d2 & E2 & Hu2 & Hsda' & Hscl' & _);
          rewrite E2, Hsda', Hscl'; cbn [tx_waveform at_clock_low];
          clear E1 E2 Hu Hu1; rename Hu2 into Hu
      end
  end.

Lemma tx_bits env data d :
  union_ d = stateTx_ StateTx.FIRST ->
  at_clock_low (tx_waveform (prefix 16 env) data d) = bits_msb_first data.
Proof.
  intros Hu. unfold prefix. cbn [seq map tx_waveform].
  unfold bits_msb_first. cbn [map].
  do 8 (tx_pair Hu; f_equal).
Qed.

Lemma tx_source_frame d d' data :
  frame d d' -> tx_source d data -> tx_source d' data.
Proof.
  intros (Hm & Hc & Hs & _) (m & Hmsg & H). exists m.
  rewrite Hm, Hc, Hs. auto.
Qed.

Lemma tick_tx_not_done bus d data d' :
  tx_source d data -> state_tx bus data d = Ok false d' ->
  tick_interrupt bus d = Ok tt d'.
Proof.
  intros (m & Hm & H) E.
  destruct d as [sda scl te mo sem c st u stp cs lg]. cbn in Hm, H. subst mo.
  destruct H as [[-> ->]|(-> & Hc & Hb)];
    cbv beta iota zeta delta
      [tick_interrupt tick_switch bind gets deref_msg_ load_buf ret
       state_ msg_ count_].
  - now rewrite E.
  - destruct (Z.ltb_spec c 0); [lia|]. rewrite Hb. now rewrite E.
Qed.

Ltac tick_tx_pair Hu Hsrc Hrun :=
  let d1 := fresh "d" in let d2 := fresh "d" in
  let E1 := fresh "E" in let E2 := fresh "E" in
  let Hu1 := fresh "Hu" in let Hu2 := fresh "Hu" in
  let Hsda := fresh "Hsda" in let Hscl := fresh "Hscl" in
  let Hsda' := fresh "Hsda" in let Hscl' := fresh "Hscl" in
  let Hf := fresh "Hf" in let Hf' := fresh "Hf" in
  let Hsrc1 := fresh "Hsrc" in let Hsrc2 := fresh "Hsrc" in
  let Hrun1 := fresh "Hrun" in let Hrun2 := fresh "Hrun" in
  match goal with
  | |- context [tick_interrupt ?b ?d] =>
      match type of Hsrc with tx_source _ ?data =>
      destruct (state_tx_data_clr b data d _ _ Hu eq_refl)
        as (d1 & E1 & Hu1 & Hsda & Hscl & Hf);
      pose proof (tx_source_frame _ _ _ Hf Hsrc) as Hsrc1;
      assert (Hrun1 : tickEnabled d1 = true)
        by (destruct Hf as (_ & _ & _ & -> & _); exact Hrun);
      rewrite Hrun, (tick_tx_not_done b d data d1 Hsrc E1), Hsda, Hscl;
      cbn [waveform at_clock_low];
      match goal with
      | |- context [tick_interrupt ?b' d1] =>
          destruct (state_tx_data_set b' data d1 _ Hu1 eq_refl)
            as (d2 & E2 & Hu2 & Hsda' & Hscl' & Hf');
          pose proof (tx_source_frame _ _ _ Hf' Hsrc1) as Hsrc2;
          assert (Hrun2 : tickEnabled d2 = true)
            by (destruct Hf' as (_ & _ & _ & -> & _); exact Hrun1);
          rewrite Hrun1, (tick_tx_not_done b' d1 data d2 Hsrc1 E2),
            Hsda', Hscl';
          cbn [waveform at_clock_low];
          clear E1 E2 Hu Hu1 Hsrc Hsrc1 Hrun Hrun1 Hf Hf';
          rename Hu2 into Hu; rename Hsrc2 into Hsrc; rename Hrun2 into Hrun
      end end
  end.

(** Every transmitted byte, address or data, goes out most significant
    bit first. *)
Lemma tx_phase_bits env d data :
  tickEnabled d = true -> union_ d = stateTx_ StateTx.FIRST ->
  tx_source d data ->
  at_clock_low (waveform (prefix 16 env) d) = bits_msb_first data.
Proof.
  intros Hrun Hu Hsrc. unfold prefix. cbn [seq map waveform].
  unfold bits_msb_first. cbn [map].
  do 8 (tick_tx_pair Hu Hsrc Hrun; f_equal).
Qed.

(** C5. A transmitted byte is put on SDA most significant bit first: the
    SDA levels of the eight clock-low data steps are bits 7 down to 0 of
    the byte, for [state_tx] itself and for the ticks of the address and
    data-transmit states that call it; 0xA5 gives 1,0,1,0,0,1,0,1. *)
Theorem tx_msb_first env data d :
  union_ d = stateTx_ StateTx.FIRST ->
  at_clock_low (tx_waveform (prefix 16 env) data d) = bits_msb_first data /\
  (tickEnabled d = true -> tx_source d data ->
   at_clock_low (waveform (prefix 16 env) d) = bits_msb_first data) /\
  at_clock_low (tx_waveform (prefix 16 env) 0xA5 d) =
    [Gpio.SET; Gpio.CLR; Gpio.SET; Gpio.CLR;
     Gpio.CLR; Gpio.SET; Gpio.CLR; Gpio.SET].
Proof.
  intros Hu. split; [now apply tx_bits|]. split.
  - intros Hrun Hsrc. now apply tx_phase_bits.
  - now rewrite tx_bits.
Qed.

(** ** The address phase *)

Lemma address_byte_7bit m :
  0 <= addr m < 128 ->
  address_byte m = 2 * addr m + (if is_read m then 1 else 0).
Proof.
  intros H. unfold address_byte. rewrite Z.shiftl_mul_pow2 by lia.
  change (2 ^ 1) with 2. rewrite Z.mod_small by lia.
  destruct (is_read m); [|lia].
  rewrite <- Z.add_nocarry_lor; [lia|].
  change 1 with (Z.ones 1). rewrite Z.land_ones by lia.
  change (2 ^ 1) with 2. apply Z.mod_mul. lia.
Qed.

Lemma tick_position_START msg stop bus d :
  wf_msg msg -> Inv msg stop d -> tickEnabled d = true -> state_ d = START ->
  exists d', tick_interrupt bus d = Ok tt d' /\
    match union_ d with
    | stateStart_ StateStart.SDA_CLR =>
        state_ d' = ADDRESS /\ union_ d' = stateTx_ StateTx.FIRST
    | stateStart_ s =>
        state_ d' = START /\ union_ d' = stateStart_ (StateStart.incr s)
    | _ => False
    end.
Proof.
  setup Hst.
  destruct HI as (_ & -> & -> & -> & ->).
  destruct s; run_tick; eexists; (split; [reflexivity|]); cbn; auto.
Qed.

Lemma tick_position_ADDRESS msg stop bus d :
  wf_msg msg -> Inv msg stop d -> tickEnabled d = true ->
  state_ d = ADDRESS ->
  exists d', tick_interrupt bus d = Ok tt d' /\
    match union_ d with
    | stateTx_ s =>
        state_ d' = ADDRESS ->
        exists s', union_ d' = stateTx_ s' /\
                   StateTx.to_Z s' = Z.min (StateTx.to_Z s + 1) 18
    | _ => False
    end.
Proof.
  setup Hst.
  destruct HI as (_ & -> & -> & -> & Hcs).
  destruct s; destruct cs; try (specialize (Hcs eq_refl); discriminate);
    clear Hcs; run_tick; eexists; (split; [reflexivity|]); cbn;
    intros; try discriminate; eexists; split; reflexivity.
Qed.

(** Where the transfer is at tick [t], as long as it has not left the
    address phase: the start condition takes the first three ticks, and
    the address phase walks once through the steps of the transmit
    sub-machine and then stays on its last step. *)
Lemma address_phase_position msg stop d0 env :
  wf_msg msg -> sem_ d0 = 0%nat -> clockStretchActive_ d0 = false ->
  forall t, exists d,
    state_at msg stop d0 env t = Ok tt d /\ Inv msg stop d /\
    match state_ d with
    | START =>
        (t < 3)%nat /\
        union_ d = stateStart_ (StateStart.of_Z (Z.of_nat t))
    | ADDRESS =>
        (3 <= t)%nat /\
        exists s, union_ d = stateTx_ s /\
                  StateTx.to_Z s = Z.min (Z.of_nat t - 3) 18
    | _ => True
    end.
Proof.
  intros Hwf Hs Hc. induction t as [|t (d & Hd & HI & Hpos)].
  - exists (armed msg stop d0). split; [reflexivity|].
    split; [now apply inv_armed|]. cbn. split; [lia|reflexivity].
  - rewrite state_at_S, Hd.
    destruct (tickEnabled d) eqn:Hrun.
    + destruct (state_ d) eqn:Hst.
      * destruct (tick_position_START msg stop (env t) d Hwf HI Hrun Hst)
          as (d' & Ht & Hn).
        destruct (tick_step msg stop (env t) d Hwf HI Hrun)
          as (d'' & Ht' & HI' & _).
        rewrite Ht in Ht'. inversion Ht'; subst d''.
        exists d'. split; [assumption|]. split; [assumption|].
        destruct Hpos as [Hlt Hu]. rewrite Hu in Hn.
        assert (t = 0 \/ t = 1 \/ t = 2)%nat as [->|[->| ->]] by lia;
          cbn in Hn; destruct Hn as [-> ->]; cbn; split; try lia; eauto.
      * destruct (tick_position_ADDRESS msg stop (env t) d Hwf HI Hrun Hst)
          as (d' & Ht & Hn).
        destruct (tick_step msg stop (env t) d Hwf HI Hrun)
          as (d'' & Ht' & HI' & _ & _ & _ & Hp & _).
        rewrite Ht in Ht'. inversion Ht'; subst d''.
        exists d'. split; [assumption|]. split; [assumption|].
        destruct Hpos as (Hle & s & Hu & Hz). rewrite Hu in Hn.
        rewrite Hst in Hp.
        destruct (state_ d') eqn:Hst'; cbn in Hp; try lia; try exact I.
        destruct (Hn eq_refl) as (s' & Hu' & Hz').
        split; [lia|]. exists s'. split; [assumption|]. lia.
      * destruct (tick_step msg stop (env t) d Hwf HI Hrun)
          as (d' & Ht & HI' & _ & _ & _ & Hp & _).
        exists d'. split; [assumption|]. split; [assumption|].
        rewrite Hst in Hp. destruct (state_ d'); cbn in Hp; try lia; exact I.
      * destruct (tick_step msg stop (env t) d Hwf HI Hrun)
          as (d' & Ht & HI' & _ & _ & _ & Hp & _).
        exists d'. split; [assumption|]. split; [assumption|].
        rewrite Hst in Hp. destruct (state_ d'); cbn in Hp; try lia; exact I.
      * destruct (tick_step msg stop (env t) d Hwf HI Hrun)
          as (d' & Ht & HI' & _ & _ & _ & Hp & _).
        exists d'. split; [assumption|]. split; [assumption|].
        rewrite Hst in Hp. destruct (state_ d'); cbn in Hp; try lia; exact I.
    + exists d. split; [reflexivity|]. split; [assumption|].
      destruct HI as [_ HI]. rewrite Hrun in HI.
      destruct (state_ d), (union_ d); try contradiction;
        try exact I; intuition discriminate.
Qed.

(** C6. The address phase sends one byte: the 7-bit address shifted left
    by one with bit 0 set for a read and clear for a write. The three
    ticks of the start condition are followed by the sixteen data ticks
    that put this byte on SDA, most significant bit first, and the
    address phase goes once through the steps of the transmit
    sub-machine, never back. *)
Theorem address_phase_sends_address msg stop d0 env :
  wf_msg msg -> sem_ d0 = 0%nat -> clockStretchActive_ d0 = false ->
  0 <= addr msg < 128 ->
  address_byte msg = 2 * addr msg + (if is_read msg then 1 else 0) /\
  (exists d3, state_at msg stop d0 env 3 = Ok tt d3 /\
     state_ d3 = ADDRESS /\ union_ d3 = stateTx_ StateTx.FIRST /\
     at_clock_low (waveform (prefix 16 (shift 3 env)) d3) =
       bits_msb_first (address_byte msg)) /\
  (forall t d, state_at msg stop d0 env t = Ok tt d -> state_ d = ADDRESS ->
     (3 <= t)%nat /\
     exists s, union_ d = stateTx_ s /\
               StateTx.to_Z s = Z.min (Z.of_nat t - 3) 18).
Proof.
  intros Hwf Hs Hc Haddr. split; [now apply address_byte_7bit|]. split.
  - destruct d0 as [sda scl te mo sem c st u stp cs lg].
    eexists. split.
    { unfold state_at, prefix, armed. cbn [seq map]. exec_run. reflexivity. }
    split; [reflexivity|].
    split; [reflexivity|].
    apply tx_phase_bits; [reflexivity|reflexivity|].
    exists msg. split; [reflexivity|]. left. split; reflexivity.
  - intros t d Hd Hst.
    destruct (address_phase_position msg stop d0 env Hwf Hs Hc t)
      as (d' & Hd' & _ & Hpos).
    rewrite Hd in Hd'. inversion Hd'; subst d'. now rewrite Hst in Hpos.
Qed.

(** ** Receiving a byte *)

Lemma shift_in_eq v b : shift_in v b = (2 * v + bit_val b) mod 256.
Proof.
  unfold shift_in. rewrite Z.shiftl_mul_pow2 by lia. change (2 ^ 1) with 2.
  replace (v * 2) with (2 * v) by lia.
  assert (Hev : (2 * v) mod 256 = 2 * (v mod 128)).
  { change 256 with (2 * 128). rewrite Z.mul_mod_distr_l by lia. reflexivity. }
  pose proof (Z.mod_pos_bound v 128 ltac:(lia)) as Hr.
  pose proof (Z.div_mod v 128 ltac:(lia)) as Hdiv.
  destruct b; cbn [bit_val].
  - rewrite Z.add_0_r. reflexivity.
  - rewrite Hev. rewrite <- Z.add_nocarry_lor.
    + replace (2 * v + 1)
        with ((2 * (v mod 128) + 1) + Z.div v 128 * 256) by lia.
      rewrite Z.mod_add by lia.
      rewrite (Z.mod_small (2 * (v mod 128) + 1)) by lia. reflexivity.
    + change 1 with (Z.ones 1). rewrite Z.land_ones by lia.
      change (2 ^ 1) with 2. rewrite Z.mul_comm. apply Z.mod_mul. lia.
Qed.

Lemma shift_in_cong bits : forall x y,
  x mod 256 = y mod 256 ->
  fold_left (fun acc b => 2 * acc + bit_val b) bits x mod 256 =
  fold_left (fun acc b => 2 * acc + bit_val b) bits y mod 256.
Proof.
  induction bits as [|b bits IH]; intros x y H; cbn [fold_left]; [exact H|].
  apply IH.
  rewrite <- (Z.add_mod_idemp_l (2 * x)), <- (Z.add_mod_idemp_l (2 * y))
    by lia.
  rewrite <- (Z.mul_mod_idemp_r 2 x), <- (Z.mul_mod_idemp_r 2 y) by lia.
  now rewrite H.
Qed.

Lemma shift_in_fold bits : forall v,
  fold_left shift_in bits v mod 256 =
  fold_left (fun acc b => 2 * acc + bit_val b) bits v mod 256.
Proof.
  induction bits as [|b bits IH]; intros v; cbn [fold_left]; [reflexivity|].
  rewrite IH, shift_in_eq. apply shift_in_cong.
  now rewrite Z.mod_mod by lia.
Qed.

Lemma shift_in_range v b : 0 <= shift_in v b < 256.
Proof. rewrite shift_in_eq. apply Z.mod_pos_bound. lia. Qed.

(** Eight bits shifted in give the byte they spell, whatever the byte
    held before. *)
Lemma shift_in_byte v bits :
  length bits = 8%nat -> fold_left shift_in bits v = byte_of_bits bits.
Proof.
  intros Hlen.
  assert (Hr : 0 <= fold_left shift_in bits v < 256).
  { destruct bits as [|b bits _] using rev_ind; [discriminate|].
    rewrite fold_left_app. cbn. apply shift_in_range. }
  rewrite <- (Z.mod_small _ 256 Hr), shift_in_fold.
  do 8 (destruct bits as [|? bits]; [discriminate|]).
  destruct bits; [|discriminate]. clear Hlen Hr.
  unfold byte_of_bits. cbn [fold_left].
  match goal with |- ?l mod 256 = ?r =>
    replace l with (r + v * 256) by ring end.
  rewrite Z.mod_add by lia. apply Z.mod_small.
  repeat match goal with b : Gpio.Value |- _ => destruct b end; cbn; lia.
Qed.

Lemma set_clockStretchActive__id d :
  clockStretchActive_ d = false -> set_clockStretchActive_ false d = d.
Proof. destruct d; cbn; now intros ->. Qed.

Lemma ticks_stalled msg stop l : forall d,
  wf_msg msg -> Inv msg stop d -> tickEnabled d = true ->
  stretch_step d = true -> stalled (clockStretchActive_ d) l = true ->
  ticks l d = Ok tt (set_clockStretchActive_ false d).
Proof.
  induction l as [|b l IH]; intros d Hwf HI Hrun Hstep Hst; cbn in Hst.
  - cbn. rewrite set_clockStretchActive__id; [reflexivity|].
    now destruct (clockStretchActive_ d).
  - cbn [ticks]. rewrite Hrun. destruct (scl_line b) eqn:Hb.
    + destruct (tick_scl_low msg stop b d Hwf HI Hrun Hstep Hb) as [-> HI1].
      rewrite (IH (set_clockStretchActive_ true d) Hwf HI1 Hrun Hstep Hst).
      now destruct d.
    + apply andb_true_iff in Hst as [Hcs Hst].
      destruct (tick_step msg stop b d Hwf HI Hrun) as (d1 & Ht & HI1 & _).
      rewrite (tick_scl_high_again msg stop b d Hwf HI Hrun Hstep Hcs Hb)
        in Ht.
      inversion Ht; subst d1.
      rewrite (tick_scl_high_again msg stop b d Hwf HI Hrun Hstep Hcs Hb).
      rewrite (IH (set_clockStretchActive_ false d) Hwf HI1 Hrun Hstep Hst).
      now destruct d.
Qed.

(** A clock-high step of the receive sub-machine. *)
Lemma rx_set_tick bus d s m :
  state_ d = DATA_RX -> union_ d = stateRx_ s -> rx_clock_high s = true ->
  msg_ d = Some m ->
  exists d', tick_interrupt bus d = Ok tt d' /\
    union_ d' = stateRx_ (StateRx.incr s) /\ state_ d' = DATA_RX /\
    msg_ d' = msg_ d /\ count_ d' = count_ d /\
    tickEnabled d' = tickEnabled d /\
    clockStretchActive_ d' = clockStretchActive_ d.
Proof.
  intros Hst Hu Hs Hm.
  destruct d as [sda scl te mo sem c st u stp cs lg]. cbn in *. subst.
  destruct s; try discriminate; exec; incr_compute;
    eexists; (split; [reflexivity|]); repeat split; reflexivity.
Qed.

(** A sampling step of the receive sub-machine when SCL reads high and no
    stretch is pending: the sampled bit is shifted into the byte. *)
Lemma rx_clr_tick b d s a f ln l0 v :
  state_ d = DATA_RX -> union_ d = stateRx_ s -> rx_data_clr s = true ->
  clockStretchActive_ d = false -> 0 <= count_ d ->
  (Z.to_nat (count_ d) < length l0)%nat ->
  msg_ d = Some (mk_msg a f ln (<[Z.to_nat (count_ d) := v]> l0)) ->
  exists d', tick_interrupt (mk_bus Gpio.SET b) d = Ok tt d' /\
    union_ d' = stateRx_ (StateRx.incr s) /\ state_ d' = DATA_RX /\
    count_ d' = count_ d /\ tickEnabled d' = tickEnabled d /\
    msg_ d' =
      Some (mk_msg a f ln (<[Z.to_nat (count_ d) := shift_in v b]> l0)).
Proof.
  intros Hst Hu Hs Hcs Hc Hn Hm.
  destruct d as [sda scl te mo sem c st u stp cs lg]. cbn in *. subst.
  assert (Hlk : forall x, <[Z.to_nat c := x]> l0 !! Z.to_nat c = Some x)
    by (intros; now apply list_lookup_insert_eq).
  assert (Hlt0 : (c <? 0) = false) by (apply Z.ltb_ge; lia).
  assert (Hlen : (Z.of_nat (length l0) <=? c) = false)
    by (apply Z.leb_gt; lia).
  destruct s; try discriminate; destruct b;
    repeat (exec; incr_compute;
            rewrite ?Hlt0, ?Hlen, ?Hlk, ?list_insert_insert_eq,
              ?length_insert;
            cbn [orb negb];
            try match goal with
                | |- context [if negb (?x <=? ?y) then _ else _] =>
                    destruct (x <=? y)
                end);
    eexists; (split; [reflexivity|]); repeat split; reflexivity.
Qed.

Lemma rx_clock_high_next s :
  rx_clock_high s = true ->
  rx_data_clr (StateRx.incr s) = true /\
  rx_checks_scl (StateRx.incr s) = true /\ rx_checks_scl s = false /\
  StateRx.to_Z (StateRx.incr (StateRx.incr s)) = StateRx.to_Z s + 2.
Proof. destruct s; try discriminate; intros _; repeat split. Qed.

Lemma rx_clock_high_even s j :
  StateRx.to_Z s = 2 * j -> 0 <= j < 8 -> rx_clock_high s = true.
Proof. destruct s; cbn; intros; try reflexivity; lia. Qed.

Lemma inv_rx_no_stretch msg stop d s :
  Inv msg stop d -> tickEnabled d = true -> state_ d = DATA_RX ->
  union_ d = stateRx_ s -> rx_checks_scl s = false ->
  clockStretchActive_ d = false /\ 0 <= count_ d < len msg.
Proof.
  intros [_ HI] Hrun Hst Hu Hs. rewrite Hst, Hu in HI.
  destruct HI as (_ & _ & [(_ & _ & Hc & Hcs & _)|(E & _)]); [|congruence].
  split; [|assumption].
  destruct (clockStretchActive_ d); [|reflexivity].
  specialize (Hcs eq_refl). congruence.
Qed.

(** One bit of a received byte, clock stretching included. *)
Lemma rx_bit_step msg stop d s r a f ln l0 v :
  wf_msg msg -> Inv msg stop d -> tickEnabled d = true ->
  state_ d = DATA_RX -> union_ d = stateRx_ s -> rx_clock_high s = true ->
  stalled false (stall r) = true ->
  (Z.to_nat (count_ d) < length l0)%nat ->
  msg_ d = Some (mk_msg a f ln (<[Z.to_nat (count_ d) := v]> l0)) ->
  exists d', ticks (rx_bit_ticks r) d = Ok tt d' /\
    Inv msg stop d' /\ tickEnabled d' = true /\ state_ d' = DATA_RX /\
    union_ d' = stateRx_ (StateRx.incr (StateRx.incr s)) /\
    count_ d' = count_ d /\
    msg_ d' =
      Some (mk_msg a f ln
              (<[Z.to_nat (count_ d) := shift_in v (bit r)]> l0)).
Proof.
  intros Hwf HI Hrun Hst Hu Hs Hstall Hn Hm.
  destruct (rx_clock_high_next s Hs) as (Hclr & Hchk & Hnochk & _).
  destruct (inv_rx_no_stretch msg stop d s HI Hrun Hst Hu Hnochk)
    as [Hcs Hc].
  destruct (rx_set_tick (pre r) d s _ Hst Hu Hs Hm)
    as (d1 & Ht1 & Hu1 & Hst1 & Hm1 & Hc1 & Hrun1 & Hcs1).
  destruct (tick_step msg stop (pre r) d Hwf HI Hrun) as (d1' & Ht1' & HI1 & _).
  rewrite Ht1 in Ht1'. inversion Ht1'; subst d1'. clear Ht1'.
  rewrite Hrun in Hrun1. rewrite Hcs in Hcs1. rewrite Hm in Hm1.
  rewrite <- Hc1 in Hm1, Hn.
  assert (Hstep1 : stretch_step d1 = true).
  { unfold stretch_step. now rewrite Hst1, Hu1. }
  assert (Hs1 : ticks (stall r) d1 = Ok tt d1).
  { rewrite (ticks_stalled msg stop (stall r) d1 Hwf HI1 Hrun1 Hstep1)
      by (now rewrite Hcs1).
    now rewrite set_clockStretchActive__id. }
  destruct (rx_clr_tick (bit r) d1 _ a f ln l0 v Hst1 Hu1 Hclr Hcs1
              ltac:(lia) Hn Hm1)
    as (d2 & Ht2 & Hu2 & Hst2 & Hc2 & Hrun2 & Hm2).
  destruct (tick_step msg stop (mk_bus Gpio.SET (bit r)) d1 Hwf HI1 Hrun1)
    as (d2' & Ht2' & HI2 & _).
  rewrite Ht2 in Ht2'. inversion Ht2'; subst d2'. clear Ht2'.
  exists d2. split.
  { unfold rx_bit_ticks. change (pre r :: stall r ++ [mk_bus Gpio.SET (bit r)])
      with ([pre r] ++ stall r ++ [mk_bus Gpio.SET (bit r)]).
    rewrite ticks_app. cbn [ticks]. rewrite Hrun, Ht1. cbv beta iota.
    rewrite ticks_app, Hs1. cbn [ticks]. rewrite Hrun1, Ht2. reflexivity. }
  split; [assumption|]. split; [congruence|]. split; [assumption|].
  split; [assumption|]. split; [congruence|]. now rewrite <- Hc1.
Qed.

(** The remaining bits of a byte, from any clock-high data step on. *)
Lemma rx_bits_run msg stop a f ln l0 rs : forall d s v,
  wf_msg msg -> Inv msg stop d -> tickEnabled d = true ->
  state_ d = DATA_RX -> union_ d = stateRx_ s ->
  StateRx.to_Z s = 2 * (8 - Z.of_nat (length rs)) ->
  (length rs <= 8)%nat ->
  Forall (fun r => stalled false (stall r) = true) rs ->
  (Z.to_nat (count_ d) < length l0)%nat ->
  msg_ d = Some (mk_msg a f ln (<[Z.to_nat (count_ d) := v]> l0)) ->
  exists d' s', ticks (concat (map rx_bit_ticks rs)) d = Ok tt d' /\
    Inv msg stop d' /\ tickEnabled d' = true /\ state_ d' = DATA_RX /\
    union_ d' = stateRx_ s' /\ StateRx.to_Z s' = 16 /\
    count_ d' = count_ d /\
    msg_ d' =
      Some (mk_msg a f ln
              (<[Z.to_nat (count_ d) := fold_left shift_in (map bit rs) v]>
                 l0)).
Proof.
  induction rs as [|r rs IH];
    intros d s v Hwf HI Hrun Hst Hu Hpos Hlen Hall Hn Hm.
  - exists d, s. cbn [length] in Hpos. cbn [map concat fold_left ticks].
    split; [reflexivity|]. split; [assumption|]. split; [assumption|].
    split; [assumption|]. split; [assumption|]. split; [lia|].
    split; [reflexivity|assumption].
  - inversion Hall as [|? ? Hr Hrest]; subst. cbn [length] in Hpos, Hlen.
    assert (Hs : rx_clock_high s = true).
    { apply (rx_clock_high_even s (8 - Z.of_nat (S (length rs)))); lia. }
    destruct (rx_bit_step msg stop d s r a f ln l0 v Hwf HI Hrun Hst Hu Hs Hr
                Hn Hm) as (d1 & Ht1 & HI1 & Hrun1 & Hst1 & Hu1 & Hc1 & Hm1).
    destruct (rx_clock_high_next s Hs) as (_ & _ & _ & Hz).
    rewrite <- Hc1 in Hm1, Hn.
    destruct (IH d1 _ (shift_in v (bit r)) Hwf HI1 Hrun1 Hst1 Hu1
                ltac:(lia) ltac:(lia) Hrest Hn Hm1)
      as (d' & s' & Ht & HI' & Hrun' & Hst' & Hu' & Hz' & Hc' & Hm').
    exists d', s'. split.
    { cbn [map concat]. now rewrite ticks_app, Ht1. }
    rewrite Hc1 in Hc', Hm'.
    split; [assumption|]. split; [assumption|]. split; [assumption|].
    split; [assumption|]. split; [assumption|]. split; assumption.
Qed.

Lemma inv_rx_ack_slot msg stop d s :
  Inv msg stop d -> tickEnabled d = true -> state_ d = DATA_RX ->
  union_ d = stateRx_ s ->
  s = StateRx.ACK_SDA_SCL_SET \/ s = StateRx.ACK_SCL_CLR ->
  Gpio.level (sda_ d) =
  if len msg <=? count_ d + 1 then Gpio.SET else Gpio.CLR.
Proof.
  intros [_ HI] Hrun Hst Hu Hs. rewrite Hst, Hu in HI.
  destruct HI as (_ & _ & [(_ & _ & _ & _ & Hsda)|(E & _)]); [|congruence].
  destruct Hs as [-> | ->]; exact Hsda.
Qed.

Lemma inv_finished_stop msg d :
  Inv msg true d -> tickEnabled d = false ->
  state_ d = STOP /\ stop_done d.
Proof.
  intros [_ HI] Hoff.
  destruct (state_ d), (union_ d); try contradiction;
    intuition congruence.
Qed.

Lemma inv_msg msg stop d :
  wf_msg msg -> Inv msg stop d -> state_ d = DATA_RX ->
  tickEnabled d = true ->
  exists m, msg_ d = Some m /\
            (Z.to_nat (count_ d) < length (buf m))%nat.
Proof.
  intros [H1 H2] [(m & Hm & (_ & _ & _ & Hb) & _) HI] Hst Hrun.
  exists m. split; [assumption|]. rewrite Hst in HI.
  destruct (union_ d); try contradiction.
  destruct HI as (_ & _ & [(_ & _ & Hc & _)|(E & _)]); [|congruence].
  rewrite Hb. lia.
Qed.

(** C8. In a read of [len msg] bytes with a stop requested and no NACK on
    the address, the master holds SDA low (ACK) through the acknowledge
    slot of every byte but the last and leaves it released (NACK) through
    that of the last byte; the transfer ends with the stop sequence, both
    lines high, all bytes counted; and the eight SDA levels sampled for a
    byte, however the slave stretches the clock, are stored as its bits,
    first sample most significant. *)
Theorem read_acks_then_stops msg d env :
  ready d -> wf_msg msg -> is_read msg = true -> fair env ->
  (forall t, nack_at msg true d env t = false) ->
  (forall t d_t s,
     state_at msg true d env t = Ok tt d_t -> state_ d_t = DATA_RX ->
     union_ d_t = stateRx_ s ->
     s = StateRx.ACK_SDA_SCL_SET \/ s = StateRx.ACK_SCL_CLR ->
     Gpio.level (sda_ d_t) =
     if len msg <=? count_ d_t + 1 then Gpio.SET else Gpio.CLR) /\
  (exists T d_T,
     state_at msg true d env T = Ok tt d_T /\ tickEnabled d_T = false /\
     count_ d_T = len msg /\ state_ d_T = STOP /\ stop_done d_T /\
     forall k, (T <= k)%nat ->
       returned (transfer msg true (prefix k env) d) = Some (len msg)) /\
  (forall t d_t rs,
     state_at msg true d env t = Ok tt d_t -> state_ d_t = DATA_RX ->
     union_ d_t = stateRx_ StateRx.FIRST -> length rs = 8%nat ->
     Forall (fun r => stalled false (stall r) = true) rs ->
     exists d' m,
       msg_ d_t = Some m /\
       ticks (concat (map rx_bit_ticks rs)) d_t = Ok tt d' /\
       state_ d' = DATA_RX /\
       union_ d' = stateRx_ StateRx.ACK_SDA_SCL_SET /\
       count_ d' = count_ d_t /\
       msg_ d' =
         Some (mk_msg (addr m) (flags m) (len m)
                 (<[Z.to_nat (count_ d_t) := byte_of_bits (map bit rs)]>
                    (buf m)))).
Proof.
  intros Hready Hwf Hrd Hfair Hnack.
  pose proof Hready as (Hstop & Hoff & Hsem & Hcs & Hinst).
  assert (Hstate : forall t d_t,
            state_at msg true d env t = Ok tt d_t -> Inv msg true d_t).
  { intros t d_t Hd.
    destruct (run_inv msg true d env Hwf Hsem Hcs t) as (d' & Hd' & HI & _).
    rewrite Hd in Hd'. now inversion Hd'; subst. }
  assert (Hrunning : forall d_t,
            Inv msg true d_t -> state_ d_t = DATA_RX -> tickEnabled d_t = true).
  { intros d_t [_ HI] Hst. rewrite Hst in HI.
    destruct (union_ d_t); try contradiction.
    destruct HI as (_ & _ & [(E & _)|(_ & _ & _ & E & _)]);
      [assumption|discriminate]. }
  split; [|split].
  - intros t d_t s Hd Hst Hu Hs. pose proof (Hstate t d_t Hd) as HI.
    now apply (inv_rx_ack_slot msg true d_t s HI (Hrunning d_t HI Hst)).
  - destruct (transfer_completes msg true d env Hwf Hsem Hcs Hfair)
      as (T & dT & HT & HI & HoffT & Hcnt & Hwait).
    rewrite (nack_before_false msg true d env T Hnack) in Hcnt.
    assert (Hlen : count_ dT = len msg).
    { destruct (inv_finished_count msg true dT HI HoffT) as [E|E];
        [assumption|].
      assert (count_ dT < 0) by (rewrite E; unfold EIO; lia).
      apply Hcnt in H. discriminate. }
    destruct (inv_finished_stop msg dT HI HoffT) as [Hst Hdone].
    exists T, dT. repeat (split; [assumption|]).
    intros k Hk. rewrite transfer_ready by assumption.
    destruct (Hwait k Hk) as (rest & ->). cbn. now rewrite Hlen.
  - intros t d_t rs Hd Hst Hu Hlen Hall.
    pose proof (Hstate t d_t Hd) as HI.
    pose proof (Hrunning d_t HI Hst) as Hrun.
    destruct (inv_msg msg true d_t Hwf HI Hst Hrun) as (m & Hm & Hn).
    destruct (lookup_lt_is_Some_2 (buf m) _ Hn) as (v & Hv).
    assert (Hm' : msg_ d_t =
              Some (mk_msg (addr m) (flags m) (len m)
                      (<[Z.to_nat (count_ d_t) := v]> (buf m)))).
    { rewrite Hm, (list_insert_id _ _ _ Hv). now destruct m. }
    destruct (rx_bits_run msg true (addr m) (flags m) (len m) (buf m) rs
                d_t StateRx.FIRST v Hwf HI Hrun Hst Hu
                ltac:(rewrite Hlen; reflexivity) ltac:(lia) Hall Hn Hm')
      as (d' & s' & Ht & _ & _ & Hst' & Hu' & Hz & Hc & Hmsg).
    exists d', m. split; [assumption|]. split; [assumption|].
    split; [assumption|]. split.
    { rewrite Hu'. destruct s'; cbn in Hz; try lia. reflexivity. }
    split; [assumption|].
    rewrite Hmsg, shift_in_byte; [reflexivity|].
    now rewrite length_map.
Qed.

(** ** The length check of [transfer] *)

(** C2 (fails on the code). [transfer] tests the length of the message
    that is already installed, not of the one it is given. On a driver
    that holds a one-byte message, a zero-length message is armed, clocked
    on the bus and counted as one byte; after that a proper two-byte
    message is refused with [-EINVAL]; and on a freshly constructed driver,
    where no message is installed yet, the test dereferences the null
    pointer. *)
Theorem zero_length_not_rejected :
  (exists d' rest,
     transfer zero_length true (replicate 50 ack_bus) idle_driver =
       Done 1 d' rest /\
     msg_ d' = Some zero_length /\ length (log d') = 129%nat /\
     returned (transfer write2 true rest d') = Some (- EINVAL)) /\
  (exists d0,
     BitBangI2C_new released released true = Ok tt d0 /\
     transfer write2 true (replicate 50 ack_bus) d0 = Faulted).
Proof.
  split.
  - do 2 eexists. split; [vm_compute; reflexivity|].
    split; [reflexivity|]. split; reflexivity.
  - eexists. split; [vm_compute; reflexivity|]. vm_compute. reflexivity.
Qed.

(** * The theorems on a concrete bus *)

Lemma ready_idle_driver : ready idle_driver.
Proof.
  unfold ready. cbn. repeat split. eexists. split; [reflexivity|].
  cbn. discriminate.
Defined.

Lemma wf_write2 : wf_msg write2.
Proof. unfold wf_msg. cbn. lia. Defined.

Lemma wf_read3 : wf_msg read3.
Proof. unfold wf_msg. cbn. lia. Defined.

Lemma fair_always bus : scl_line bus = Gpio.SET -> fair (always bus).
Proof. intros H t. exists t. unfold always. auto. Defined.

Lemma nack_at_acked msg stop d env :
  (forall t, sda_line (env t) = Gpio.CLR) ->
  forall t, nack_at msg stop d env t = false.
Proof.
  intros H t. unfold nack_at.
  destruct (state_at msg stop d env t) as [[] d'|]; [|reflexivity].
  unfold nack_event. rewrite H.
  destruct (state_ d'), (union_ d') as [| |[]|]; try reflexivity;
    apply andb_false_r.
Defined.

Lemma transfer_returns_length_witness :
  ready idle_driver /\ wf_msg write2 /\ fair (always ack_bus) /\
  (forall t, nack_at write2 true idle_driver (always ack_bus) t = false) /\
  exists n, forall k, (n <= k)%nat ->
    returned (transfer write2 true (prefix k (always ack_bus)) idle_driver) =
    Some (len write2).
Proof.
  pose proof ready_idle_driver as H1. pose proof wf_write2 as H2.
  pose proof (fair_always ack_bus eq_refl) as H3.
  pose proof (nack_at_acked write2 true idle_driver (always ack_bus)
                (fun _ => eq_refl)) as H4.
  split; [exact H1|]. split; [exact H2|]. split; [exact H3|].
  split; [exact H4|].
  exact (transfer_returns_length write2 true idle_driver (always ack_bus)
           H1 H2 H3 H4).
Defined.

Lemma count_invariant_witness :
  wf_msg write2 /\ sem_ idle_driver = 0%nat /\
  clockStretchActive_ idle_driver = false /\
  exists d, state_at write2 true idle_driver (always nack_bus) 30 = Ok tt d /\
    (count_ d < 0 <->
     nack_before write2 true idle_driver (always nack_bus) 30 = true) /\
    count_ d <= len write2.
Proof.
  split; [exact wf_write2|]. split; [reflexivity|]. split; [reflexivity|].
  exact (count_invariant write2 true idle_driver (always nack_bus) 30
           wf_write2 eq_refl eq_refl).
Defined.

Lemma nack_stops_transfer_witness :
  ready idle_driver /\ wf_msg write2 /\
  nack_at write2 true idle_driver (always nack_bus) 21 = true /\
  (forall k, (25 <= k)%nat ->
     returned (transfer write2 true (prefix k (always nack_bus)) idle_driver)
     = Some (- EIO)) /\
  (forall t d_t,
     state_at write2 true idle_driver (always nack_bus) t = Ok tt d_t ->
     state_ d_t <> DATA_TX /\ state_ d_t <> DATA_RX).
Proof.
  split; [exact ready_idle_driver|]. split; [exact wf_write2|].
  split; [reflexivity|].
  destruct (nack_stops_transfer write2 true idle_driver (always nack_bus) 21
              ready_idle_driver wf_write2 eq_refl)
    as (d_n & d1 & d_f & Hn & _ & _ & _ & _ & _ & _ & _ & Hret & Hnodata).
  split; [exact Hret|].
  apply Hnodata.
  vm_compute in Hn. inversion Hn. reflexivity.
Defined.

Lemma tx_msb_first_witness :
  union_ (set_union_ (stateTx_ StateTx.FIRST) idle_driver) =
    stateTx_ StateTx.FIRST /\
  at_clock_low
    (tx_waveform (prefix 16 (always ack_bus)) 0x3C
       (set_union_ (stateTx_ StateTx.FIRST) idle_driver)) =
  [Gpio.CLR; Gpio.CLR; Gpio.SET; Gpio.SET;
   Gpio.SET; Gpio.SET; Gpio.CLR; Gpio.CLR].
Proof.
  split; [reflexivity|].
  exact (proj1 (tx_msb_first (always ack_bus) 0x3C
                  (set_union_ (stateTx_ StateTx.FIRST) idle_driver) eq_refl)).
Defined.

Lemma address_phase_sends_address_witness :
  wf_msg read3 /\ sem_ idle_driver = 0%nat /\
  clockStretchActive_ idle_driver = false /\ 0 <= addr read3 < 128 /\
  address_byte read3 = 0xA1.
Proof.
  split; [exact wf_read3|]. split; [reflexivity|]. split; [reflexivity|].
  assert (H : 0 <= addr read3 < 128) by (cbn; lia).
  split; [exact H|].
  exact (proj1 (address_phase_sends_address read3 true idle_driver
                  (always ack_bus) wf_read3 eq_refl eq_refl H)).
Defined.

Lemma in_transfer_at_address_ack : in_transfer write2 true at_address_ack.
Proof.
  exists idle_driver, (replicate 21 ack_bus).
  split; [reflexivity|]. split; [reflexivity|]. vm_compute. reflexivity.
Defined.

Lemma clock_stretch_repeats_witness :
  wf_msg write2 /\ in_transfer write2 true at_address_ack /\
  tickEnabled at_address_ack = true /\ stretch_step at_address_ack = true /\
  ticks [mk_bus Gpio.CLR Gpio.SET; mk_bus Gpio.CLR Gpio.SET;
         mk_bus Gpio.SET Gpio.SET] at_address_ack = Ok tt at_address_ack.
Proof.
  split; [exact wf_write2|]. split; [exact in_transfer_at_address_ack|].
  split; [reflexivity|]. split; [reflexivity|].
  destruct (clock_stretch_repeats write2 true at_address_ack wf_write2
              in_transfer_at_address_ack eq_refl eq_refl) as (_ & _ & H).
  refine (proj1 (proj2 (H [mk_bus Gpio.CLR Gpio.SET; mk_bus Gpio.CLR Gpio.SET]
                          (mk_bus Gpio.SET Gpio.SET) ack_bus
                          eq_refl _ _ eq_refl))).
  - discriminate.
  - repeat constructor.
Defined.

Lemma is_read_read3 : is_read read3 = true.
Proof. reflexivity. Defined.

Lemma read_acks_then_stops_witness :
  ready idle_driver /\ wf_msg read3 /\ is_read read3 = true /\
  fair (always ack_bus) /\
  (forall t, nack_at read3 true idle_driver (always ack_bus) t = false) /\
  exists T d_T,
    state_at read3 true idle_driver (always ack_bus) T = Ok tt d_T /\
    tickEnabled d_T = false /\ count_ d_T = len read3 /\
    state_ d_T = STOP /\ stop_done d_T.
Proof.
  pose proof (fair_always ack_bus eq_refl) as H3.
  pose proof (nack_at_acked read3 true idle_driver (always ack_bus)
                (fun _ => eq_refl)) as H4.
  split; [exact ready_idle_driver|]. split; [exact wf_read3|].
  split; [exact is_read_read3|]. split; [exact H3|]. split; [exact H4|].
  destruct (read_acks_then_stops read3 idle_driver (always ack_bus)
              ready_idle_driver wf_read3 is_read_read3 H3 H4)
    as (_ & (T & d_T & H1 & H2 & H5 & H6 & H7 & _) & _).
  exists T, d_T. split; [exact H1|]. split; [exact H2|].
  split; [exact H5|]. split; [exact H6|exact H7].
Defined.

Lemma tick_discipline_witness :
  wf_msg write2 /\ sem_ idle_driver = 0%nat /\
  clockStretchActive_ idle_driver = false /\ ready idle_driver /\
  forall k r d' rest,
    transfer write2 true (prefix k (always ack_bus)) idle_driver =
      Done r d' rest ->
    tickEnabled d' = false /\ ready d'.
Proof.
  split; [exact wf_write2|]. split; [reflexivity|]. split; [reflexivity|].
  split; [exact ready_idle_driver|].
  exact (proj2 (proj2 (tick_discipline write2 true idle_driver
                         (always ack_bus) wf_write2 eq_refl eq_refl))
           ready_idle_driver).
Defined.

Lemma receive_never_fails_witness :
  ready idle_driver /\ wf_msg read3 /\
  forall t d_t,
    state_at read3 true idle_driver (always ack_bus) t = Ok tt d_t ->
    state_ d_t = DATA_RX -> 0 <= count_ d_t.
Proof.
  split; [exact ready_idle_driver|]. split; [exact wf_read3|].
  exact (proj1 (proj2 (receive_never_fails read3 true idle_driver
                         (always ack_bus) ready_idle_driver wf_read3))).
Defined.

(** * Further properties of the driver *)

(** ** One tick in detail *)

Ltac open_detail :=
  unfold tick_detail, scl_held_low, ticks_left, stalls, stretch_step,
    nack_event, samples in *;
  cbn in *.

Ltac gpio_cases :=
  repeat match goal with g : Gpio.t |- _ => destruct g as [[] []] end;
  cbn in *; first [ reflexivity | discriminate | congruence ].

Ltac detail_leaf :=
  repeat match goal with
  | H : is_read (mk_msg _ (flags ?msg) _ _) = ?v |- _ =>
      change (is_read msg = v) in H
  end;
  cbn [sda_while_scl_low rev app];
  repeat match goal with
  | H : Gpio.level ?g = _ |- context [Gpio.level ?g] => rewrite H
  end;
  cbn in *;
  repeat match goal with
  | H : is_read ?m = _ |- context [is_read ?m] => rewrite H
  | |- context [if is_read ?m then _ else _] => destruct (is_read m)
  | |- context [if ?b then _ else _] => is_var b; destruct b
  | H : context [?x <=? ?y] |- _ => destruct (Z.leb_spec x y)
  end;
  unfold EIO in *;
  first [ reflexivity | assumption | discriminate | lia | congruence
        | intuition (first [ discriminate | lia | congruence ]) ].

Ltac detail :=
  repeat match goal with
  | |- _ /\ _ => split
  | |- exists evs, ?l = rev evs ++ ?lg /\ _ =>
      let p := prefix_of l lg in
      exists (rev p); split; [reflexivity|]
  | |- exists m m', Some _ = Some m /\ Some _ = Some m' /\ _ =>
      do 2 eexists; split; [reflexivity|]; split; [reflexivity|];
      let i := fresh "i" in let Hi := fresh "Hi" in
      intros i Hi; cbn [buf];
      rewrite ?list_lookup_insert_ne by congruence
  | H : ?x = _ |- _ => is_var x; subst x
  | |- _ -> _ => intro
  | H : _ /\ _ |- _ => destruct H
  end;
  try solve [ detail_leaf | gpio_cases ].

Ltac finish_detail :=
  eexists; (split; [reflexivity|]); open_detail; detail.

Lemma detail_START msg stop bus d :
  wf_msg msg -> Inv msg stop d -> tickEnabled d = true -> state_ d = START ->
  scl_held_low d ->
  exists d', tick_interrupt bus d = Ok tt d' /\ tick_detail msg stop bus d d'.
Proof.
  setup Hst.
  destruct HI as (_ & -> & -> & -> & ->). intros _.
  destruct s; run_tick; finish_detail.
Qed.

Lemma detail_STOP msg stop bus d :
  wf_msg msg -> Inv msg stop d -> tickEnabled d = true -> state_ d = STOP ->
  scl_held_low d ->
  exists d', tick_interrupt bus d = Ok tt d' /\ tick_detail msg stop bus d d'.
Proof.
  setup Hst.
  destruct HI as (-> & Hc & [(_ & -> & -> & Hp)|(? & _)]); [|discriminate].
  intros _.
  destruct s; run_tick; finish_detail.
Qed.

Lemma detail_ADDRESS msg stop bus d :
  wf_msg msg -> Inv msg stop d -> tickEnabled d = true -> state_ d = ADDRESS ->
  scl_held_low d ->
  exists d', tick_interrupt bus d = Ok tt d' /\ tick_detail msg stop bus d d'.
Proof.
  setup Hst.
  destruct HI as (_ & -> & -> & -> & Hcs). intros _.
  destruct s; destruct cs; try (specialize (Hcs eq_refl); discriminate);
    clear Hcs; run_tick; finish_detail.
Qed.

Lemma detail_DATA_TX msg stop bus d :
  wf_msg msg -> Inv msg stop d -> tickEnabled d = true -> state_ d = DATA_TX ->
  scl_held_low d ->
  exists d', tick_interrupt bus d = Ok tt d' /\ tick_detail msg stop bus d d'.
Proof.
  setup Hst.
  destruct HI as (Hrd & -> & [(_ & -> & Hc & Hcs)|(? & _)]); [|discriminate].
  intros _.
  destruct s; destruct cs; try (specialize (Hcs eq_refl); discriminate);
    clear Hcs; run_tick; finish_detail.
Qed.

Lemma detail_DATA_RX msg stop bus d :
  wf_msg msg -> Inv msg stop d -> tickEnabled d = true -> state_ d = DATA_RX ->
  scl_held_low d ->
  exists d', tick_interrupt bus d = Ok tt d' /\ tick_detail msg stop bus d d'.
Proof.
  setup Hst.
  destruct HI as (Hrd & -> & [(_ & -> & Hc & Hcs & Hsda)|(? & _)]);
    [|discriminate].
  intros Hlow.
  destruct s; destruct cs; try (specialize (Hcs eq_refl); discriminate);
    clear Hcs; run_tick; finish_detail.
Qed.

(** Every tick of a transfer, in detail. *)
Lemma detail_step msg stop bus d :
  wf_msg msg -> Inv msg stop d -> tickEnabled d = true -> scl_held_low d ->
  exists d', tick_interrupt bus d = Ok tt d' /\ tick_detail msg stop bus d d'.
Proof.
  intros Hwf HI Hrun Hlow. destruct (state_ d) eqn:Hst.
  - now apply detail_START.
  - now apply detail_ADDRESS.
  - now apply detail_DATA_TX.
  - now apply detail_DATA_RX.
  - now apply detail_STOP.
Qed.

Lemma full_step msg stop bus d :
  wf_msg msg -> Inv msg stop d -> tickEnabled d = true -> scl_held_low d ->
  exists d', tick_interrupt bus d = Ok tt d' /\
             tick_post msg stop bus d d' /\ tick_detail msg stop bus d d'.
Proof.
  intros Hwf HI Hrun Hlow.
  destruct (tick_step msg stop bus d Hwf HI Hrun) as (d1 & Ht & Hp).
  destruct (detail_step msg stop bus d Hwf HI Hrun Hlow) as (d2 & Ht2 & Hd).
  rewrite Ht in Ht2. inversion Ht2; subst d2. eauto.
Qed.

Lemma run_detail msg stop d0 env :
  wf_msg msg -> sem_ d0 = 0%nat -> clockStretchActive_ d0 = false ->
  forall t, exists d,
    state_at msg stop d0 env t = Ok tt d /\ Inv msg stop d /\ scl_held_low d.
Proof.
  intros Hwf Hs Hc. induction t as [|t (d & Hd & HI & Hlow)].
  - exists (armed msg stop d0). split; [reflexivity|].
    split; [now apply inv_armed|exact I].
  - rewrite state_at_S, Hd. destruct (tickEnabled d) eqn:Hrun.
    + destruct (full_step msg stop (env t) d Hwf HI Hrun Hlow)
        as (d1 & Ht & (HI1 & _) & (Hl1 & _)).
      exists d1. auto.
    + exists d. auto.
Qed.

(** ** The enumerations *)

(** X1. The four [operator++] step a sub-state to the next enumerator and
    stay on [LAST] once it is reached: the numeric value after the
    increment is the smaller of the value plus one and the value of
    [LAST]. *)
Theorem incr_clamped :
  (forall s, StateStart.to_Z (StateStart.incr s) =
             Z.min (StateStart.to_Z s + 1) (StateStart.to_Z StateStart.LAST)) /\
  (forall s, StateStop.to_Z (StateStop.incr s) =
             Z.min (StateStop.to_Z s + 1) (StateStop.to_Z StateStop.LAST)) /\
  (forall s, StateTx.to_Z (StateTx.incr s) =
             Z.min (StateTx.to_Z s + 1) (StateTx.to_Z StateTx.LAST)) /\
  (forall s, StateRx.to_Z (StateRx.incr s) =
             Z.min (StateRx.to_Z s + 1) (StateRx.to_Z StateRx.LAST)).
Proof. repeat split; intros []; reflexivity. Qed.

(** ** Start of a transfer *)

(** The levels of the start condition. *)
Lemma start_run msg stop d0 b1 b2 b3 :
  waveform [b1; b2; b3] (armed msg stop d0) =
    [(Gpio.SET, Gpio.level (scl_ d0)); (Gpio.SET, Gpio.SET);
     (Gpio.CLR, Gpio.SET)].
Proof.
  destruct d0 as [sda scl te mo sem c st u stp cs lg]. unfold armed. cbn.
  exec_run. destruct scl as [[] ?]; reflexivity.
Qed.

(** X2. Every transfer begins with the start condition, whatever the
    message and whatever the bus reads: the first three ticks release SDA,
    release SCL and drive SDA low while SCL is high, and leave the driver
    in the address phase on the first step of the transmit sub-machine,
    with the message installed and no byte counted. *)
Theorem start_sequence msg stop d0 b1 b2 b3 :
  exists d3,
    ticks [b1; b2; b3] (armed msg stop d0) = Ok tt d3 /\
    waveform [b1; b2; b3] (armed msg stop d0) =
      [(Gpio.SET, Gpio.level (scl_ d0)); (Gpio.SET, Gpio.SET);
       (Gpio.CLR, Gpio.SET)] /\
    log d3 = gpio_clr_log SDA ++ GpioSetDirection SCL Gpio.DINPUT ::
             GpioSetDirection SDA Gpio.DINPUT :: EnableTick :: log d0 /\
    state_ d3 = ADDRESS /\ union_ d3 = stateTx_ StateTx.FIRST /\
    count_ d3 = 0 /\ msg_ d3 = Some msg /\ tickEnabled d3 = true.
Proof.
  destruct d0 as [sda scl te mo sem c st u stp cs lg]. unfold armed. cbn.
  eexists. split; [exec_run; reflexivity|].
  split; [exec_run; destruct scl as [[] ?]; reflexivity|].
  repeat split.
Qed.

(** ** Construction and the start-up stop sequence *)

(** X3. The constructor releases SDA and drives SCL low, whatever the
    lines were before; with the tick enabled, the next three ticks are a
    stop condition (SDA low, SCL high, SDA high) whatever the bus reads,
    after which no stop is pending, the ticks are off and both lines are
    released. As no caller waited for it, the post of the semaphore stays
    behind as one pending count, and no message is installed. *)
Theorem startup_stop_sequence sda0 scl0 b1 b2 b3 :
  exists d0 d3,
    BitBangI2C_new sda0 scl0 true = Ok tt d0 /\
    Gpio.level (sda_ d0) = Gpio.SET /\ Gpio.level (scl_ d0) = Gpio.CLR /\
    open_drain (sda_ d0) = true /\ open_drain (scl_ d0) = true /\
    ticks [b1; b2; b3] d0 = Ok tt d3 /\
    waveform [b1; b2; b3] d0 =
      [(Gpio.CLR, Gpio.CLR); (Gpio.CLR, Gpio.SET); (Gpio.SET, Gpio.SET)] /\
    stop_ d3 = false /\ tickEnabled d3 = false /\ sem_ d3 = 1%nat /\
    msg_ d3 = None /\
    open_drain (sda_ d3) = true /\ open_drain (scl_ d3) = true.
Proof.
  unfold BitBangI2C_new. do 2 eexists.
  split; [exec; reflexivity|].
  split; [reflexivity|]. split; [reflexivity|].
  split; [reflexivity|]. split; [reflexivity|].
  split; [exec_run; reflexivity|].
  split; [exec_run; reflexivity|].
  repeat split.
Qed.


Lemma sem_wait_pending env d n :
  sem_ d = S n -> sem_wait env d = Done tt (set_sem_ n d) env.
Proof. intros H. destruct env; cbn; now rewrite H. Qed.

Lemma sem_wait_tick b env d :
  sem_ d = 0%nat -> tickEnabled d = true ->
  sem_wait (b :: env) d =
  match tick_interrupt b d with
  | Ok _ d' => sem_wait env d'
  | Fault => Faulted
  end.
Proof. intros H1 H2. cbn. now rewrite H1, H2. Qed.

(** X4. A caller that arrives while the start-up stop sequence is still
    pending sleeps in the loop [while (stop_) sem_.wait()] through exactly
    the three ticks of that sequence; the loop then ends with the
    semaphore count taken, the ticks off and the bus idle. *)
Theorem first_call_waits_for_startup sda0 scl0 fuel b1 b2 b3 rest :
  exists d0 d3,
    BitBangI2C_new sda0 scl0 true = Ok tt d0 /\
    wait_while_stop_ (S fuel) (b1 :: b2 :: b3 :: rest) d0 = Done tt d3 rest /\
    stop_ d3 = false /\ sem_ d3 = 0%nat /\ tickEnabled d3 = false /\
    Gpio.level (sda_ d3) = Gpio.SET /\ Gpio.level (scl_ d3) = Gpio.SET.
Proof.
  unfold BitBangI2C_new. do 2 eexists.
  split; [exec; reflexivity|].
  split.
  - cbn [wait_while_stop_ stop_].
    do 3 (rewrite sem_wait_tick by reflexivity; exec; incr_compute).
    rewrite (sem_wait_pending _ _ 0%nat) by reflexivity.
    destruct fuel; reflexivity.
  - repeat split.
Qed.

(** X5. [transfer] never returns when a stop is pending and nothing can
    complete it: with the ticks disabled and no count on the semaphore,
    as after a construction that did not enable the tick, the caller
    stays blocked on any bus, however long. *)
Theorem transfer_blocks_without_ticks msg stop env d :
  stop_ d = true -> tickEnabled d = false -> sem_ d = 0%nat ->
  transfer msg stop env d = Blocked d.
Proof.
  intros Hstop Hoff Hsem. unfold transfer. cbn [wait_while_stop_].
  rewrite Hstop.
  assert (sem_wait env d = Blocked d) as ->; [|reflexivity].
  destruct env; cbn; now rewrite Hsem, Hoff.
Qed.

Lemma transfer_blocks_without_ticks_witness :
  stop_ (constructed false) = true /\ tickEnabled (constructed false) = false /\
  sem_ (constructed false) = 0%nat /\
  BitBangI2C_new released released false = Ok tt (constructed false) /\
  transfer write2 true (replicate 100 ack_bus) (constructed false) =
    Blocked (constructed false).
Proof.
  split; [reflexivity|]. split; [reflexivity|]. split; [reflexivity|].
  split; [reflexivity|].
  exact (transfer_blocks_without_ticks write2 true (replicate 100 ack_bus)
           (constructed false) eq_refl eq_refl eq_refl).
Defined.

(** X6. A count that is pending on the semaphore when [transfer] is
    called is taken by the wait for completion: [transfer] arms the
    message and returns 0 at once, before any tick was handled, with the
    ticks enabled and the state machine still on its first step. *)
Theorem pending_post_returns_at_once msg stop env d installed n :
  stop_ d = false -> msg_ d = Some installed -> len installed <> 0 ->
  sem_ d = S n ->
  transfer msg stop env d = Done 0 (set_sem_ n (armed msg stop d)) env /\
  tickEnabled (set_sem_ n (armed msg stop d)) = true /\
  state_ (set_sem_ n (armed msg stop d)) = START.
Proof.
  intros Hstop Hm Hlen Hsem. split; [|split; reflexivity].
  unfold transfer. cbn [wait_while_stop_]. rewrite Hstop, Hm.
  destruct (Z.eqb_spec (len installed) 0); [contradiction|].
  rewrite arm_armed.
  now rewrite (sem_wait_pending env (armed msg stop d) n Hsem).
Qed.

Lemma pending_post_returns_at_once_witness :
  stop_ (set_sem_ 1%nat idle_driver) = false /\
  msg_ (set_sem_ 1%nat idle_driver) = Some (mk_msg 0x50 0 1 [0x00]) /\
  len (mk_msg 0x50 0 1 [0x00]) <> 0 /\
  sem_ (set_sem_ 1%nat idle_driver) = 1%nat /\
  returned (transfer write2 true (replicate 50 ack_bus)
              (set_sem_ 1%nat idle_driver)) = Some 0.
Proof.
  split; [reflexivity|]. split; [reflexivity|]. split; [discriminate|].
  split; [reflexivity|].
  destruct (pending_post_returns_at_once write2 true (replicate 50 ack_bus)
              (set_sem_ 1%nat idle_driver) (mk_msg 0x50 0 1 [0x00]) 0%nat
              eq_refl eq_refl ltac:(discriminate) eq_refl) as [H _].
  rewrite H. reflexivity.
Defined.

(** ** Every transfer returns *)

Lemma nack_at_off msg stop d0 env t d :
  state_at msg stop d0 env t = Ok tt d -> tickEnabled d = false ->
  nack_at msg stop d0 env t = false.
Proof.
  intros Hd Hoff. unfold nack_at. rewrite Hd. unfold nack_event. rewrite Hoff.
  destruct (state_ d), (union_ d) as [| |[]|]; reflexivity.
Qed.

(** X7. On a driver that is ready for the call (a message of non-zero
    length is installed, no stop is pending, the ticks are off and no
    semaphore count is pending), when the slave does not hold the clock
    for good, every transfer of a message with at least one byte and a
    buffer of that many bytes returns, and the value is the length of the
    message or [-EIO]; it is [-EIO] exactly when some tick sampled a NACK
    on a transmitted byte. *)
Theorem transfer_always_returns msg stop d env :
  ready d -> wf_msg msg -> fair env ->
  exists n r,
    (r = len msg \/ r = - EIO) /\
    (r = - EIO <-> exists t, nack_at msg stop d env t = true) /\
    forall k, (n <= k)%nat ->
      returned (transfer msg stop (prefix k env) d) = Some r.
Proof.
  intros Hready Hwf Hfair.
  pose proof Hready as (Hstop & Hoff & Hsem & Hcs & Hinst).
  destruct (transfer_completes msg stop d env Hwf Hsem Hcs Hfair)
    as (T & dT & HT & HI & HoffT & Hcnt & Hwait).
  exists T, (count_ dT).
  split; [now apply (inv_finished_count msg stop)|]. split.
  - split.
    + intros E. assert (Hneg : count_ dT < 0) by (rewrite E; unfold EIO; lia).
      apply Hcnt, existsb_seq_true in Hneg as (t & _ & Ht). eauto.
    + intros (t & Ht).
      assert (Hlt : (t < T)%nat).
      { destruct (le_lt_dec T t) as [Hle|]; [|assumption].
        rewrite (nack_at_off msg stop d env t dT) in Ht; [discriminate| |assumption].
        unfold state_at in *. now apply (ticks_stable T). }
      assert (Hneg : count_ dT < 0).
      { apply Hcnt. now apply (nack_before_later _ _ _ _ t). }
      destruct (inv_finished_count msg stop dT HI HoffT) as [E|E];
        [|assumption].
      destruct Hwf. lia.
  - intros k Hk. rewrite transfer_ready by assumption.
    destruct (Hwait k Hk) as (rest & ->). reflexivity.
Qed.

Lemma transfer_always_returns_witness :
  ready idle_driver /\ wf_msg read3 /\ fair (always nack_bus) /\
  exists n r,
    (r = len read3 \/ r = - EIO) /\
    (r = - EIO <-> exists t, nack_at read3 false idle_driver (always nack_bus) t = true) /\
    forall k, (n <= k)%nat ->
      returned (transfer read3 false (prefix k (always nack_bus)) idle_driver)
      = Some r.
Proof.
  split; [exact ready_idle_driver|]. split; [exact wf_read3|].
  split; [exact (fair_always nack_bus eq_refl)|].
  exact (transfer_always_returns read3 false idle_driver (always nack_bus)
           ready_idle_driver wf_read3 (fair_always nack_bus eq_refl)).
Defined.

(** ** A clock that is held low for good *)

Lemma prefix_Forall (P : Bus -> Prop) k env :
  (forall t, P (env t)) -> Forall P (prefix k env).
Proof.
  intros H. unfold prefix. induction (seq 0 k); cbn; constructor; auto.
Qed.

(** X8. The driver has no timeout on clock stretching. On a driver that
    is ready for the call (a message of non-zero length is installed, no
    stop is pending, the ticks are off and no semaphore count is pending)
    and for a message with at least one byte and a buffer of that many
    bytes: when SCL reads low from some tick on for good, at a step that
    checks SCL, [transfer] stays blocked for every number of further
    ticks. *)
Theorem held_clock_never_returns msg stop d env t0 d_t :
  ready d -> wf_msg msg ->
  state_at msg stop d env t0 = Ok tt d_t -> tickEnabled d_t = true ->
  stretch_step d_t = true ->
  (forall t, (t0 <= t)%nat -> scl_line (env t) = Gpio.CLR) ->
  forall k, exists d_k,
    transfer msg stop (prefix k env) d = Blocked d_k.
Proof.
  intros Hready Hwf Hd Hrun Hstep Hlow k.
  pose proof Hready as (Hstop & Hoff & Hsem & Hcs & Hinst).
  rewrite transfer_ready by assumption.
  destruct (sem_wait_ticks msg stop (prefix k env) _ Hwf
              (inv_armed msg stop d Hsem Hcs)) as (d_k & Hk & HIk & Hw).
  assert (Hrun_k : tickEnabled d_k = true).
  { destruct (le_lt_dec k t0) as [Hle|Hlt].
    - destruct (tickEnabled d_k) eqn:E; [reflexivity|].
      unfold state_at in Hd.
      rewrite (ticks_stable k t0 env _ d_k Hk E Hle) in Hd.
      inversion Hd; subst. congruence.
    - destruct (run_inv msg stop d env Hwf Hsem Hcs t0) as (d' & Hd' & HI & _).
      rewrite Hd in Hd'. inversion Hd'; subst d'.
      assert (E : state_at msg stop d env (t0 + (k - t0)) = Ok tt d_k).
      { unfold state_at. now replace (t0 + (k - t0))%nat with k by lia. }
      rewrite (state_at_add _ _ _ _ _ _ _ Hd) in E.
      rewrite (ticks_scl_low msg stop _ d_t Hwf HI Hrun Hstep) in E.
      + inversion E; subst d_k. exact Hrun.
      + destruct (k - t0)%nat eqn:Ek; [lia|]. discriminate.
      + apply prefix_Forall. intros t. apply Hlow. lia. }
  rewrite Hrun_k in Hw. rewrite Hw. eauto.
Qed.

Lemma held_clock_never_returns_witness :
  ready idle_driver /\ wf_msg write2 /\
  state_at write2 true idle_driver (held_low_after 21) 21 = Ok tt at_address_ack /\
  tickEnabled at_address_ack = true /\ stretch_step at_address_ack = true /\
  (forall t, (21 <= t)%nat -> scl_line (held_low_after 21 t) = Gpio.CLR) /\
  exists d_k,
    transfer write2 true (prefix 1000 (held_low_after 21)) idle_driver =
    Blocked d_k.
Proof.
  assert (H : forall t, (21 <= t)%nat ->
                scl_line (held_low_after 21 t) = Gpio.CLR).
  { intros t Ht. unfold held_low_after.
    destruct (Nat.ltb_spec t 21); [lia|reflexivity]. }
  assert (E : state_at write2 true idle_driver (held_low_after 21) 21 =
              Ok tt at_address_ack) by (vm_compute; reflexivity).
  split; [exact ready_idle_driver|]. split; [exact wf_write2|].
  split; [exact E|]. split; [reflexivity|]. split; [reflexivity|].
  split; [exact H|].
  exact (held_clock_never_returns write2 true idle_driver (held_low_after 21)
           21 at_address_ack ready_idle_driver wf_write2 E eq_refl eq_refl H
           1000%nat).
Defined.

(** ** The lines are never driven high *)

Lemma run_open_drain msg stop d0 env :
  wf_msg msg -> sem_ d0 = 0%nat -> clockStretchActive_ d0 = false ->
  open_drain (sda_ d0) = true -> open_drain (scl_ d0) = true ->
  forall t, exists d,
    state_at msg stop d0 env t = Ok tt d /\ Inv msg stop d /\
    scl_held_low d /\
    open_drain (sda_ d) = true /\ open_drain (scl_ d) = true.
Proof.
  intros Hwf Hs Hc Ha Hb.
  induction t as [|t (d & Hd & HI & Hlow & Hsda & Hscl)].
  - exists (armed msg stop d0). split; [reflexivity|].
    split; [now apply inv_armed|]. split; [exact I|]. split; assumption.
  - rewrite state_at_S, Hd. destruct (tickEnabled d) eqn:Hrun.
    + destruct (full_step msg stop (env t) d Hwf HI Hrun Hlow)
        as (d1 & Ht & (HI1 & _) & (Hl1 & (evs & _ & _ & Hod) & _)).
      destruct (Hod Hsda Hscl) as (_ & ? & ?).
      exists d1. auto.
    + exists d. auto.
Qed.

(** X9. The driver never drives a line high: from lines that are released
    or driven low, after every single GPIO call of every tick of a transfer
    both lines are again released or driven low, so a high level is only
    ever produced by the pull-up. *)
Theorem never_drives_high msg stop d0 env :
  wf_msg msg -> sem_ d0 = 0%nat -> clockStretchActive_ d0 = false ->
  open_drain (sda_ d0) = true -> open_drain (scl_ d0) = true ->
  forall t, exists d d' evs,
    state_at msg stop d0 env t = Ok tt d /\
    state_at msg stop d0 env (S t) = Ok tt d' /\
    log d' = rev evs ++ log d /\
    never_high (sda_ d) (scl_ d) evs = true /\
    open_drain (sda_ d') = true /\ open_drain (scl_ d') = true.
Proof.
  intros Hwf Hs Hc Ha Hb t.
  destruct (run_open_drain msg stop d0 env Hwf Hs Hc Ha Hb t)
    as (d & Hd & HI & Hlow & Hsda & Hscl).
  rewrite state_at_S, Hd. destruct (tickEnabled d) eqn:Hrun.
  - destruct (full_step msg stop (env t) d Hwf HI Hrun Hlow)
      as (d1 & Ht & _ & (_ & (evs & Hlog & _ & Hod) & _)).
    destruct (Hod Hsda Hscl) as (? & ? & ?).
    exists d, d1, evs. auto 10.
  - exists d, d, []. auto 10.
Qed.

Lemma never_drives_high_witness :
  wf_msg write2 /\ sem_ idle_driver = 0%nat /\
  clockStretchActive_ idle_driver = false /\
  open_drain (sda_ idle_driver) = true /\
  open_drain (scl_ idle_driver) = true /\
  exists d d' evs,
    state_at write2 true idle_driver (always ack_bus) 5 = Ok tt d /\
    state_at write2 true idle_driver (always ack_bus) 6 = Ok tt d' /\
    log d' = rev evs ++ log d /\
    never_high (sda_ d) (scl_ d) evs = true /\
    open_drain (sda_ d') = true /\ open_drain (scl_ d') = true.
Proof.
  split; [exact wf_write2|]. split; [reflexivity|]. split; [reflexivity|].
  split; [reflexivity|]. split; [reflexivity|].
  exact (never_drives_high write2 true idle_driver (always ack_bus)
           wf_write2 eq_refl eq_refl eq_refl eq_refl 5%nat).
Defined.

(** ** SDA is stable while SCL is high *)

(** X10. In the address and data phases the driver touches SDA only while
    it drives SCL low itself: on every tick of these phases each call on
    the SDA line comes after SCL was driven low, so the data line is
    stable while the clock is high; only the start and the stop sequence
    move SDA with SCL high. *)
Theorem sda_only_while_scl_low msg stop d0 env t d :
  wf_msg msg -> sem_ d0 = 0%nat -> clockStretchActive_ d0 = false ->
  state_at msg stop d0 env t = Ok tt d -> tickEnabled d = true ->
  state_ d <> START -> state_ d <> STOP ->
  exists d' evs,
    state_at msg stop d0 env (S t) = Ok tt d' /\
    log d' = rev evs ++ log d /\
    sda_while_scl_low (scl_ d) evs = true.
Proof.
  intros Hwf Hs Hc Hd Hrun Hn1 Hn2.
  destruct (run_detail msg stop d0 env Hwf Hs Hc t) as (d1 & Hd1 & HI & Hlow).
  rewrite Hd in Hd1. inversion Hd1; subst d1.
  destruct (full_step msg stop (env t) d Hwf HI Hrun Hlow)
    as (d' & Ht & _ & (_ & (evs & Hlog & Hv & _) & _)).
  exists d', evs. rewrite state_at_S, Hd, Hrun. auto.
Qed.

Lemma sda_only_while_scl_low_witness :
  wf_msg write2 /\ sem_ idle_driver = 0%nat /\
  clockStretchActive_ idle_driver = false /\
  state_at write2 true idle_driver (always ack_bus) 21 = Ok tt at_address_ack /\
  tickEnabled at_address_ack = true /\
  state_ at_address_ack <> START /\ state_ at_address_ack <> STOP /\
  exists d' evs,
    state_at write2 true idle_driver (always ack_bus) 22 = Ok tt d' /\
    log d' = rev evs ++ log at_address_ack /\
    sda_while_scl_low (scl_ at_address_ack) evs = true.
Proof.
  assert (E : state_at write2 true idle_driver (always ack_bus) 21 =
              Ok tt at_address_ack) by (vm_compute; reflexivity).
  split; [exact wf_write2|]. split; [reflexivity|]. split; [reflexivity|].
  split; [exact E|]. split; [reflexivity|].
  split; [discriminate|]. split; [discriminate|].
  exact (sda_only_while_scl_low write2 true idle_driver (always ack_bus) 21
           at_address_ack wf_write2 eq_refl eq_refl E eq_refl
           ltac:(discriminate) ltac:(discriminate)).
Defined.

(** ** The caller's buffer *)

(** X11. For a message with at least one byte and a buffer of at least
    that many bytes, armed on a driver with no semaphore count pending and
    the stretch flag clear: the installed message keeps its address, flags
    and length and the size of its buffer at every tick of the transfer; a
    write leaves the whole message as it was, and a read never changes a
    byte at an index from [len] on. *)
Theorem buffer_outside_untouched msg stop d0 env :
  wf_msg msg -> sem_ d0 = 0%nat -> clockStretchActive_ d0 = false ->
  forall t, exists d m,
    state_at msg stop d0 env t = Ok tt d /\ msg_ d = Some m /\
    addr m = addr msg /\ flags m = flags msg /\ len m = len msg /\
    length (buf m) = length (buf msg) /\
    (is_read msg = false -> m = msg) /\
    forall i, (Z.to_nat (len msg) <= i)%nat -> buf m !! i = buf msg !! i.
Proof.
  intros Hwf Hs Hc t.
  assert (H : exists d m,
            state_at msg stop d0 env t = Ok tt d /\ Inv msg stop d /\
            scl_held_low d /\ msg_ d = Some m /\
            forall i, (Z.to_nat (len msg) <= i)%nat ->
                      buf m !! i = buf msg !! i).
  { induction t as [|t (d & m & Hd & HI & Hlow & Hm & Hb)].
    - exists (armed msg stop d0), msg. split; [reflexivity|].
      split; [now apply inv_armed|]. split; [exact I|]. split; auto.
    - rewrite state_at_S, Hd. destruct (tickEnabled d) eqn:Hrun;
        [|exists d, m; auto].
      destruct (full_step msg stop (env t) d Hwf HI Hrun Hlow)
        as (d1 & Ht & (HI1 & _) & (Hl1 & _ & Hsame & (m0 & m1 & Hm0 & Hm1 & Hfr)
                                   & _)).
      rewrite Hm in Hm0. inversion Hm0; subst m0.
      exists d1, m1. split; [assumption|]. split; [assumption|].
      split; [assumption|]. split; [assumption|].
      intros i Hi. rewrite <- (Hb i Hi).
      destruct (samples d) eqn:Es.
      + apply Hfr. unfold samples in Es. destruct HI as [_ HI].
        destruct (state_ d); try discriminate.
        destruct (union_ d); try discriminate.
        destruct HI as (_ & _ & [(_ & _ & Hcnt & _)|(E & _)]); [|congruence].
        lia.
      + specialize (Hsame eq_refl). congruence. }
  destruct H as (d & m & Hd & [(m' & Hm' & (? & ? & ? & ?) & Hw) _] & _ & Hm & Hb).
  rewrite Hm in Hm'. inversion Hm'; subst m'.
  exists d, m. auto 10.
Qed.

Lemma buffer_outside_untouched_witness :
  wf_msg read3 /\ sem_ idle_driver = 0%nat /\
  clockStretchActive_ idle_driver = false /\
  exists d m,
    state_at read3 true idle_driver (always ack_bus) 40 = Ok tt d /\
    msg_ d = Some m /\
    addr m = addr read3 /\ flags m = flags read3 /\ len m = len read3 /\
    length (buf m) = length (buf read3) /\
    (is_read read3 = false -> m = read3) /\
    forall i, (Z.to_nat (len read3) <= i)%nat -> buf m !! i = buf read3 !! i.
Proof.
  split; [exact wf_read3|]. split; [reflexivity|]. split; [reflexivity|].
  exact (buffer_outside_untouched read3 true idle_driver (always ack_bus)
           wf_read3 eq_refl eq_refl 40%nat).
Defined.

(** ** Length of a transfer in ticks *)

Lemma ticks_left_pos msg stop d :
  wf_msg msg -> Inv msg stop d -> tickEnabled d = true ->
  1 <= ticks_left msg stop d.
Proof.
  intros [H1 _] [_ HI] E. unfold ticks_left. rewrite E.
  destruct (state_ d), (union_ d) as [s|s|s|s]; try contradiction;
    destruct s; cbn; destruct (is_read msg), stop;
    intuition (first [ congruence | lia ]).
Qed.

Lemma ticks_left_off msg stop d :
  tickEnabled d = false -> ticks_left msg stop d = 0.
Proof. intros E. unfold ticks_left. now rewrite E. Qed.

Lemma transfer_ticks_pos msg stop : wf_msg msg -> 23 <= transfer_ticks msg stop.
Proof.
  intros [H _]. unfold transfer_ticks. destruct (is_read msg), stop; lia.
Qed.

Lemma quiet_run_upto msg stop d0 env :
  wf_msg msg -> sem_ d0 = 0%nat -> clockStretchActive_ d0 = false ->
  (forall t, scl_line (env t) = Gpio.SET) ->
  forall t, Z.of_nat t <= transfer_ticks msg stop ->
    (forall u, (u < t)%nat -> nack_at msg stop d0 env u = false) ->
    exists d, state_at msg stop d0 env t = Ok tt d /\ Inv msg stop d /\
      scl_held_low d /\ clockStretchActive_ d = false /\
      ticks_left msg stop d = transfer_ticks msg stop - Z.of_nat t.
Proof.
  intros Hwf Hs Hc Hscl. induction t as [|t IH]; intros Ht Hnack.
  - exists (armed msg stop d0). split; [reflexivity|].
    split; [now apply inv_armed|]. split; [exact I|].
    split; [assumption|]. unfold ticks_left, transfer_ticks. cbn. lia.
  - destruct IH as (d & Hd & HI & Hlow & Hcs & Hleft); [lia|auto|].
    assert (Hrun : tickEnabled d = true).
    { destruct (tickEnabled d) eqn:E; [reflexivity|].
      rewrite (ticks_left_off msg stop d E) in Hleft. lia. }
    destruct (full_step msg stop (env t) d Hwf HI Hrun Hlow)
      as (d1 & Htick & (HI1 & _) & (Hl1 & _ & _ & _ & Hcs1 & Hdec)).
    exists d1. rewrite state_at_S, Hd, Hrun.
    split; [assumption|]. split; [assumption|]. split; [assumption|].
    split; [now apply Hcs1|].
    rewrite Hdec; [lia| |].
    + unfold stalls. rewrite Hscl, Hcs. cbn. apply andb_false_r.
    + specialize (Hnack t (Nat.lt_succ_diag_r t)). unfold nack_at in Hnack.
      now rewrite Hd in Hnack.
Qed.

Lemma quiet_run msg stop d0 env :
  wf_msg msg -> sem_ d0 = 0%nat -> clockStretchActive_ d0 = false ->
  (forall t, scl_line (env t) = Gpio.SET) ->
  (forall t, nack_at msg stop d0 env t = false) ->
  forall t, Z.of_nat t <= transfer_ticks msg stop ->
    exists d, state_at msg stop d0 env t = Ok tt d /\ Inv msg stop d /\
      scl_held_low d /\ clockStretchActive_ d = false /\
      ticks_left msg stop d = transfer_ticks msg stop - Z.of_nat t.
Proof.
  intros Hwf Hs Hc Hscl Hnack t Ht.
  apply quiet_run_upto; auto.
Qed.

(** When the slave pulls SDA low on the tick that samples the acknowledge
    bit of each transmitted byte, no NACK is read. *)
Lemma quiet_acked_no_nack msg stop d0 env :
  wf_msg msg -> sem_ d0 = 0%nat -> clockStretchActive_ d0 = false ->
  (forall t, scl_line (env t) = Gpio.SET) -> acked msg env ->
  forall t, nack_at msg stop d0 env t = false.
Proof.
  intros Hwf Hs Hc Hscl Hack.
  pose proof (transfer_ticks_pos msg stop Hwf) as Hpos.
  assert (H : forall t u, (u < t)%nat -> nack_at msg stop d0 env u = false).
  { induction t as [|t IH]; intros u Hu; [lia|].
    destruct (Nat.eq_dec u t) as [->|]; [|apply IH; lia].
    destruct (Z.le_gt_cases (Z.of_nat t) (transfer_ticks msg stop)) as [Hle|Hgt].
    - destruct (quiet_run_upto msg stop d0 env Hwf Hs Hc Hscl t Hle IH)
        as (d & Hd & HI & _ & _ & Hleft).
      unfold nack_at. rewrite Hd.
      destruct (nack_event (env t) d) eqn:Hn; [exfalso|reflexivity].
      apply nack_event_inv in Hn as (Hst & Hu' & Hrun & _ & _ & Hsda).
      assert (Hj : exists j,
                (j <= if is_read msg then 0 else Z.to_nat (len msg))%nat /\
                t = (21 + 19 * j)%nat).
      { unfold ticks_left, transfer_ticks in Hleft.
        rewrite Hrun, Hu' in Hleft. destruct HI as [_ HI]. rewrite Hu' in HI.
        destruct Hst as [Hst|Hst]; rewrite Hst in Hleft, HI; cbn in Hleft.
        - exists 0%nat. split; [lia|]. destruct (is_read msg), stop; lia.
        - destruct HI as (Hrd & _ & [(_ & _ & Hcnt & _)|(E & _)]);
            [|congruence].
          rewrite Hrd in *. exists (Z.to_nat (count_ d + 1)).
          split; [lia|]. destruct stop; lia. }
      destruct Hj as (j & Hj & ->). rewrite (Hack j Hj) in Hsda. discriminate.
    - destruct (quiet_run_upto msg stop d0 env Hwf Hs Hc Hscl
                  (Z.to_nat (transfer_ticks msg stop)) ltac:(lia))
        as (dN & HN & HIN & _ & _ & Hleft).
      { intros v Hv. apply IH. lia. }
      assert (HoffN : tickEnabled dN = false).
      { destruct (tickEnabled dN) eqn:E; [|reflexivity].
        pose proof (ticks_left_pos msg stop dN Hwf HIN E). lia. }
      apply (nack_at_off msg stop d0 env t dN); [|assumption].
      unfold state_at in *.
      apply (ticks_stable (Z.to_nat (transfer_ticks msg stop))); auto. lia. }
  intros t. apply (H (S t)). lia.
Qed.

(** X12. On a driver that is ready for the call (a message of non-zero
    length is installed, no stop is pending, the ticks are off and no
    semaphore count is pending), for a message with at least one byte and
    a buffer of that many bytes: without clock stretching and with every
    transmitted byte acknowledged, the transfer lasts exactly
    3 + 19 + 19 * len ticks for a write and 3 + 19 + 18 * len for a read,
    plus 3 if a stop is requested: [transfer] is still blocked one tick
    before and returns [len] from that tick on. *)
Theorem transfer_duration msg stop d env :
  ready d -> wf_msg msg ->
  (forall t, scl_line (env t) = Gpio.SET) -> acked msg env ->
  forall k,
    returned (transfer msg stop (prefix k env) d) =
    if (Z.to_nat (transfer_ticks msg stop) <=? k)%nat
    then Some (len msg) else None.
Proof.
  intros Hready Hwf Hscl Hack k.
  pose proof Hready as (Hstop & Hoff & Hsem & Hcs & Hinst).
  pose proof (quiet_acked_no_nack msg stop d env Hwf Hsem Hcs Hscl Hack)
    as Hnack.
  pose proof (transfer_ticks_pos msg stop Hwf) as Hpos.
  rewrite transfer_ready by assumption.
  destruct (sem_wait_ticks msg stop (prefix k env) _ Hwf
              (inv_armed msg stop d Hsem Hcs)) as (d_k & Hk & HIk & Hw).
  destruct (Nat.leb_spec (Z.to_nat (transfer_ticks msg stop)) k) as [Hle|Hlt].
  - destruct (quiet_run msg stop d env Hwf Hsem Hcs Hscl Hnack
                (Z.to_nat (transfer_ticks msg stop)) ltac:(lia))
      as (dN & HN & HIN & _ & _ & Hleft).
    assert (HoffN : tickEnabled dN = false).
    { destruct (tickEnabled dN) eqn:E; [|reflexivity].
      pose proof (ticks_left_pos msg stop dN Hwf HIN E). lia. }
    unfold state_at in HN.
    rewrite (ticks_stable _ k env _ dN HN HoffN Hle) in Hk.
    inversion Hk; subst d_k. rewrite HoffN in Hw.
    destruct Hw as (rest & ->). cbn.
    destruct (inv_finished_count msg stop dN HIN HoffN) as [->|E];
      [reflexivity|].
    exfalso.
    destruct (run_inv msg stop d env Hwf Hsem Hcs
                (Z.to_nat (transfer_ticks msg stop))) as (d' & Hd' & _ & Hn).
    unfold state_at in Hd'. rewrite HN in Hd'. inversion Hd'; subst d'.
    rewrite (nack_before_false msg stop d env _ Hnack) in Hn.
    assert (count_ dN < 0) by (rewrite E; unfold EIO; lia).
    apply Hn in H. discriminate.
  - destruct (quiet_run msg stop d env Hwf Hsem Hcs Hscl Hnack k ltac:(lia))
      as (d' & Hd' & _ & _ & _ & Hleft).
    unfold state_at in Hd'. rewrite Hk in Hd'. inversion Hd'; subst d'.
    destruct (tickEnabled d_k) eqn:E.
    + now rewrite Hw.
    + rewrite (ticks_left_off msg stop d_k E) in Hleft. lia.
Qed.

Lemma acked_always msg : acked msg (always ack_bus).
Proof. intros j _. reflexivity. Defined.

Lemma transfer_duration_witness :
  ready idle_driver /\ wf_msg write2 /\
  (forall t, scl_line (always ack_bus t) = Gpio.SET) /\
  acked write2 (always ack_bus) /\
  returned (transfer write2 true (prefix 62 (always ack_bus)) idle_driver)
    = None /\
  returned (transfer write2 true (prefix 63 (always ack_bus)) idle_driver)
    = Some 2.
Proof.
  split; [exact ready_idle_driver|]. split; [exact wf_write2|].
  split; [exact (fun _ => eq_refl)|]. split; [exact (acked_always write2)|].
  split.
  - exact (transfer_duration write2 true idle_driver (always ack_bus)
             ready_idle_driver wf_write2 (fun _ => eq_refl)
             (acked_always write2) 62%nat).
  - exact (transfer_duration write2 true idle_driver (always ack_bus)
             ready_idle_driver wf_write2 (fun _ => eq_refl)
             (acked_always write2) 63%nat).
Defined.

(** ** Where an unstretched transfer is at a given tick *)

Lemma quiet_position msg stop d0 env j r :
  wf_msg msg -> sem_ d0 = 0%nat -> clockStretchActive_ d0 = false ->
  (forall t, scl_line (env t) = Gpio.SET) ->
  (forall t, nack_at msg stop d0 env t = false) ->
  0 <= j < len msg -> 0 <= r < per_byte msg ->
  exists d,
    state_at msg stop d0 env (Z.to_nat (22 + per_byte msg * j + r)) = Ok tt d /\
    Inv msg stop d /\ scl_held_low d /\ tickEnabled d = true /\
    count_ d = j /\
    if is_read msg
    then state_ d = DATA_RX /\
         exists s, union_ d = stateRx_ s /\ StateRx.to_Z s = r
    else state_ d = DATA_TX /\
         exists s, union_ d = stateTx_ s /\ StateTx.to_Z s = r.
Proof.
  intros Hwf Hs Hc Hscl Hnack Hj Hr.
  pose proof Hwf as [Hl1 _].
  assert (Hle : Z.of_nat (Z.to_nat (22 + per_byte msg * j + r)) <=
                transfer_ticks msg stop).
  { unfold transfer_ticks, per_byte in *. destruct (is_read msg), stop; lia. }
  destruct (quiet_run msg stop d0 env Hwf Hs Hc Hscl Hnack _ Hle)
    as (d & Hd & HI & Hlow & Hcs & Hleft).
  destruct (run_inv msg stop d0 env Hwf Hs Hc
              (Z.to_nat (22 + per_byte msg * j + r))) as (d' & Hd' & _ & Hn).
  rewrite Hd in Hd'. inversion Hd'; subst d'.
  rewrite (nack_before_false msg stop d0 env _ Hnack) in Hn.
  assert (Hc0 : 0 <= count_ d).
  { destruct (Z.lt_ge_cases (count_ d) 0) as [Hneg|]; [|assumption].
    apply Hn in Hneg. discriminate. }
  exists d. split; [assumption|]. split; [assumption|]. split; [assumption|].
  clear Hd Hn Hle Hlow.
  unfold ticks_left, transfer_ticks, per_byte in *.
  destruct HI as [_ HI]. unfold EIO in *.
  destruct (tickEnabled d) eqn:E.
  - split; [reflexivity|].
    destruct (state_ d), (union_ d) as [s|s|s|s]; try contradiction;
      destruct (is_read msg) eqn:Hrd, stop; destruct s; cbn in Hleft;
      try (exfalso; intuition (first [ congruence | lia ]));
      (split; [intuition lia|]); (split; [reflexivity|]);
      eexists; (split; [reflexivity|]); cbn; intuition lia.
  - exfalso. destruct (is_read msg), stop; lia.
Qed.

Lemma quiet_finish msg stop d env :
  ready d -> wf_msg msg ->
  (forall t, scl_line (env t) = Gpio.SET) ->
  (forall t, nack_at msg stop d env t = false) ->
  exists dN rest,
    state_at msg stop d env (Z.to_nat (transfer_ticks msg stop)) = Ok tt dN /\
    Inv msg stop dN /\ scl_held_low dN /\ tickEnabled dN = false /\
    count_ dN = len msg /\
    transfer msg stop (prefix (Z.to_nat (transfer_ticks msg stop)) env) d =
      Done (len msg) (set_sem_ 0%nat dN) rest.
Proof.
  intros Hready Hwf Hscl Hnack.
  pose proof Hready as (Hstop & Hoff & Hsem & Hcs & Hinst).
  pose proof (transfer_ticks_pos msg stop Hwf) as Hpos.
  destruct (quiet_run msg stop d env Hwf Hsem Hcs Hscl Hnack
              (Z.to_nat (transfer_ticks msg stop)) ltac:(lia))
    as (dN & HN & HIN & Hlow & _ & Hleft).
  assert (HoffN : tickEnabled dN = false).
  { destruct (tickEnabled dN) eqn:E; [|reflexivity].
    pose proof (ticks_left_pos msg stop dN Hwf HIN E). lia. }
  assert (Hcnt : count_ dN = len msg).
  { destruct (inv_finished_count msg stop dN HIN HoffN) as [E|E];
      [assumption|exfalso].
    destruct (run_inv msg stop d env Hwf Hsem Hcs
                (Z.to_nat (transfer_ticks msg stop))) as (d' & Hd' & _ & Hn).
    rewrite HN in Hd'. inversion Hd'; subst d'.
    rewrite (nack_before_false msg stop d env _ Hnack) in Hn.
    assert (count_ dN < 0) by (rewrite E; unfold EIO; lia).
    apply Hn in H. discriminate. }
  destruct (sem_wait_ticks msg stop
              (prefix (Z.to_nat (transfer_ticks msg stop)) env) _ Hwf
              (inv_armed msg stop d Hsem Hcs)) as (d_k & Hk & _ & Hw).
  unfold state_at in HN. rewrite HN in Hk. inversion Hk; subst d_k.
  rewrite HoffN in Hw. destruct Hw as (rest & Hw).
  exists dN, rest. split; [exact HN|]. split; [assumption|].
  split; [assumption|]. split; [assumption|]. split; [assumption|].
  rewrite transfer_ready by assumption. rewrite Hw. cbn. now rewrite Hcnt.
Qed.

(** ** The bytes of an unstretched read *)

Lemma quiet_bus (e : nat -> Bus) t :
  scl_line (e t) = Gpio.SET -> e t = mk_bus Gpio.SET (sda_line (e t)).
Proof. destruct (e t) as [scl sda]. cbn. now intros ->. Qed.

Lemma quiet_rx_ticks e :
  (forall t, scl_line (e t) = Gpio.SET) ->
  prefix 16 e = concat (map rx_bit_ticks (rx_bits_of e)).
Proof.
  intros H. unfold prefix, rx_bits_of, rx_bit_ticks. cbn.
  repeat (f_equal; try (apply quiet_bus; apply H)).
Qed.

Lemma quiet_rx_byte msg stop d0 env j :
  wf_msg msg -> sem_ d0 = 0%nat -> clockStretchActive_ d0 = false ->
  (forall t, scl_line (env t) = Gpio.SET) ->
  (forall t, nack_at msg stop d0 env t = false) ->
  is_read msg = true -> (j < Z.to_nat (len msg))%nat ->
  exists d m,
    state_at msg stop d0 env (22 + 18 * j + 16) = Ok tt d /\
    msg_ d = Some m /\
    buf m !! j = Some (byte_of_bits (sampled_bits (shift (22 + 18 * j) env))).
Proof.
  intros Hwf Hs Hc Hscl Hnack Hrd Hj.
  destruct (quiet_position msg stop d0 env (Z.of_nat j) 0 Hwf Hs Hc Hscl Hnack)
    as (d & Hd & HI & _ & Hrun & Hcnt & Hpos).
  { lia. } { unfold per_byte. rewrite Hrd. lia. }
  unfold per_byte in Hd. rewrite Hrd in Hd, Hpos.
  replace (Z.to_nat (22 + 18 * Z.of_nat j + 0)) with (22 + 18 * j)%nat in Hd
    by lia.
  destruct Hpos as (Hst & s & Hu & Hz).
  assert (s = StateRx.FIRST) as -> by (destruct s; cbn in Hz; try lia; reflexivity).
  destruct (inv_msg msg stop d Hwf HI Hst Hrun) as (m & Hm & Hn).
  destruct (lookup_lt_is_Some_2 (buf m) _ Hn) as (v & Hv).
  assert (Hm' : msg_ d =
            Some (mk_msg (addr m) (flags m) (len m)
                    (<[Z.to_nat (count_ d) := v]> (buf m)))).
  { rewrite Hm, (list_insert_id _ _ _ Hv). now destruct m. }
  pose (e := shift (22 + 18 * j) env).
  assert (He : forall t, scl_line (e t) = Gpio.SET) by (intros; apply Hscl).
  destruct (rx_bits_run msg stop (addr m) (flags m) (len m) (buf m)
              (rx_bits_of e) d StateRx.FIRST v Hwf HI Hrun Hst Hu
              eq_refl ltac:(cbn; lia) ltac:(repeat constructor) Hn Hm')
    as (d' & s' & Ht & _ & _ & _ & _ & _ & _ & Hmsg).
  rewrite <- (quiet_rx_ticks e He) in Ht.
  exists d', (mk_msg (addr m) (flags m) (len m)
               (<[Z.to_nat (count_ d) := fold_left shift_in
                                           (map bit (rx_bits_of e)) v]> (buf m))).
  split; [now rewrite (state_at_add _ _ _ _ _ _ _ Hd)|].
  split; [assumption|]. cbn [buf].
  rewrite shift_in_byte by reflexivity.
  rewrite Hcnt, Nat2Z.id in *.
  now apply list_lookup_insert_eq.
Qed.

Lemma quiet_keep msg stop d0 env j b :
  wf_msg msg -> sem_ d0 = 0%nat -> clockStretchActive_ d0 = false ->
  (forall t, scl_line (env t) = Gpio.SET) ->
  (forall t, nack_at msg stop d0 env t = false) ->
  is_read msg = true -> (j < Z.to_nat (len msg))%nat ->
  (exists d m, state_at msg stop d0 env (22 + 18 * j + 16) = Ok tt d /\
               msg_ d = Some m /\ buf m !! j = Some b) ->
  forall n, Z.of_nat (22 + 18 * j + 16 + n) <= transfer_ticks msg stop ->
    exists d m, state_at msg stop d0 env (22 + 18 * j + 16 + n) = Ok tt d /\
                msg_ d = Some m /\ buf m !! j = Some b.
Proof.
  intros Hwf Hs Hc Hscl Hnack Hrd Hj H0.
  induction n as [|n IH]; intros Hle.
  - now rewrite Nat.add_0_r.
  - destruct IH as (d & m & Hd & Hm & Hb); [lia|].
    destruct (quiet_run msg stop d0 env Hwf Hs Hc Hscl Hnack
                (22 + 18 * j + 16 + n) ltac:(lia))
      as (d' & Hd' & HI & Hlow & Hcs & Hleft).
    rewrite Hd in Hd'. inversion Hd'; subst d'.
    assert (Hrun : tickEnabled d = true).
    { destruct (tickEnabled d) eqn:E; [reflexivity|].
      rewrite (ticks_left_off msg stop d E) in Hleft. lia. }
    destruct (full_step msg stop (env (22 + 18 * j + 16 + n)%nat) d Hwf HI
                Hrun Hlow)
      as (d1 & Ht & _ & (_ & _ & Hsame & (m0 & m1 & Hm0 & Hm1 & Hfr) & _)).
    rewrite Hm in Hm0. inversion Hm0; subst m0.
    exists d1, m1.
    replace (22 + 18 * j + 16 + S n)%nat with (S (22 + 18 * j + 16 + n))
      by lia.
    rewrite state_at_S, Hd, Hrun. split; [assumption|]. split; [assumption|].
    rewrite <- Hb. destruct (samples d) eqn:Es.
    + apply Hfr. intros ->. unfold samples in Es.
      unfold ticks_left, transfer_ticks in Hleft.
      rewrite Hrun, Hrd in Hleft. destruct HI as [_ HI].
      destruct (state_ d); try discriminate.
      destruct (union_ d) as [| | |s]; try discriminate.
      destruct HI as (_ & _ & [(_ & _ & Hcnt & _)|(E & _)]); [|congruence].
      destruct s; try discriminate; cbn in Hleft; destruct stop; lia.
    + specialize (Hsame eq_refl). congruence.
Qed.

(** X13. On a driver that is ready for the call (a message of non-zero
    length is installed, no stop is pending, the ticks are off and no
    semaphore count is pending), an unstretched read of a message with at
    least one byte and a buffer of that many bytes whose address is
    acknowledged returns [len] with every byte of the buffer equal to the
    eight levels of SDA on the sampling ticks of that byte, most
    significant bit first: byte [j] is sampled on the ticks
    22 + 18 * j + 1, + 3, ..., + 15, and is not changed afterwards. *)
Theorem read_stores_sampled_bytes msg stop d env :
  ready d -> wf_msg msg -> is_read msg = true ->
  (forall t, scl_line (env t) = Gpio.SET) ->
  sda_line (env 21%nat) = Gpio.CLR ->
  exists d' rest m,
    transfer msg stop (prefix (Z.to_nat (transfer_ticks msg stop)) env) d =
      Done (len msg) d' rest /\
    msg_ d' = Some m /\
    forall j, (j < Z.to_nat (len msg))%nat ->
      buf m !! j =
      Some (byte_of_bits (sampled_bits (shift (22 + 18 * j) env))).
Proof.
  intros Hready Hwf Hrd Hscl Hack.
  pose proof Hready as (Hstop & Hoff & Hsem & Hcs & Hinst).
  assert (Hnack : forall t, nack_at msg stop d env t = false).
  { apply quiet_acked_no_nack; auto. intros j Hj. rewrite Hrd in Hj.
    now replace j with 0%nat by lia. }
  destruct (quiet_finish msg stop d env Hready Hwf Hscl Hnack)
    as (dN & rest & HN & HIN & _ & HoffN & Hcnt & Htr).
  destruct HIN as [(m & Hm & _) _].
  exists (set_sem_ 0%nat dN), rest, m.
  split; [assumption|]. split; [assumption|].
  intros j Hj.
  pose proof (quiet_rx_byte msg stop d env j Hwf Hsem Hcs Hscl Hnack Hrd Hj)
    as H0.
  assert (Hle : (22 + 18 * j + 16 <= Z.to_nat (transfer_ticks msg stop))%nat).
  { unfold transfer_ticks. rewrite Hrd. destruct stop; lia. }
  destruct (quiet_keep msg stop d env j _ Hwf Hsem Hcs Hscl Hnack Hrd Hj H0
              (Z.to_nat (transfer_ticks msg stop) - (22 + 18 * j + 16))%nat)
    as (d1 & m1 & Hd1 & Hm1 & Hb).
  { unfold transfer_ticks in *. rewrite Hrd in *. destruct stop; lia. }
  replace (22 + 18 * j + 16 +
           (Z.to_nat (transfer_ticks msg stop) - (22 + 18 * j + 16)))%nat
    with (Z.to_nat (transfer_ticks msg stop)) in Hd1 by lia.
  rewrite HN in Hd1. inversion Hd1; subst d1.
  rewrite Hm in Hm1. inversion Hm1; subst m1. exact Hb.
Qed.

Lemma read_stores_sampled_bytes_witness :
  ready idle_driver /\ wf_msg read3 /\ is_read read3 = true /\
  (forall t, scl_line (pattern_bus t) = Gpio.SET) /\
  sda_line (pattern_bus 21) = Gpio.CLR /\
  exists d' rest m,
    transfer read3 false (prefix 76 pattern_bus) idle_driver =
      Done 3 d' rest /\
    msg_ d' = Some m /\
    buf m !! 0%nat = Some 0xAA /\ buf m !! 1%nat = Some 0x55 /\
    buf m !! 2%nat = Some 0xAA.
Proof.
  split; [exact ready_idle_driver|]. split; [exact wf_read3|].
  split; [reflexivity|]. split; [exact (fun _ => eq_refl)|].
  split; [reflexivity|].
  destruct (read_stores_sampled_bytes read3 false idle_driver pattern_bus
              ready_idle_driver wf_read3 eq_refl (fun _ => eq_refl) eq_refl)
    as (d' & rest & m & Ht & Hm & Hb).
  exists d', rest, m. split; [exact Ht|]. split; [exact Hm|].
  split; [exact (Hb 0%nat ltac:(cbn; lia))|].
  split; [exact (Hb 1%nat ltac:(cbn; lia))|exact (Hb 2%nat ltac:(cbn; lia))].
Defined.

(** ** The bytes of an unstretched write *)

(** X14. In an unstretched, acknowledged write, byte [j] of the buffer goes
    out on the sixteen ticks from tick 22 + 19 * j on: the driver is then
    on the first step of the transmit sub-machine with [j] bytes counted,
    and the SDA levels of the clock-low steps are the bits of [buf[j]],
    most significant bit first. *)
Theorem write_sends_bytes msg stop d0 env j v :
  wf_msg msg -> sem_ d0 = 0%nat -> clockStretchActive_ d0 = false ->
  is_read msg = false ->
  (forall t, scl_line (env t) = Gpio.SET) -> acked msg env ->
  (j < Z.to_nat (len msg))%nat -> buf msg !! j = Some v ->
  exists d_j,
    state_at msg stop d0 env (22 + 19 * j) = Ok tt d_j /\
    state_ d_j = DATA_TX /\ union_ d_j = stateTx_ StateTx.FIRST /\
    count_ d_j = Z.of_nat j /\
    at_clock_low (waveform (prefix 16 (shift (22 + 19 * j) env)) d_j) =
      bits_msb_first v.
Proof.
  intros Hwf Hs Hc Hrd Hscl Hack Hj Hv.
  pose proof (quiet_acked_no_nack msg stop d0 env Hwf Hs Hc Hscl Hack)
    as Hnack.
  destruct (quiet_position msg stop d0 env (Z.of_nat j) 0 Hwf Hs Hc Hscl Hnack)
    as (d & Hd & HI & _ & Hrun & Hcnt & Hpos).
  { lia. } { unfold per_byte. rewrite Hrd. lia. }
  unfold per_byte in Hd. rewrite Hrd in Hd, Hpos.
  replace (Z.to_nat (22 + 19 * Z.of_nat j + 0)) with (22 + 19 * j)%nat in Hd
    by lia.
  destruct Hpos as (Hst & s & Hu & Hz).
  assert (s = StateTx.FIRST) as ->
    by (destruct s; cbn in Hz; try lia; reflexivity).
  exists d. split; [assumption|]. split; [assumption|].
  split; [assumption|]. split; [assumption|].
  apply tx_phase_bits; [assumption|assumption|].
  destruct HI as [(m & Hm & _ & Hw) _]. rewrite (Hw Hrd) in Hm.
  exists msg. split; [assumption|]. right.
  split; [assumption|]. split; [lia|]. now rewrite Hcnt, Nat2Z.id.
Qed.

Lemma write_sends_bytes_witness :
  wf_msg write2 /\ sem_ idle_driver = 0%nat /\
  clockStretchActive_ idle_driver = false /\ is_read write2 = false /\
  (forall t, scl_line (always ack_bus t) = Gpio.SET) /\
  acked write2 (always ack_bus) /\
  (1 < Z.to_nat (len write2))%nat /\ buf write2 !! 1%nat = Some 0x3C /\
  exists d_j,
    state_at write2 true idle_driver (always ack_bus) 41 = Ok tt d_j /\
    state_ d_j = DATA_TX /\ union_ d_j = stateTx_ StateTx.FIRST /\
    count_ d_j = 1 /\
    at_clock_low (waveform (prefix 16 (shift 41 (always ack_bus))) d_j) =
      [Gpio.CLR; Gpio.CLR; Gpio.SET; Gpio.SET;
       Gpio.SET; Gpio.SET; Gpio.CLR; Gpio.CLR].
Proof.
  split; [exact wf_write2|]. split; [reflexivity|]. split; [reflexivity|].
  split; [reflexivity|]. split; [exact (fun _ => eq_refl)|].
  split; [exact (acked_always write2)|]. split; [cbn; lia|].
  split; [reflexivity|].
  exact (write_sends_bytes write2 true idle_driver (always ack_bus) 1 0x3C
           wf_write2 eq_refl eq_refl eq_refl (fun _ => eq_refl)
           (acked_always write2) ltac:(cbn; lia) eq_refl).
Defined.

(** ** A transfer without a stop *)

(** X15. On a driver that is ready for the call (a message of non-zero
    length is installed, no stop is pending, the ticks are off and no
    semaphore count is pending), when the slave does not hold the clock
    for good: a transfer without a stop of a message with at least one
    byte and a buffer of that many bytes that meets no NACK never enters
    the stop state; it ends in its data state with all bytes counted and
    SCL still driven low, [transfer] returns [len], and the first three
    ticks of whatever transfer follows release SDA, release SCL and pull
    SDA low, a repeated start. *)
Theorem no_stop_keeps_bus msg d env :
  ready d -> wf_msg msg -> fair env ->
  (forall t, nack_at msg false d env t = false) ->
  (forall t d_t, state_at msg false d env t = Ok tt d_t -> state_ d_t <> STOP) /\
  exists T d_T,
    state_at msg false d env T = Ok tt d_T /\ tickEnabled d_T = false /\
    (state_ d_T = DATA_TX \/ state_ d_T = DATA_RX) /\
    count_ d_T = len msg /\
    Gpio.level (scl_ d_T) = Gpio.CLR /\
    (forall k, (T <= k)%nat ->
       exists rest, transfer msg false (prefix k env) d =
                    Done (len msg) (set_sem_ 0%nat d_T) rest) /\
    forall msg' stop' b1 b2 b3,
      waveform [b1; b2; b3] (armed msg' stop' (set_sem_ 0%nat d_T)) =
      [(Gpio.SET, Gpio.CLR); (Gpio.SET, Gpio.SET); (Gpio.CLR, Gpio.SET)].
Proof.
  intros Hready Hwf Hfair Hnack.
  pose proof Hready as (Hstop & Hoff & Hsem & Hcs & Hinst).
  pose proof Hwf as [Hl1 _].
  assert (Hnostop : forall t d_t,
            state_at msg false d env t = Ok tt d_t -> state_ d_t <> STOP).
  { intros t d_t Hd Hst.
    destruct (run_inv msg false d env Hwf Hsem Hcs t) as (d' & Hd' & HI & Hn).
    rewrite Hd in Hd'. inversion Hd'; subst d'.
    rewrite (nack_before_false msg false d env t Hnack) in Hn.
    destruct HI as [_ HI]. rewrite Hst in HI.
    destruct (union_ d_t); try contradiction.
    destruct HI as (_ & [(_ & E)|E] & _); [discriminate|].
    assert (count_ d_t < 0) by (rewrite E; unfold EIO; lia).
    apply Hn in H. discriminate. }
  split; [exact Hnostop|].
  destruct (transfer_completes msg false d env Hwf Hsem Hcs Hfair)
    as (T & dT & HT & HI & HoffT & Hcnt & Hwait).
  rewrite (nack_before_false msg false d env T Hnack) in Hcnt.
  assert (Hlen : count_ dT = len msg).
  { destruct (inv_finished_count msg false dT HI HoffT) as [E|E];
      [assumption|].
    assert (count_ dT < 0) by (rewrite E; unfold EIO; lia).
    apply Hcnt in H. discriminate. }
  destruct (run_detail msg false d env Hwf Hsem Hcs T) as (d' & Hd' & _ & Hlow).
  rewrite HT in Hd'. inversion Hd'; subst d'.
  assert (Hst : (state_ dT = DATA_TX \/ state_ dT = DATA_RX) /\
                Gpio.level (scl_ dT) = Gpio.CLR).
  { pose proof (Hnostop T dT HT) as Hns. destruct HI as [_ HI].
    unfold scl_held_low in Hlow.
    destruct (state_ dT), (union_ dT) as [s|s|s|s]; try contradiction;
      try congruence; try (exfalso; intuition congruence).
    - destruct HI as (_ & _ & [(E & _)|(_ & _ & _ & _ & -> & _)]);
        [congruence|]. auto.
    - destruct HI as (_ & _ & [(E & _)|(_ & _ & _ & _ & -> & _)]);
        [congruence|]. auto. }
  destruct Hst as [Hst Hscl].
  exists T, dT. split; [assumption|]. split; [assumption|].
  split; [assumption|]. split; [assumption|]. split; [assumption|]. split.
  - intros k Hk. rewrite transfer_ready by assumption.
    destruct (Hwait k Hk) as (rest & ->). exists rest. cbn. now rewrite Hlen.
  - intros msg' stop' b1 b2 b3.
    rewrite (start_run msg' stop' (set_sem_ 0%nat dT) b1 b2 b3).
    cbn [scl_ set_sem_]. now rewrite Hscl.
Qed.

Lemma no_stop_keeps_bus_witness :
  ready idle_driver /\ wf_msg write2 /\ fair (always ack_bus) /\
  (forall t, nack_at write2 false idle_driver (always ack_bus) t = false) /\
  exists T d_T,
    state_at write2 false idle_driver (always ack_bus) T = Ok tt d_T /\
    tickEnabled d_T = false /\
    (state_ d_T = DATA_TX \/ state_ d_T = DATA_RX) /\
    count_ d_T = len write2 /\
    Gpio.level (scl_ d_T) = Gpio.CLR.
Proof.
  pose proof (nack_at_acked write2 false idle_driver (always ack_bus)
                (fun _ => eq_refl)) as H4.
  split; [exact ready_idle_driver|]. split; [exact wf_write2|].
  split; [exact (fair_always ack_bus eq_refl)|]. split; [exact H4|].
  destruct (no_stop_keeps_bus write2 idle_driver (always ack_bus)
              ready_idle_driver wf_write2 (fair_always ack_bus eq_refl) H4)
    as (_ & T & d_T & H1 & H2 & H3 & H5 & H6 & _).
  exists T, d_T. auto.
Defined.

(** ** Memory safety of the tick handler *)

(** X16. The tick handler is memory safe on a message that meets the
    contract: at every tick the state is defined, the active member of the
    sub-state union is the one of the current state, the data state is the
    one of the direction flag, a message is installed, and while a data
    state is running the byte counter is an index inside the buffer. *)
Theorem transfer_never_faults msg stop d0 env t :
  wf_msg msg -> sem_ d0 = 0%nat -> clockStretchActive_ d0 = false ->
  exists d,
    state_at msg stop d0 env t = Ok tt d /\
    match state_ d, union_ d with
    | START, stateStart_ _ | ADDRESS, stateTx_ _ | DATA_TX, stateTx_ _
    | DATA_RX, stateRx_ _ | STOP, stateStop_ _ => True
    | _, _ => False
    end /\
    (state_ d = DATA_TX -> is_read msg = false) /\
    (state_ d = DATA_RX -> is_read msg = true) /\
    exists m, msg_ d = Some m /\
      (tickEnabled d = true -> state_ d = DATA_TX \/ state_ d = DATA_RX ->
       0 <= count_ d < Z.of_nat (length (buf m))).
Proof.
  intros Hwf Hs Hc.
  destruct (run_inv msg stop d0 env Hwf Hs Hc t) as (d & Hd & HI & _).
  exists d. split; [assumption|].
  destruct Hwf as [Hl1 Hl2].
  destruct HI as [(m & Hm & (_ & _ & _ & Hb) & _) HI].
  destruct (state_ d), (union_ d); try contradiction;
    (split; [exact I|]);
    (split; [intros; first [ discriminate | tauto ]|]);
    (split; [intros; first [ discriminate | tauto ]|]);
    exists m; (split; [assumption|]); intros Hrun [?|?]; try discriminate;
    rewrite Hb; intuition (first [ congruence | lia ]).
Qed.

Lemma transfer_never_faults_witness :
  wf_msg read3 /\ sem_ idle_driver = 0%nat /\
  clockStretchActive_ idle_driver = false /\
  exists d,
    state_at read3 true idle_driver (always ack_bus) 30 = Ok tt d /\
    (state_ d = DATA_RX -> is_read read3 = true).
Proof.
  split; [exact wf_read3|]. split; [reflexivity|]. split; [reflexivity|].
  destruct (transfer_never_faults read3 true idle_driver (always ack_bus) 30
              wf_read3 eq_refl eq_refl) as (d & Hd & _ & _ & H & _).
  exists d. auto.
Defined.

(** ** The length check looks at the installed message *)

(** X17. The length check of [transfer] reads the message that is installed
    in the driver, not the one it is given. With no stop pending: when no
    message is installed the check dereferences the null pointer; when the
    installed message has length zero, every message is refused with
    [-EINVAL] and the driver is left as it was; and when the installed
    message has a length other than zero, the given message is installed
    and armed whatever its own length is. *)
Theorem length_check_reads_installed msg stop env d :
  stop_ d = false ->
  match msg_ d with
  | None => transfer msg stop env d = Faulted
  | Some installed =>
      if len installed =? 0
      then transfer msg stop env d = Done (- EINVAL) d env
      else sem_ d = 0%nat ->
           transfer msg stop [] d = Blocked (armed msg stop d) /\
           msg_ (armed msg stop d) = Some msg
  end.
Proof.
  intros Hstop. unfold transfer. cbn [wait_while_stop_]. rewrite Hstop.
  destruct (msg_ d) as [installed|]; [|reflexivity].
  destruct (len installed =? 0); [reflexivity|].
  intros Hsem. rewrite arm_armed. cbn. rewrite Hsem. auto.
Qed.

Lemma length_check_reads_installed_witness :
  stop_ (set_msg_ (Some zero_length) idle_driver) = false /\
  transfer write2 true (replicate 50 ack_bus)
    (set_msg_ (Some zero_length) idle_driver) =
  Done (- EINVAL) (set_msg_ (Some zero_length) idle_driver)
    (replicate 50 ack_bus).
Proof.
  split; [reflexivity|].
  exact (length_check_reads_installed write2 true (replicate 50 ack_bus)
           (set_msg_ (Some zero_length) idle_driver) eq_refl).
Defined.

(** * The first call of [transfer]

    What [transfer] does on the driver as the constructor and the start-up
    stop sequence leave it. *)

Lemma wait_while_stop_clear fuel env d :
  stop_ d = false -> wait_while_stop_ fuel env d = Done tt d env.
Proof. intros H. destruct fuel; cbn; now rewrite H. Qed.

Lemma transfer_null msg stop env d :
  stop_ d = false -> msg_ d = None -> transfer msg stop env d = Faulted.
Proof.
  intros Hs Hm. unfold transfer. rewrite (wait_while_stop_clear _ _ _ Hs).
  now rewrite Hm.
Qed.

(** C1 (fails on the code). On the driver as it is constructed, with the
    tick enabled, no call of [transfer] returns the length of the message,
    whatever the message and the bus: a caller that arrives during the
    start-up stop sequence waits for it and then reads the length through
    the null [msg_]; a caller that arrives after it reads through the null
    [msg_] at once; and if that read is taken to yield some message, the
    call returns [-EINVAL] when it yields length zero and otherwise 0,
    since the wait for completion takes the count that the start-up
    sequence left on the semaphore. *)
Theorem first_transfer_never_returns sda0 scl0 msg stop b1 b2 b3 :
  exists d0 d3,
    BitBangI2C_new sda0 scl0 true = Ok tt d0 /\
    ticks [b1; b2; b3] d0 = Ok tt d3 /\
    (forall env, returned (transfer msg stop env d0) = None) /\
    (forall rest, transfer msg stop (b1 :: b2 :: b3 :: rest) d0 = Faulted) /\
    (forall env, transfer msg stop env d3 = Faulted) /\
    (forall installed env,
       returned (transfer msg stop env (set_msg_ (Some installed) d3)) =
       Some (if len installed =? 0 then - EINVAL else 0)).
Proof.
  unfold BitBangI2C_new. do 2 eexists.
  split; [exec; reflexivity|].
  split; [exec_run; reflexivity|].
  assert (H3 : forall c1 c2 c3 rest,
            transfer msg stop (c1 :: c2 :: c3 :: rest)
              {| sda_ := {| Gpio.direction := Gpio.DINPUT;
                            Gpio.latch := Gpio.latch sda0 |};
                 scl_ := {| Gpio.direction := Gpio.DOUTPUT;
                            Gpio.latch := Gpio.CLR |};
                 tickEnabled := true; msg_ := None; sem_ := 0; count_ := 0;
                 state_ := STOP; union_ := stateStop_ StateStop.SDA_CLR;
                 stop_ := true; clockStretchActive_ := false;
                 log := [GpioClr SCL; GpioSetDirection SCL Gpio.DOUTPUT;
                         GpioClr SCL; GpioSetDirection SDA Gpio.DINPUT] |}
            = Faulted).
  { intros c1 c2 c3 rest. unfold transfer.
    cbn [wait_while_stop_ stop_ sem_ length Nat.add].
    do 3 (rewrite sem_wait_tick by reflexivity; exec; incr_compute).
    rewrite (sem_wait_pending _ _ 0%nat) by reflexivity. reflexivity. }
  split; [|split; [|split]].
  - intros env. destruct env as [|c1 [|c2 [|c3 rest]]];
      [| | |now rewrite H3];
      unfold transfer; cbn [wait_while_stop_ stop_ sem_ length Nat.add];
      repeat (rewrite sem_wait_tick by reflexivity; exec; incr_compute);
      reflexivity.
  - intros rest. apply H3.
  - intros env. now apply transfer_null.
  - intros installed env. unfold transfer.
    rewrite wait_while_stop_clear by reflexivity. cbn [msg_ set_msg_].
    destruct (len installed =? 0); [reflexivity|].
    rewrite arm_armed, (sem_wait_pending _ _ 0%nat) by reflexivity.
    reflexivity.
Qed.

(** C3 (fails on the code). The length check lets a message of length zero
    through when the installed message has a length other than zero (C2);
    its transfer clocks one data byte, so that from tick 41 on the byte
    counter is 1 and exceeds the length 0 of the message, with no NACK
    detected, and [transfer] returns 1. *)
Theorem count_exceeds_zero_length :
  exists d,
    state_at zero_length true idle_driver (always ack_bus) 41 = Ok tt d /\
    state_ d = STOP /\ count_ d = 1 /\ len zero_length = 0 /\
    nack_before zero_length true idle_driver (always ack_bus) 41 = false /\
    returned (transfer zero_length true (prefix 44 (always ack_bus))
                idle_driver) = Some 1.
Proof.
  eexists. split; [vm_compute; reflexivity|].
  split; [reflexivity|]. split; [reflexivity|]. split; [reflexivity|].
  split; vm_compute; reflexivity.
Qed.

(** C4 (fails on the code). After the start-up stop sequence a call of
    [transfer] for a slave that does not answer does not return [-EIO]: it
    reads the length through the null [msg_]; and if that read is taken to
    yield some message, the call returns [-EINVAL] when it yields length
    zero and otherwise 0 before any tick, since the wait for completion
    takes the count that the start-up sequence left on the semaphore. The
    ticks then go on: tick 21 samples the NACK of the address byte, the
    stop sequence runs and the byte counter becomes [-EIO], which no
    caller reads any more. *)
Theorem nack_not_reported b1 b2 b3 :
  exists d3,
    ticks [b1; b2; b3] (constructed true) = Ok tt d3 /\
    (forall env, transfer write2 true env d3 = Faulted) /\
    forall installed, exists d1 d21 d_f,
      transfer write2 true (replicate 25 nack_bus)
        (set_msg_ (Some installed) d3) =
        (if len installed =? 0
         then Done (- EINVAL) (set_msg_ (Some installed) d3)
                (replicate 25 nack_bus)
         else Done 0 d1 (replicate 25 nack_bus)) /\
      tickEnabled d1 = true /\
      ticks (replicate 21 nack_bus) d1 = Ok tt d21 /\
      nack_event nack_bus d21 = true /\
      ticks (replicate 25 nack_bus) d1 = Ok tt d_f /\
      count_ d_f = - EIO /\ state_ d_f = STOP /\ tickEnabled d_f = false.
Proof.
  eexists. split; [unfold constructed; exec_run; reflexivity|].
  split.
  - intros env. now apply transfer_null.
  - intros installed. do 3 eexists. split.
    + unfold transfer. rewrite wait_while_stop_clear by reflexivity.
      cbn [msg_ set_msg_]. destruct (len installed =? 0); [reflexivity|].
      rewrite arm_armed, (sem_wait_pending _ _ 0%nat) by reflexivity.
      cbn. reflexivity.
    + split; [reflexivity|]. split; [vm_compute; reflexivity|].
      split; [reflexivity|]. split; [vm_compute; reflexivity|].
      split; [reflexivity|]. split; reflexivity.
Qed.
